(** * evogit: a shallow embedding of the git-native evolutionary engine

    The development follows the Python sources of the engine:
    - [evogit/api.py]              population-level operations,
    - [evogit/utils/git.py]        the repository primitives,
    - [evogit/evox_extension.py]   the adapter that drives a generation,
    - [evogit/scripts/vector_merge_driver*.py]  the numeric merge drivers.

    Python exceptions are values of [exn]; a function that may raise returns
    a [result].  The repository, the note store, the random generator and the
    subprocesses are explicit state or explicit oracles.  The [json] module and
    the [random] module of the Python library are interfaces ([PyJson],
    [PyRandom]); concrete instances are given where an example has to run. *)

From Stdlib Require Import ZArith QArith Lia Lqa List String Ascii.
From stdpp Require Import base option list gmap strings pretty.

Set Warnings "-register-all".

Open Scope string_scope.

(* ===================================================================== *)
(** * Exceptions and results *)
(* ===================================================================== *)

Inductive exn : Set :=
| KeyError
| TypeError
| ValueError
| IndexError
| StopIteration
| JSONDecodeError
| AssertionError
| ZeroDivisionError
| FileNotFoundError
| OSError
| UnicodeDecodeError
| UnicodeEncodeError
| CalledProcessError
| RuntimeError
| BackendError.

Inductive result (A : Type) : Type :=
| Ok (a : A)
| Raise (e : exn).
Arguments Ok {A} a.
Arguments Raise {A} e.

#[global] Instance result_ret : MRet result := fun _ a => Ok a.
#[global] Instance result_bind : MBind result := fun _ _ f m =>
  match m with
  | Ok a => f a
  | Raise e => Raise e
  end.

Definition is_ok {A} (r : result A) : bool :=
  match r with Ok _ => true | Raise _ => false end.

(* ===================================================================== *)
(** * Text *)
(* ===================================================================== *)

(** A Python [str] is a [string]; the newline is character 10. *)
Definition nl : ascii := ascii_of_nat 10.
Definition newline : string := String nl EmptyString.
Definition carriage_return : ascii := ascii_of_nat 13.

(** [s.startswith(p)], returning what follows the prefix. *)
Fixpoint strip_prefix (p s : string) : option string :=
  match p, s with
  | EmptyString, _ => Some s
  | String a p', String b s' => if Ascii.eqb a b then strip_prefix p' s' else None
  | String _ _, EmptyString => None
  end.

(** The first occurrence of [p] in [s]: the text before it and the text
    after it ([s.partition(p)] without the middle). *)
Fixpoint find (p s : string) {struct s} : option (string * string) :=
  match strip_prefix p s with
  | Some r => Some (EmptyString, r)
  | None =>
      match s with
      | EmptyString => None
      | String c s' =>
          match find p s' with
          | Some (a, b) => Some (String c a, b)
          | None => None
          end
      end
  end.

(** [p in s] *)
Definition contains (p s : string) : bool :=
  match find p s with Some _ => true | None => false end.

(** No newline in [s]. *)
Fixpoint no_nl (s : string) : bool :=
  match s with
  | EmptyString => true
  | String c r => negb (Ascii.eqb c nl) && no_nl r
  end.

(** [s] is a run of whole lines: empty, or ending in a newline. *)
Fixpoint whole_lines (s : string) : bool :=
  match s with
  | EmptyString => true
  | String c EmptyString => Ascii.eqb c nl
  | String _ r => whole_lines r
  end.

(** [sep.join(l)] *)
Fixpoint join (sep : string) (l : list string) : string :=
  match l with
  | [] => EmptyString
  | [x] => x
  | x :: l' => x +:+ sep +:+ join sep l'
  end.

(** [s.split(c)] for a separator of one character. *)
Fixpoint split_char (c : ascii) (s : string) : list string :=
  match s with
  | EmptyString => [EmptyString]
  | String x r =>
      if Ascii.eqb x c then EmptyString :: split_char c r
      else
        match split_char c r with
        | h :: t => String x h :: t
        | [] => [String x EmptyString]
        end
  end.

Definition lower_char (c : ascii) : ascii :=
  let n := nat_of_ascii c in
  if ((65 <=? n) && (n <=? 90))%nat then ascii_of_nat (n + 32) else c.

(** [s.lower()] on ASCII text. *)
Fixpoint lower (s : string) : string :=
  match s with
  | EmptyString => EmptyString
  | String c r => String (lower_char c) (lower r)
  end.

(** [l[a:b]] for indices within the list. *)
Definition slice {A} (a b : nat) (l : list A) : list A := take (b - a) (drop a l).

(** [l.insert(i, x)] *)
Definition insert_at {A} (i : nat) (x : A) (l : list A) : list A :=
  (take i l ++ x :: drop i l)%list.

(* ===================================================================== *)
(** * JSON values and the [json] module *)
(* ===================================================================== *)

(** The values [json.loads] builds.  A Python [dict] keeps insertion order,
    so an object is an association list.  [JNum] is an [int]; [JFloat] is a
    [float], taken as the rational it stands for, and [JInf] is the float
    infinity (which the module reads and writes as [Infinity]).  The
    development never computes with a fitness, it only moves it. *)
Inductive json : Type :=
| JNull
| JBool (b : bool)
| JNum (n : Z)
| JFloat (q : Q)
| JInf
| JStr (s : string)
| JList (l : list json)
| JDict (d : list (string * json)).

Fixpoint dict_get (d : list (string * json)) (k : string) : option json :=
  match d with
  | [] => None
  | (k', v) :: d' => if String.eqb k' k then Some v else dict_get d' k
  end.

(** [d[k] = v] on a dict: replace in place, or append. *)
Fixpoint dict_set (d : list (string * json)) (k : string) (v : json)
  : list (string * json) :=
  match d with
  | [] => [(k, v)]
  | (k', v') :: d' =>
      if String.eqb k' k then (k', v) :: d' else (k', v') :: dict_set d' k v
  end.

(** [obj[key]] with a string key: only a dict can answer. *)
Definition getitem (obj : json) (key : string) : result json :=
  match obj with
  | JDict d =>
      match dict_get d key with
      | Some v => Ok v
      | None => Raise KeyError
      end
  | _ => Raise TypeError
  end.

(** [x is True] *)
Definition is_True (x : json) : bool :=
  match x with JBool true => true | _ => false end.

(** [x == "..."] *)
Definition eq_str (x : json) (s : string) : bool :=
  match x with JStr s' => String.eqb s' s | _ => false end.

(** The two functions of Python's [json] module that the engine calls.
    [json_loads] answers [None] where the module raises [JSONDecodeError]. *)
Class PyJson := {
  json_loads : string -> option json;
  json_dumps : json -> string;
}.

(** [json.loads(x)] on an arbitrary object: a non-string is a [TypeError]. *)
Definition loads `{PyJson} (x : json) : result json :=
  match x with
  | JStr s =>
      match json_loads s with
      | Some v => Ok v
      | None => Raise JSONDecodeError
      end
  | _ => Raise TypeError
  end.

(* --------------------------------------------------------------------- *)
(** ** A concrete reader and writer

    An instance of [PyJson] for running examples: the writer prints the way
    [json.dumps] does with its default separators; the reader accepts JSON
    text with integers, decimal fractions, [Infinity], the one-letter
    escapes, arrays and objects.  Text outside that fragment (exponents,
    [\u] escapes) is refused. *)

Module MiniJson.

Definition cr : ascii := ascii_of_nat 13.
Definition tab : ascii := ascii_of_nat 9.
Definition bs : ascii := ascii_of_nat 8.
Definition ff : ascii := ascii_of_nat 12.
Definition quote : ascii := ascii_of_nat 34.
Definition backslash : ascii := ascii_of_nat 92.

Definition is_ws (c : ascii) : bool :=
  (Ascii.eqb c " " || Ascii.eqb c nl || Ascii.eqb c cr || Ascii.eqb c tab)%bool.

Fixpoint skip_ws (s : string) : string :=
  match s with
  | String c r => if is_ws c then skip_ws r else s
  | EmptyString => s
  end.

Definition digit_of (c : ascii) : option Z :=
  let n := nat_of_ascii c in
  if ((48 <=? n) && (n <=? 57))%nat then Some (Z.of_nat (n - 48)) else None.

Fixpoint read_digits (s : string) (acc : Z) (seen : nat) : Z * nat * string :=
  match s with
  | String c r =>
      match digit_of c with
      | Some d => read_digits r (acc * 10 + d)%Z (S seen)
      | None => (acc, seen, s)
      end
  | EmptyString => (acc, seen, s)
  end.

Definition starts_exponent (s : string) : bool :=
  match s with
  | String c _ => (Ascii.eqb c "e" || Ascii.eqb c "E")%bool
  | EmptyString => false
  end.

(** A number without its sign: digits with no leading zero make an [int],
    digits, a point and digits make a [float]; an exponent is refused. *)
Definition read_number (negative : bool) (s : string) : option (json * string) :=
  let sign := if negative then (-1)%Z else 1%Z in
  match read_digits s 0%Z 0 with
  | (n, seen, r) =>
      if (seen =? 0)%nat then None
      else if match s with String "0" _ => negb (seen =? 1)%nat | _ => false end
      then None
      else
        match r with
        | String "." r' =>
            match read_digits r' 0%Z 0 with
            | (m, places, r'') =>
                if (places =? 0)%nat then None
                else if starts_exponent r'' then None
                else
                  Some (JFloat (Qmake (sign * (n * 10 ^ Z.of_nat places + m))
                                      (Z.to_pos (10 ^ Z.of_nat places))), r'')
            end
        | _ => if starts_exponent r then None else Some (JNum (sign * n), r)
        end
  end.

(** The body of a string literal, after the opening quote. *)
Fixpoint read_string (s : string) : option (string * string) :=
  match s with
  | EmptyString => None
  | String c r =>
      if Ascii.eqb c quote then Some (EmptyString, r)
      else if Ascii.eqb c backslash then
        match r with
        | String e r' =>
            let unescaped :=
              if Ascii.eqb e quote then Some quote
              else if Ascii.eqb e backslash then Some backslash
              else if Ascii.eqb e "/" then Some "/"%char
              else if Ascii.eqb e "n" then Some nl
              else if Ascii.eqb e "r" then Some cr
              else if Ascii.eqb e "t" then Some tab
              else if Ascii.eqb e "b" then Some bs
              else if Ascii.eqb e "f" then Some ff
              else None in
            match unescaped with
            | Some u =>
                match read_string r' with
                | Some (body, rest) => Some (String u body, rest)
                | None => None
                end
            | None => None
            end
        | EmptyString => None
        end
      else if (nat_of_ascii c <? 32)%nat then None
      else
        match read_string r with
        | Some (body, rest) => Some (String c body, rest)
        | None => None
        end
  end.

Fixpoint read_value (fuel : nat) (s : string) : option (json * string) :=
  match fuel with
  | O => None
  | S fuel' =>
      match skip_ws s with
      | EmptyString => None
      | String c r as s0 =>
          if Ascii.eqb c quote then
            match read_string r with
            | Some (body, rest) => Some (JStr body, rest)
            | None => None
            end
          else if Ascii.eqb c "[" then
            match skip_ws r with
            | String "]" rest => Some (JList [], rest)
            | _ => read_elems fuel' r []
            end
          else if Ascii.eqb c "{" then
            match skip_ws r with
            | String "}" rest => Some (JDict [], rest)
            | _ => read_members fuel' r []
            end
          else if Ascii.eqb c "-" then
            match strip_prefix "Infinity" r with
            | Some _ => None
            | None => read_number true r
            end
          else
            match strip_prefix "null" s0, strip_prefix "true" s0,
                  strip_prefix "false" s0, strip_prefix "Infinity" s0 with
            | Some rest, _, _, _ => Some (JNull, rest)
            | _, Some rest, _, _ => Some (JBool true, rest)
            | _, _, Some rest, _ => Some (JBool false, rest)
            | _, _, _, Some rest => Some (JInf, rest)
            | _, _, _, _ => read_number false s0
            end
      end
  end
with read_elems (fuel : nat) (s : string) (acc : list json)
  : option (json * string) :=
  match fuel with
  | O => None
  | S fuel' =>
      match read_value fuel' s with
      | Some (v, rest) =>
          match skip_ws rest with
          | String "," rest' => read_elems fuel' rest' (acc ++ [v])
          | String "]" rest' => Some (JList (acc ++ [v]), rest')
          | _ => None
          end
      | None => None
      end
  end
with read_members (fuel : nat) (s : string) (acc : list (string * json))
  : option (json * string) :=
  match fuel with
  | O => None
  | S fuel' =>
      match skip_ws s with
      | String c r =>
          if Ascii.eqb c quote then
            match read_string r with
            | Some (key, rest) =>
                match skip_ws rest with
                | String ":" rest' =>
                    match read_value fuel' rest' with
                    | Some (v, rest'') =>
                        match skip_ws rest'' with
                        | String "," rest3 =>
                            read_members fuel' rest3 (dict_set acc key v)
                        | String "}" rest3 =>
                            Some (JDict (dict_set acc key v), rest3)
                        | _ => None
                        end
                    | None => None
                    end
                | _ => None
                end
            | None => None
            end
          else None
      | EmptyString => None
      end
  end.

Definition read (s : string) : option json :=
  match read_value (2 * String.length s + 2) s with
  | Some (v, rest) =>
      match skip_ws rest with
      | EmptyString => Some v
      | _ => None
      end
  | None => None
  end.

Fixpoint escape (s : string) : string :=
  match s with
  | EmptyString => EmptyString
  | String c r =>
      if Ascii.eqb c quote then String backslash (String quote (escape r))
      else if Ascii.eqb c backslash then String backslash (String backslash (escape r))
      else if Ascii.eqb c nl then String backslash (String "n" (escape r))
      else if Ascii.eqb c carriage_return then String backslash (String "r" (escape r))
      else if Ascii.eqb c tab then String backslash (String "t" (escape r))
      else if Ascii.eqb c bs then String backslash (String "b" (escape r))
      else if Ascii.eqb c ff then String backslash (String "f" (escape r))
      else String c (escape r)
  end.

Definition quoted (s : string) : string :=
  String quote (escape s) +:+ String quote EmptyString.

(** The digits after the point, at most [places] of them. *)
Fixpoint fraction_digits (places : nat) (rem den : Z) : string :=
  match places with
  | O => EmptyString
  | S places' =>
      if (rem =? 0)%Z then EmptyString
      else pretty (rem * 10 / den)%Z +:+ fraction_digits places' (rem * 10 mod den)%Z den
  end.

(** A float as Python prints it in plain notation: the integer part, the
    point, and the digits of the fraction, one at least. *)
Definition write_float (q : Q) : string :=
  let n := Z.abs (Qnum q) in
  let d := Z.pos (Qden q) in
  let digits := fraction_digits 17 (n mod d)%Z d in
  (if (Qnum q <? 0)%Z then "-" else EmptyString)
  +:+ pretty (n / d)%Z +:+ "."
  +:+ (if String.eqb digits EmptyString then "0" else digits).

(** [json.dumps(v, separators=(item_sep, key_sep))] *)
Fixpoint write_sep (item_sep key_sep : string) (v : json) : string :=
  match v with
  | JNull => "null"
  | JBool true => "true"
  | JBool false => "false"
  | JNum n => pretty n
  | JFloat q => write_float q
  | JInf => "Infinity"
  | JStr s => quoted s
  | JList l => "[" +:+ join item_sep (map (write_sep item_sep key_sep) l) +:+ "]"
  | JDict d =>
      "{" +:+ join item_sep
                (map (fun kv => quoted (fst kv) +:+ key_sep
                                  +:+ write_sep item_sep key_sep (snd kv)) d)
          +:+ "}"
  end.

(** The default separators of [json.dumps]. *)
Definition write : json -> string := write_sep ", " ": ".

(** The compact form, [separators=(",", ":")]. *)
Definition write_compact : json -> string := write_sep "," ":".

End MiniJson.

Definition mini_json : PyJson :=
  {| json_loads := MiniJson.read; json_dumps := MiniJson.write |}.

(* ===================================================================== *)
(** * api.py: decoding an evaluation output *)
(* ===================================================================== *)

(** The body of the [try] block of [decode_result]. *)
Definition decode_stdout `{PyJson} (output illegal_value : json)
  : result (json * json) :=
  raw ← getitem output "stdout";
  stdout ← loads raw;
  status ← getitem stdout "status";
  if eq_str status "finished" then
    performance_cost ← getitem stdout "fitness";
    time_cost ← getitem stdout "time_cost";
    Ok (performance_cost, time_cost)
  else Ok (illegal_value, illegal_value).

(** [decode_result(output, illegal_value)].  The lookup of ["timeout"]
    stands outside the [try]; both handlers of the [try] assign the illegal
    value to both components. *)
Definition decode_result `{PyJson} (output illegal_value : json)
  : result (json * json) :=
  timeout ← getitem output "timeout";
  if is_True timeout then Ok (illegal_value, illegal_value)
  else
    match decode_stdout output illegal_value with
    | Ok r => Ok r
    | Raise JSONDecodeError => Ok (illegal_value, illegal_value)
    | Raise _ => Ok (illegal_value, illegal_value)
    end.

(** The record [evaluate_code] documents:
    a dict with [stdout : str], [stderr : str] and [timeout : bool]. *)
Definition output_record (output : json) (stdout stderr : string) (timeout : bool)
  : Prop :=
  getitem output "stdout" = Ok (JStr stdout) /\
  getitem output "stderr" = Ok (JStr stderr) /\
  getitem output "timeout" = Ok (JBool timeout).

(** The stdout of a finished run: it parses, its status is [finished], and
    it carries a fitness and a time cost. *)
Definition finished_with `{PyJson} (stdout : string) (fitness time_cost : json)
  : Prop :=
  exists parsed,
    json_loads stdout = Some parsed /\
    getitem parsed "status" = Ok (JStr "finished") /\
    getitem parsed "fitness" = Ok fitness /\
    getitem parsed "time_cost" = Ok time_cost.

Definition make_output (stdout stderr : string) (timeout : bool) : json :=
  JDict [("stdout", JStr stdout); ("stderr", JStr stderr); ("timeout", JBool timeout)].

(* ===================================================================== *)
(** * utils/git.py: conflict markers *)
(* ===================================================================== *)

Definition marker_ours : string := "<<<<<<<".
Definition marker_sep : string := "=======".
Definition marker_theirs : string := ">>>>>>>".

(** One search of [git_conflict_pattern], the expression
    [<<<<<<<.*?\n(.*?)=======.*?\n(.*?)>>>>>>>.*?\n] compiled with DOTALL.
    Every piece of the pattern is a literal or a lazy [.*?] that ends at a
    literal, and with DOTALL the dot takes any character.  A lazy run tries
    the nearest end first, and whatever can follow a farther end can follow
    the nearest one as well, so the match that the engine returns takes, in
    turn, the first [<<<<<<<], the first newline after it, the first
    [=======] after that, the next newline, the first [>>>>>>>] and the next
    newline; there is a match exactly when all six exist in that order.
    The answer is the text before the match, group 1, group 2 and the text
    after the match. *)
Definition search_conflict (s : string)
  : option (string * string * string * string) :=
  match find marker_ours s with
  | None => None
  | Some (before, r0) =>
  match find newline r0 with
  | None => None
  | Some (_, r1) =>
  match find marker_sep r1 with
  | None => None
  | Some (ours, r2) =>
  match find newline r2 with
  | None => None
  | Some (_, r3) =>
  match find marker_theirs r3 with
  | None => None
  | Some (theirs, r4) =>
  match find newline r4 with
  | None => None
  | Some (_, r5) => Some (before, ours, theirs, r5)
  end end end end end end.

(** [git_conflict_pattern.findall(content)]: the groups of the successive
    matches, each search starting where the previous match ended.  A match
    is never empty, so the length of the text bounds the number of
    searches. *)
Fixpoint findall_from (fuel : nat) (content : string) : list (string * string) :=
  match fuel with
  | O => []
  | S fuel' =>
      match search_conflict content with
      | None => []
      | Some (_, ours, theirs, rest) => (ours, theirs) :: findall_from fuel' rest
      end
  end.

Definition findall (content : string) : list (string * string) :=
  findall_from (S (String.length content)) content.

(** [count_conflicts], on the content of the file. *)
Definition count_conflicts_in (content : string) : nat :=
  length (findall content).

(** [git_conflict_pattern.sub(handle_one_conflict, content)] with the
    iterator over [strategy] that [handle_one_conflict] advances: each match
    takes the next element ([StopIteration] when there is none) and is
    replaced by group 1 when the element is [True], by group 2 otherwise;
    the text between matches is kept.  As in [findall_from], the fuel
    bounds the number of matches and is never used up. *)
Fixpoint sub_from (fuel : nat) (iterator : list bool) (content : string)
  : result string :=
  match fuel with
  | O => Ok content
  | S fuel' =>
      match search_conflict content with
      | None => Ok content
      | Some (before, ours, theirs, rest) =>
          match iterator with
          | [] => Raise StopIteration
          | accept_ours :: iterator' =>
              tail ← sub_from fuel' iterator' rest;
              Ok (before +:+ (if accept_ours : bool then ours else theirs) +:+ tail)
          end
      end
  end.

Definition handle_conflict_in (strategy : list bool) (content : string)
  : result string :=
  sub_from (S (String.length content)) strategy content.

(** ** Conflict blocks, as git writes them *)

(** A block: the rest of the [<<<<<<<] line, the lines of our side, the
    lines of their side, the rest of the [>>>>>>>] line. *)
Record block := {
  label_ours : string;
  ours : string;
  theirs : string;
  label_theirs : string;
}.

(** A file with conflicts: blocks, each after a stretch of plain text, and
    the plain text after the last block. *)
Fixpoint render (blocks : list (string * block)) (tail : string) : string :=
  match blocks with
  | [] => tail
  | (plain, b) :: blocks' =>
      plain +:+ marker_ours +:+ label_ours b +:+ newline
        +:+ ours b +:+ marker_sep +:+ newline
        +:+ theirs b +:+ marker_theirs +:+ label_theirs b +:+ newline
        +:+ render blocks' tail
  end.

(** What the resolution should be: the i-th block gives way to its ours
    part when the i-th element of the strategy is true, to its theirs part
    otherwise (also when the strategy has run out). *)
Fixpoint resolve (strategy : list bool) (blocks : list (string * block))
    (tail : string) : string :=
  match blocks with
  | [] => tail
  | (plain, b) :: blocks' =>
      plain +:+ (if hd false strategy then ours b else theirs b)
        +:+ resolve (tl strategy) blocks' tail
  end.

(** No marker of any of the three kinds. *)
Definition marker_free (s : string) : bool :=
  negb (contains marker_ours s) && negb (contains marker_sep s)
  && negb (contains marker_theirs s).

(** Plain text and the two sides are whole lines without markers; a label
    stays on its line. *)
Definition well_formed_block (pb : string * block) : bool :=
  let (plain, b) := pb in
  whole_lines plain && marker_free plain
  && no_nl (label_ours b)
  && whole_lines (ours b) && marker_free (ours b)
  && whole_lines (theirs b) && marker_free (theirs b)
  && no_nl (label_theirs b).

Definition well_formed (blocks : list (string * block)) (tail : string) : bool :=
  forallb well_formed_block blocks && marker_free tail.

(* ===================================================================== *)
(** * config.py *)
(* ===================================================================== *)

(** What [config.respond_extractor] makes of a response of the model. *)
Record response := {
  code : string;
  commit_message : string;
  new_file_content : string;
  response_filename : string;
}.

(** The fields of [EvoGitConfig] that the modelled functions read.  The two
    probabilities are rationals; the two callables are functions, the
    extractor one that may raise. *)
Record EvoGitConfig := {
  migrate_every : Z;
  human_every : Z;
  migrate_count : nat;
  llm_name : string;
  filename : string;
  merge_prob : Q;
  accept_ours_prob : Q;
  reevaluate : bool;
  max_merge_retry : nat;
  hostname : option string;
  prompt_constructor : string -> string -> string -> option string -> string;
  respond_extractor : string -> result response;
}.

(* ===================================================================== *)
(** * utils/git.py: the repository *)
(* ===================================================================== *)

(** A commit object: its parents, its file tree and its message.  Commits
    are named by the hexadecimal text of their hash. *)
Record commit_obj := {
  parents : list string;
  tree : gmap string string;
  message : string;
}.

(** The name git gives to a commit object (its hash). *)
Class GitHash := { commit_id : commit_obj -> string }.

(** A checkout: where HEAD is, the files on disk and the staged snapshot
    (the index). *)
Record worktree := {
  wt_head : string;
  wt_files : gmap string string;
  wt_index : gmap string string;
}.

(** The repository under [config.git_dir]: the object store, the top-level
    checkout, the refs (in the order git lists them) and the notes of the
    default namespace [refs/notes/commits]; [other_notes] are the namespaces
    fetched from other hosts, each under its name after [refs/notes/]. *)
Record repo := {
  objects : gmap string commit_obj;
  top : worktree;
  branches : list (string * string);
  remote_branches : list (string * string);
  tags : list (string * string);
  notes : gmap string string;
  other_notes : list (string * gmap string string);
}.

Definition set_top (r : repo) (w : worktree) : repo :=
  {| objects := objects r; top := w; branches := branches r;
     remote_branches := remote_branches r; tags := tags r;
     notes := notes r; other_notes := other_notes r |}.

Definition set_objects (r : repo) (o : gmap string commit_obj) : repo :=
  {| objects := o; top := top r; branches := branches r;
     remote_branches := remote_branches r; tags := tags r;
     notes := notes r; other_notes := other_notes r |}.

Definition set_notes (r : repo) (n : gmap string string) : repo :=
  {| objects := objects r; top := top r; branches := branches r;
     remote_branches := remote_branches r; tags := tags r;
     notes := n; other_notes := other_notes r |}.

Definition set_tags (r : repo) (t : list (string * string)) : repo :=
  {| objects := objects r; top := top r; branches := branches r;
     remote_branches := remote_branches r; tags := t;
     notes := notes r; other_notes := other_notes r |}.

(** [read_head_commit]: [git rev-parse HEAD] in the top-level checkout. *)
Definition read_head_commit (r : repo) : string := wt_head (top r).

(** The tree of HEAD in the top-level checkout. *)
Definition head_tree (r : repo) : gmap string string :=
  match objects r !! wt_head (top r) with
  | Some o => tree o
  | None => ∅
  end.

(** What [git checkout] does at one path (the two-tree merge of
    [git read-tree -m -u]): [i] is the entry of the index, [w] the file on
    disk, [h] the entry of HEAD and [m] the entry of the commit to check
    out.  The answer is the new entry and the new file, or nothing where
    git refuses.  A path that is the same in both commits, or already
    staged as the target has it, keeps its entry and its file, local
    changes and all; a path that differs is replaced when its entry is the
    one of HEAD and the file on disk is that entry or is missing, and
    refused otherwise; an untracked file in the way of a new path is
    refused too. *)
Definition checkout_path (i w h m : option string)
  : option (option string * option string) :=
  match i with
  | None =>
      match h, m with
      | None, Some _ =>
          match w with
          | None => Some (m, m)
          | Some _ => None
          end
      | Some _, Some _ => if bool_decide (h = m) then Some (None, w) else None
      | _, None => Some (None, w)
      end
  | Some _ =>
      if bool_decide (h = m) then Some (i, w)
      else if bool_decide (i = m) then Some (i, w)
      else if bool_decide (i = h) then
        match w with
        | None => Some (m, m)
        | Some _ => if bool_decide (w = i) then Some (m, m) else None
        end
      else None
  end.

(** The files that [f] gives at the paths of a set. *)
Definition at_paths (paths : gset string) (f : string -> option string)
  : gmap string string :=
  map_imap (fun p _ => f p) (gset_to_gmap tt paths).

(** [checkout]: [git checkout -q --detach commit] with [check=True].  The
    commit has to exist and no path may be refused; HEAD moves to the
    commit, and the index and the files follow path by path. *)
Definition checkout (r : repo) (commit : string) : result repo :=
  match objects r !! commit with
  | None => Raise CalledProcessError
  | Some o =>
      let w := top r in
      let h := head_tree r in
      let m := tree o in
      let paths := dom (wt_index w) ∪ dom (wt_files w) ∪ dom h ∪ dom m in
      let at_path p :=
        checkout_path (wt_index w !! p) (wt_files w !! p) (h !! p) (m !! p) in
      if bool_decide (set_Forall (fun p => is_Some (at_path p)) paths)
      then Ok (set_top r {| wt_head := commit;
                            wt_files := at_paths paths (fun p => at_path p ≫= snd);
                            wt_index := at_paths paths (fun p => at_path p ≫= fst) |})
      else Raise CalledProcessError
  end.

(** The top-level checkout has no local change: the files on disk and the
    index are the tree of HEAD. *)
Definition no_local_changes (r : repo) : Prop :=
  wt_files (top r) = head_tree r /\ wt_index (top r) = head_tree r.

(** [git add filename] *)
Definition git_add (w : worktree) (path : string) : worktree :=
  {| wt_head := wt_head w; wt_files := wt_files w;
     wt_index := match wt_files w !! path with
                 | Some c => <[path := c]> (wt_index w)
                 | None => delete path (wt_index w)
                 end |}.

Definition write_file (w : worktree) (path content : string) : worktree :=
  {| wt_head := wt_head w; wt_files := <[path := content]> (wt_files w);
     wt_index := wt_index w |}.

(** The characters [git_commit_message_pattern] lets through:
    letters, digits, and [: _ - . / \] and the space. *)
Definition message_char (c : ascii) : bool :=
  let n := nat_of_ascii c in
  ((97 <=? n) && (n <=? 122) || (65 <=? n) && (n <=? 90)
   || (48 <=? n) && (n <=? 57)
   || (n =? 58) || (n =? 95) || (n =? 45) || (n =? 46) || (n =? 47)
   || (n =? 92) || (n =? 32))%nat.

Fixpoint keep_chars (keep : ascii -> bool) (s : string) : string :=
  match s with
  | EmptyString => EmptyString
  | String c r => if keep c then String c (keep_chars keep r) else keep_chars keep r
  end.

(** [git_commit_message_pattern.sub("", m)[:256]] *)
Definition sanitize_message (m : string) : string :=
  String.substring 0 256 (keep_chars message_char m).

(** Whether the index differs from the tree of HEAD
    ([git diff --cached --name-only] prints something). *)
Definition staged_changes (r : repo) (w : worktree) : bool :=
  match objects r !! wt_head w with
  | Some o => bool_decide (wt_index w <> tree o)
  | None => true
  end.

(** [git commit -q -m message] in a checkout: git refuses an empty message
    and a commit without staged changes; otherwise the index becomes a new
    commit on top of HEAD. *)
Definition git_commit `{GitHash} (r : repo) (w : worktree) (msg : string)
  : option (repo * worktree) :=
  if String.eqb msg EmptyString then None
  else if negb (staged_changes r w) then None
  else
    let o := {| parents := [wt_head w]; tree := wt_index w; message := msg |} in
    let id := commit_id o in
    Some (set_objects r (<[id := o]> (objects r)),
          {| wt_head := id; wt_files := wt_files w; wt_index := wt_index w |}).

(** The content handed to [update_file]: a [str] or a [bytes]. *)
Inductive content :=
| Str (s : string)
| Bytes (s : string).

Definition payload (c : content) : string :=
  match c with Str s | Bytes s => s end.

#[global] Instance content_eq_dec : EqDecision content.
Proof. solve_decision. Defined.

(** The text layer of [open(path, "r+")]: the encoding of the locale, from
    the bytes of a file to a [str] and back, nothing where Python raises
    [UnicodeDecodeError] or [UnicodeEncodeError], and the line end of the
    platform, [os.linesep]. *)
Class TextIO := {
  text_decode : string -> option string;
  text_encode : string -> option string;
  os_linesep : string;
}.

(** Reading in text mode with universal newlines: a carriage return with
    its line feed, and a carriage return alone, come out as a line feed. *)
Fixpoint universal_newlines (s : string) : string :=
  match s with
  | EmptyString => EmptyString
  | String c rest =>
      if Ascii.eqb c carriage_return then
        match rest with
        | String c' rest' =>
            if Ascii.eqb c' nl then String nl (universal_newlines rest')
            else String nl (universal_newlines rest)
        | EmptyString => String nl EmptyString
        end
      else String c (universal_newlines rest)
  end.

(** Writing in text mode: every line feed goes out as [os.linesep]. *)
Fixpoint to_linesep (linesep : string) (s : string) : string :=
  match s with
  | EmptyString => EmptyString
  | String c rest =>
      if Ascii.eqb c nl then linesep +:+ to_linesep linesep rest
      else String c (to_linesep linesep rest)
  end.

(** [f.read()] on the bytes of the file, in the mode chosen by the type of
    [new_content]: ["rb+"] hands the bytes out, ["r+"] decodes them and
    translates the line ends. *)
Definition read_in_mode `{TextIO} (new_content : content) (bytes : string)
  : result content :=
  match new_content with
  | Bytes _ => Ok (Bytes bytes)
  | Str _ =>
      match text_decode bytes with
      | Some text => Ok (Str (universal_newlines text))
      | None => Raise UnicodeDecodeError
      end
  end.

(** The bytes [f.write(new_content)] puts in the file. *)
Definition written `{TextIO} (new_content : content) : result string :=
  match new_content with
  | Bytes bytes => Ok bytes
  | Str text =>
      match text_encode (to_linesep os_linesep text) with
      | Some bytes => Ok bytes
      | None => Raise UnicodeEncodeError
      end
  end.

(** [update_file(config, commit, new_content, commit_message, filename)]:
    the repository as the call leaves it, and how the call ends.  What
    [git add] staged stays staged when [git commit] fails. *)
Definition update_file `{GitHash} `{TextIO} (config : EvoGitConfig) (r : repo)
    (commit : string) (new_content : content) (commit_message : string)
    (file : option string) : repo * result unit :=
  match checkout r commit with
  | Raise e => (r, Raise e)
  | Ok r =>
      let file := default (filename config) file in
      match wt_files (top r) !! file with
      | None => (r, Raise FileNotFoundError)
      | Some bytes =>
          match read_in_mode new_content bytes with
          | Raise e => (r, Raise e)
          | Ok current_content =>
              if bool_decide (current_content = new_content) then (r, Ok tt)
              else
                match written new_content with
                | Raise e => (r, Raise e)
                | Ok new_bytes =>
                    let w := git_add (write_file (top r) file new_bytes) file in
                    match git_commit r w (sanitize_message commit_message) with
                    | Some (r', w') => (set_top r' w', Ok tt)
                    | None => (set_top r w, Raise CalledProcessError)
                    end
                end
          end
      end
  end.

(** [update_file_in_worktree]: the same edit in a given checkout, staged
    and not committed. *)
Definition update_file_in_worktree (config : EvoGitConfig) (w : worktree)
    (new_content : content) (file : option string) : result worktree :=
  let file := default (filename config) file in
  match wt_files w !! file with
  | None => Raise FileNotFoundError
  | Some current_content =>
      if String.eqb current_content (payload new_content) then Ok w
      else Ok (git_add (write_file w file (payload new_content)) file)
  end.

(** The operation the specification calls [commit(base, path, content,
    message)]: [update_file] followed by [read_head_commit], as every
    caller in [api.py] pairs them. *)
Definition commit `{GitHash} `{TextIO} (config : EvoGitConfig) (r : repo)
    (base : string) (path : string) (new_content : content) (msg : string)
  : repo * result string :=
  let (r', done) := update_file config r base new_content msg (Some path) in
  (r', _ ← done; Ok (read_head_commit r')).

(** The repository after a checkout of [g] without local changes. *)
Definition checked_out (r : repo) (g : string) (o : commit_obj) : repo :=
  set_top r {| wt_head := g; wt_files := tree o; wt_index := tree o |}.

(* ===================================================================== *)
(** * Notes and evaluation *)
(* ===================================================================== *)

(** [read_note]: [git notes show commit]; [None] when git exits non-zero. *)
Definition read_note (r : repo) (commit : string) : option string :=
  notes r !! commit.

(** [add_note]: [git notes add -F - [-f] commit] with [check=True].  Git
    refuses an unknown object, and an existing note unless forced. *)
Definition add_note (r : repo) (commit note : string) (overwrite : bool)
  : result repo :=
  match objects r !! commit with
  | None => Raise CalledProcessError
  | Some _ =>
      match notes r !! commit with
      | Some _ =>
          if overwrite then Ok (set_notes r (<[commit := note]> (notes r)))
          else Raise CalledProcessError
      | None => Ok (set_notes r (<[commit := note]> (notes r)))
      end
  end.

(** How [subprocess.run] of the evaluation command can end: it completes
    (with any exit status) and its output decodes; it completes and the
    output is not UTF-8; it runs into the timeout; the call itself raises
    (the command or the directory is missing, ...). *)
Inductive completed :=
| Completed (stdout stderr : string)
| Undecodable
| TimeoutExpired
| Failed (e : exn).

(** The evaluation command, run in a checkout of the commit. *)
Class EvalCommand := { run_eval : string -> completed }.

(** [add_temp_worktree]: [git worktree add --detach] with [check=True]. *)
Definition add_temp_worktree (r : repo) (commit : string) : result worktree :=
  match objects r !! commit with
  | None => Raise CalledProcessError
  | Some o => Ok {| wt_head := commit; wt_files := tree o; wt_index := tree o |}
  end.

Definition prepare_temp_worktrees (r : repo) (commits : list string)
  : result (list worktree) :=
  mapM (add_temp_worktree r) commits.

(** [evaluate_code(config, commit, worktree)] *)
Definition evaluate_code `{PyJson} `{EvalCommand} (config : EvoGitConfig)
    (r : repo) (commit : string) : result json :=
  let cached := if reevaluate config then None else read_note r commit in
  match cached with
  | Some note => loads (JStr note)
  | None =>
      match run_eval commit with
      | Completed stdout stderr => Ok (make_output stdout stderr false)
      | Undecodable => Raise UnicodeDecodeError
      | TimeoutExpired => Ok (make_output EmptyString EmptyString true)
      | Failed e => Raise e
      end
  end.

(** [update_notes]: every result is serialised and written with
    [overwrite=True].  The state after a failure keeps the notes written
    before it. *)
Fixpoint update_notes `{PyJson} (r : repo) (commits : list string)
    (evaluate_results : list json) : repo * result unit :=
  match commits, evaluate_results with
  | commit :: commits', res :: results' =>
      match add_note r commit (json_dumps res) true with
      | Ok r' => update_notes r' commits' results'
      | Raise e => (r, Raise e)
      end
  | _, _ => (r, Ok tt)
  end.

(** [list(set(pop))]: the distinct commits.  Python leaves the order open;
    nothing below depends on it. *)
Definition unique (pop : list string) : list string := remove_dups pop.

(** The illegal value of [evaluate], the float [1e8]. *)
Definition illegal_cost : json := JFloat 100000000.

(** The element types torch infers for numbers: bool, int64, and float32
    for a float (the default float type). *)
Inductive dtype := BoolType | Int64 | Float32.

(** The wider of two element types. *)
Definition promote (a b : dtype) : dtype :=
  match a, b with
  | Float32, _ | _, Float32 => Float32
  | Int64, _ | _, Int64 => Int64
  | BoolType, BoolType => BoolType
  end.

(** The items after the first of a list that is to be a tensor: each has
    the shape of the first, and the element type widens as they go. *)
Fixpoint agree (type_of : json -> option (list nat * dtype)) (shape : list nat)
    (l : list json) (t : dtype) : option dtype :=
  match l with
  | [] => Some t
  | y :: l' =>
      match type_of y with
      | Some (shape', t') =>
          if bool_decide (shape' = shape) then agree type_of shape l' (promote t t')
          else None
      | None => None
      end
  end.

(** The shape and element type [torch.tensor] infers for a value: a number
    is a scalar, a list is a tensor when its items agree on their shape (an
    empty list is an empty float tensor); anything else is refused. *)
Fixpoint tensor_type (v : json) : option (list nat * dtype) :=
  match v with
  | JBool _ => Some ([], BoolType)
  | JNum _ => Some ([], Int64)
  | JFloat _ | JInf => Some ([], Float32)
  | JList l =>
      match l with
      | [] => Some ([0], Float32)
      | x :: l' =>
          match tensor_type x with
          | None => None
          | Some (shape, t) =>
              match agree tensor_type shape l' t with
              | Some t => Some (length l :: shape, t)
              | None => None
              end
          end
      end
  | JNull | JStr _ | JDict _ => None
  end.

(** The element type of a number. *)
Definition scalar_type (v : json) : option dtype :=
  match v with
  | JBool _ => Some BoolType
  | JNum _ => Some Int64
  | JFloat _ | JInf => Some Float32
  | _ => None
  end.

(** The pair has a float in it. *)
Definition has_float (p : json * json) : Prop :=
  scalar_type (fst p) = Some Float32 \/ scalar_type (snd p) = Some Float32.

(** Both items of the pair are numbers. *)
Definition numbers (p : json * json) : Prop :=
  is_Some (scalar_type (fst p)) /\ is_Some (scalar_type (snd p)).

(** An [int] that an [int64] element holds; anything but an [int] passes. *)
Definition fits_int64 (v : json) : bool :=
  match v with
  | JNum n => (- 2 ^ 63 <=? n)%Z && (n <? 2 ^ 63)%Z
  | _ => true
  end.

(** [fitness = torch.tensor(fitness)] and
    [assert fitness.dtype == torch.float32], on the list of pairs.  A
    tensor of integers is filled before the assertion is reached, and an
    [int] outside of [int64] stops that with [RuntimeError] (overflow when
    unpacking). *)
Definition pack (fitness : list (json * json)) : result (list (json * json)) :=
  match tensor_type (JList (map (fun p => JList [fst p; snd p]) fitness)) with
  | None => Raise ValueError
  | Some (_, Float32) => Ok fitness
  | Some (_, Int64) =>
      if forallb (fun p => fits_int64 (fst p) && fits_int64 (snd p)) fitness
      then Raise AssertionError
      else Raise RuntimeError
  | Some (_, BoolType) => Raise AssertionError
  end.

Fixpoint assoc {A} (k : string) (l : list (string * A)) : option A :=
  match l with
  | [] => None
  | (k', v) :: l' => if String.eqb k' k then Some v else assoc k l'
  end.

(** [evaluate(config, pool, pop)] of the adapter.  [pool.map] hands back
    the results in order and raises the first exception in that order.  The
    answer is the repository as the call leaves it and the fitness, the
    pairs that make up the tensor, or the exception. *)
Definition evaluate `{PyJson} `{EvalCommand} (config : EvoGitConfig)
    (r : repo) (pop : list string) : repo * result (list (json * json)) :=
  let unique_pop := unique pop in
  match prepare_temp_worktrees r unique_pop with
  | Raise e => (r, Raise e)
  | Ok _ =>
  match mapM (evaluate_code config r) unique_pop with
  | Raise e => (r, Raise e)
  | Ok outputs =>
  match update_notes r unique_pop outputs with
  | (r', Raise e) => (r', Raise e)
  | (r', Ok _) =>
      (r',
       commit_to_fitness ←
         mapM (fun co => f ← decode_result (snd co) illegal_cost; Ok (fst co, f))
              (zip unique_pop outputs);
       fitness ←
         mapM (fun commit_id =>
                 match assoc commit_id commit_to_fitness with
                 | Some f => Ok f
                 | None => Raise KeyError
                 end) pop;
       pack fitness)
  end end end.

(* --------------------------------------------------------------------- *)
(** ** A small repository for examples *)

Module Demo.

(** Names in place of hashes: the parents and the message, spelled out. *)
Definition naming : GitHash :=
  {| commit_id := fun o =>
       String.concat "+" (parents o) +:+ "/" +:+ message o +:+ "/"
       +:+ String.concat "," (map snd (map_to_list (tree o))) |}.

Definition config : EvoGitConfig :=
  {| migrate_every := 1; human_every := 1; migrate_count := 1;
     llm_name := "tgi"; filename := "main.py";
     merge_prob := 1 # 2; accept_ours_prob := 1 # 2;
     reevaluate := false; max_merge_retry := 1;
     hostname := Some "host0";
     prompt_constructor := fun file_list random_file prompt_code lint_output =>
       random_file +:+ newline +:+ prompt_code;
     respond_extractor := fun text =>
       Ok {| code := text; commit_message := "edit";
             new_file_content := EmptyString; response_filename := "none" |} |}.

Definition seed_commit : commit_obj :=
  {| parents := []; tree := {[ "main.py" := "value=0" ]}; message := "init" |}.

Definition clean (head : string) (o : commit_obj) : worktree :=
  {| wt_head := head; wt_files := tree o; wt_index := tree o |}.

(** One commit, named [a1], and nothing else. *)
Definition repo0 : repo :=
  {| objects := {[ "a1" := seed_commit ]};
     top := clean "a1" seed_commit;
     branches := []; remote_branches := []; tags := [];
     notes := ∅; other_notes := [] |}.

(** The record of a run that timed out. *)
Definition timed_out : json := make_output EmptyString EmptyString true.

(** [repo0] with that record as the note of [a1], in the compact form
    (no blank after a comma or a colon). *)
Definition compact_note : string := MiniJson.write_compact timed_out.
Definition repo_compact : repo := set_notes repo0 {[ "a1" := compact_note ]}.

(** The same with the note in the form [json.dumps] writes. *)
Definition dumped_note : string := MiniJson.write timed_out.
Definition repo_dumped : repo := set_notes repo0 {[ "a1" := dumped_note ]}.

(** The stdout of a finished run, fitness 5 and time cost 1. *)
Definition finished_stdout : string :=
  MiniJson.write (JDict [("status", JStr "finished");
                         ("fitness", JNum 5); ("time_cost", JNum 1)]).

(** An evaluation command that always prints that record. *)
Definition finishing : EvalCommand :=
  {| run_eval := fun _ => Completed finished_stdout EmptyString |}.

(** The text layer of a POSIX locale with the codec [ascii]: a [str] and
    its bytes are the same characters, all below 128, and a line ends with
    a line feed. *)
Definition all_ascii (s : string) : bool :=
  forallb (fun c => (nat_of_ascii c <? 128)%nat) (list_ascii_of_string s).

Definition ascii_text : TextIO :=
  {| text_decode := fun bytes => if all_ascii bytes then Some bytes else None;
     text_encode := fun text => if all_ascii text then Some text else None;
     os_linesep := newline |}.

(** A line that ends with a carriage return and a line feed. *)
Definition crlf_line : string := "value=0" +:+ String carriage_return newline.

(** One commit whose file has that line, checked out without local
    changes. *)
Definition crlf_commit : commit_obj :=
  {| parents := []; tree := {[ "main.py" := crlf_line ]}; message := "init" |}.

Definition repo_crlf : repo :=
  {| objects := {[ "a1" := crlf_commit ]};
     top := clean "a1" crlf_commit;
     branches := []; remote_branches := []; tags := [];
     notes := ∅; other_notes := [] |}.

(** [repo0] with [main.py] edited on disk and not staged. *)
Definition repo_edited : repo :=
  {| objects := {[ "a1" := seed_commit ]};
     top := {| wt_head := "a1";
               wt_files := {[ "main.py" := "value=1" ]};
               wt_index := tree seed_commit |};
     branches := []; remote_branches := []; tags := [];
     notes := ∅; other_notes := [] |}.

End Demo.

(* ===================================================================== *)
(** * The [random] module *)
(* ===================================================================== *)

(** Python's global generator as explicit state.  [rng_seed n] is the
    state [random.seed(n)] leaves; the draws are the ones the engine makes:
    [random.choices([True, False], weights=[p, 1 - p], k=k)],
    [random.randint(a, b)], the index behind [random.choice(seq)], and
    [random.shuffle]. *)
Class PyRandom := {
  rng : Type;
  rng_seed : Z -> rng;
  rng_choices : rng -> Q -> nat -> list bool * rng;
  rng_randint : rng -> Z -> Z -> Z * rng;
  rng_index : rng -> nat -> nat * rng;
  rng_shuffle : rng -> list string -> list string * rng;
  rng_choices_length : forall g p k, length (fst (rng_choices g p k)) = k;
  rng_randint_range : forall g a b,
      (a <= b)%Z -> (a <= fst (rng_randint g a b) <= b)%Z;
  rng_index_range : forall g n, 0 < n -> fst (rng_index g n) < n;
  rng_shuffle_perm : forall g l, Permutation (fst (rng_shuffle g l)) l;
}.

(* ===================================================================== *)
(** * api.py: migration *)
(* ===================================================================== *)

(** [list_tags]: the names [git tag] prints. *)
Definition list_tags (r : repo) : list string := map fst (tags r).

(** [get_commit_by_tag]: [git rev-parse tags/<tag>] with [check=True]. *)
Definition get_commit_by_tag (r : repo) (tag : string) : result string :=
  match assoc tag (tags r) with
  | Some c => Ok c
  | None => Raise CalledProcessError
  end.

(** [delete_tags]: [git tag -d] on the names, when there are any. *)
Definition delete_tags (r : repo) (names : list string) : repo :=
  set_tags r (filter (fun t => negb (bool_decide (fst t ∈ names))) (tags r)).

Definition startswith (s p : string) : bool :=
  match strip_prefix p s with Some _ => true | None => false end.

(** [migrate_from_human_tags(config, migrate_count)] *)
Definition migrate_from_human_tags (r : repo) (migrate_count : nat)
  : repo * result (list string) :=
  let all_tags := list_tags r in
  let tags := filter (fun tag => startswith tag "human") all_tags in
  let tags := take migrate_count tags in
  match mapM (get_commit_by_tag r) tags with
  | Raise e => (r, Raise e)
  | Ok commits => (delete_tags r tags, Ok commits)
  end.

(** [a, b = xs]: unpacking a list into two names. *)
Definition unpack2 {A} (xs : list A) : result (A * A) :=
  match xs with
  | [a; b] => Ok (a, b)
  | _ => Raise ValueError
  end.

(** What [MigrateHelper.migrate_from_human] hands back: the triple with
    the first element of [commit] and the fitness, or the pair with the
    empty tensor. *)
Inductive human_migration :=
| HumanFound (first : ascii) (fitness : string)
| HumanNone.

(** [generation % every == 0] *)
Definition divides (every generation : Z) : result bool :=
  if Z.eqb every 0 then Raise ZeroDivisionError
  else Ok (Z.eqb (generation mod every) 0).

(** [MigrateHelper.migrate_from_human], with [self.generation] and the
    repository as arguments. *)
Definition migrate_from_human (config : EvoGitConfig) (generation : Z) (r : repo)
  : repo * result human_migration :=
  match divides (human_every config) generation with
  | Raise e => (r, Raise e)
  | Ok false => (r, Ok HumanNone)
  | Ok true =>
      match migrate_from_human_tags r 1 with
      | (r', Raise e) => (r', Raise e)
      | (r', Ok returned) =>
          (r',
           '(commit, fitness) ← unpack2 returned;
           match commit with
           | String first _ => Ok (HumanFound first fitness)
           | EmptyString => Ok HumanNone
           end)
      end
  end.

(** [is_normal_branch] of [list_branches] *)
Definition is_normal_branch (branch : string) : bool :=
  negb (contains "detached" branch || contains "master" branch
        || contains "main" branch || contains "HEAD" branch).

(** [list_branches(config, list_remote=True)]: the names [git branch -r]
    prints, the ones the evolution uses, under [remotes/]. *)
Definition list_remote_branches (r : repo) : list string :=
  map (fun b => "remotes/" +:+ b)
      (filter (fun b => is_normal_branch b) (map fst (remote_branches r))).

(** [get_commit_by_branch] on a name under [remotes/]. *)
Definition get_commit_by_branch (r : repo) (branch : string) : result string :=
  match strip_prefix "remotes/" branch with
  | Some name =>
      match assoc name (remote_branches r) with
      | Some c => Ok c
      | None => Raise CalledProcessError
      end
  | None => Raise CalledProcessError
  end.

(** What [git notes get-ref] prints: the notes ref in use, on a line.
    The program sets no other, so it is the default one, whatever has been
    fetched. *)
Definition git_notes_get_ref (r : repo) : string :=
  "refs/notes/commits" +:+ newline.

(** [list_remote_notes_namespaces]: the lines of that output other than
    the empty one and the default namespace, each without its first 11
    characters. *)
Definition list_remote_notes_namespaces (r : repo) : list string :=
  map (fun ref => String.substring 11 (String.length ref - 11) ref)
      (filter (fun ref => negb (String.eqb ref EmptyString)
                          && negb (String.eqb ref "refs/notes/commits"))
              (split_char nl (git_notes_get_ref r))).

(** [git notes merge --strategy ours <namespace>]: the notes of the
    namespace are merged into the default one, and the local note of a
    commit that has one on both sides is kept; a namespace that does not
    exist is an error, which [merge_notes] does not look at. *)
Definition git_notes_merge_ours (r : repo) (namespace : string) : repo :=
  match assoc namespace (other_notes r) with
  | Some other => set_notes r (notes r ∪ other)
  | None => r
  end.

(** [merge_notes]: each listed namespace is merged into the default one. *)
Definition merge_notes (r : repo) : repo :=
  fold_left git_notes_merge_ours (list_remote_notes_namespaces r) r.

(** The loop of [migrate_from_other_hosts]: the test that ends it comes
    after the branch has been handled. *)
Fixpoint migration_loop `{PyJson} (r : repo) (migration_count : nat)
    (branches : list string) (commits : list string) (fitness : list (json * json))
  : result (list string * list (json * json)) :=
  match branches with
  | [] => Ok (commits, fitness)
  | branch :: branches' =>
      commit ← get_commit_by_branch r branch;
      '(commits, fitness) ←
        match read_note r commit with
        | Some note =>
            parsed ← loads (JStr note);
            f ← decode_result parsed JInf;
            Ok ((commits ++ [commit])%list, (fitness ++ [f])%list)
        | None => Ok (commits, fitness)
        end;
      if (length commits =? migration_count)%nat then Ok (commits, fitness)
      else migration_loop r migration_count branches' commits fitness
  end.

(** [migrate_from_other_hosts(config, migration_count)], from a state of
    the generator, up to the conversion of the fitness list to an array;
    the repository comes back as [merge_notes] leaves it. *)
Definition migrate_from_other_hosts `{PyJson} `{PyRandom} (config : EvoGitConfig)
    (r : repo) (g : rng) (migration_count : nat)
  : repo * rng * result (list string * list (json * json)) :=
  let remote_branches := list_remote_branches r in
  let r := merge_notes r in
  let hostname := default "host0" (hostname config) in
  let branches :=
    filter (fun branch => negb (contains hostname branch)) remote_branches in
  let (branches, g) := rng_shuffle g branches in
  (r, g, migration_loop r migration_count branches [] []).

(* --------------------------------------------------------------------- *)
(** ** A generator for examples

    A linear congruential generator in place of the Mersenne Twister: all
    that the examples need of a generator is that its draws depend on its
    state. *)

Module ToyRandom.

Definition step (g : Z) : Z := ((g * 1103515245 + 12345) mod 2147483648)%Z.

Definition seed (n : Z) : Z := (n mod 2147483648)%Z.

Definition coin (g : Z) (p : Q) : bool := Qle_bool (g mod 1000 # 1000) p.

Fixpoint choices (g : Z) (p : Q) (k : nat) : list bool * Z :=
  match k with
  | O => ([], g)
  | S k' => let (l, g') := choices (step g) p k' in (coin g p :: l, g')
  end.

Definition randint (g a b : Z) : Z * Z := ((a + g mod (b - a + 1))%Z, step g).

Definition index (g : Z) (n : nat) : nat * Z :=
  (Z.to_nat (g mod Z.of_nat n), step g).

Definition shuffle (g : Z) (l : list string) : list string * Z :=
  (if Z.even g then l else rev l, step g).

Lemma choices_length g p k : length (fst (choices g p k)) = k.
Proof.
  revert g. induction k as [|k IH]; intros g; [reflexivity|].
  cbn [choices]. specialize (IH (step g)).
  destruct (choices (step g) p k) as [l g']. simpl in *. congruence.
Qed.

Lemma randint_range g a b :
  (a <= b)%Z -> (a <= fst (randint g a b) <= b)%Z.
Proof.
  intros Hab. unfold randint. cbn [fst].
  pose proof (Z.mod_pos_bound g (b - a + 1)). lia.
Qed.

Lemma index_range g n : 0 < n -> fst (index g n) < n.
Proof.
  intros Hn. unfold index. cbn [fst].
  pose proof (Z.mod_pos_bound g (Z.of_nat n)). lia.
Qed.

Lemma shuffle_perm g l : Permutation (fst (shuffle g l)) l.
Proof.
  unfold shuffle. cbn [fst]. destruct (Z.even g); [reflexivity|].
  symmetry. apply Permutation_rev.
Qed.

End ToyRandom.

Definition toy_random : PyRandom :=
  {| rng := Z;
     rng_seed := ToyRandom.seed;
     rng_choices := ToyRandom.choices;
     rng_randint := ToyRandom.randint;
     rng_index := ToyRandom.index;
     rng_shuffle := ToyRandom.shuffle;
     rng_choices_length := ToyRandom.choices_length;
     rng_randint_range := ToyRandom.randint_range;
     rng_index_range := ToyRandom.index_range;
     rng_shuffle_perm := ToyRandom.shuffle_perm |}.

Module DemoMigration.

(** A host [host0] that has fetched one branch of [host1]; the commit of
    that branch carries a note. *)
Definition visitor : commit_obj :=
  {| parents := ["a1"]; tree := {[ "main.py" := "value=1" ]}; message := "step" |}.

Definition fetched : repo :=
  {| objects := {[ "a1" := Demo.seed_commit; "b2" := visitor ]};
     top := Demo.clean "a1" Demo.seed_commit;
     branches := [("host0-individual-0", "a1")];
     remote_branches := [("origin/host1-individual-0", "b2")];
     tags := [];
     notes := {[ "b2" := Demo.dumped_note ]};
     other_notes := [] |}.

(** The same repository with two tags left by a person. *)
Definition tagged : repo :=
  set_tags fetched [("human-1", "b2"); ("human-2", "a1")].

End DemoMigration.

Module DemoConflict.

Definition line (s : string) : string := s +:+ newline.

(** A file with two conflicts, and a last line without a newline. *)
Definition blocks : list (string * block) :=
  [ (line "import os",
     {| label_ours := " HEAD"; ours := line "x = 1"; theirs := line "x = 2";
        label_theirs := " 3f2a" |});
    (line "print(x)",
     {| label_ours := " HEAD"; ours := line "y = 1" +:+ line "z = 1";
        theirs := EmptyString; label_theirs := " 3f2a" |}) ].

Definition tail : string := "# end".

(** One conflict whose ours part has a line of equals signs in it. *)
Definition underlined : list (string * block) :=
  [ (EmptyString,
     {| label_ours := " HEAD"; ours := line "Title" +:+ line "=======";
        theirs := line "Other"; label_theirs := " 3f2a" |}) ].

(** One conflict whose ours part has a comment with a run of equals signs
    in the middle of its line. *)
Definition commented : list (string * block) :=
  [ (EmptyString,
     {| label_ours := " HEAD";
        ours := line "# ======= helpers =======" +:+ line "x = 1";
        theirs := line "x = 2"; label_theirs := " 3f2a" |}) ].

End DemoConflict.

(* ===================================================================== *)
(** * Merging and rebasing *)
(* ===================================================================== *)

(** What the crossover asks of git, on the state of the repository and its
    top-level checkout.  The merge and the rebase are git's own; the engine
    reads their effect through [has_conflict], the list of unmerged files
    and the files themselves. *)
Class GitEngine := {
  gstate : Type;
  (** [git checkout -q --detach commit], [check=True] *)
  checkout_in : gstate -> string -> result gstate;
  (** [git merge -q commit --no-edit], exit status ignored *)
  merge_branches : gstate -> string -> gstate;
  (** [git rebase -q commit], exit status ignored *)
  rebase_branches : gstate -> string -> gstate;
  (** [git status] speaks of unmerged paths, of merging or of rebasing *)
  has_conflict : gstate -> bool;
  (** [git diff --name-only --diff-filter=U] *)
  list_conflict_files : gstate -> list string;
  (** [open(path).read()] *)
  read_in : gstate -> string -> result string;
  (** [open(path, "w").write(text)] and [git add path], [check=True] *)
  write_add : gstate -> string -> string -> result gstate;
  (** [git merge --continue], [check=True] *)
  continue_merge : gstate -> result gstate;
  (** [git rebase --continue], exit status ignored *)
  continue_rebase : gstate -> gstate;
  (** [git rev-parse HEAD] *)
  head_in : gstate -> string;
  (** [git merge-base --is-ancestor a b] exits with 0 *)
  is_ancestor : gstate -> string -> string -> bool;
}.

(** [fast_forwardness] *)
Definition fast_forwardness `{GitEngine} (s : gstate) (commit1 commit2 : string)
  : bool :=
  is_ancestor s commit1 commit2.

(** [is_novel_merge] *)
Definition is_novel_merge `{GitEngine} (s : gstate) (commit1 commit2 : string)
  : bool :=
  negb (fast_forwardness s commit1 commit2 || fast_forwardness s commit2 commit1).

(** [count_conflicts(config, filename)] *)
Definition count_conflicts `{GitEngine} (s : gstate) (file : string) : result nat :=
  content ← read_in s file;
  Ok (count_conflicts_in content).

(** [handle_conflict(config, strategy, filename)] *)
Definition handle_conflict `{GitEngine} (s : gstate) (strategy : list bool)
    (file : string) : result gstate :=
  content ← read_in s file;
  resolved ← handle_conflict_in strategy content;
  write_add s file resolved.

(** The state a crossover runs in: git, Python's generator, and the record
    of what has been drawn from the generator (kept for the statements
    about random choices; the code has no such record). *)
Record crossing `{GitEngine} `{PyRandom} := {
  git : gstate;
  gen : rng;
  drawn : list (list bool);
}.

(** [random.choices([True, False], weights=[p, 1 - p], k=k)] *)
Definition draw_choices `{GitEngine} `{PyRandom} (c : crossing) (p : Q) (k : nat)
  : list bool * crossing :=
  let (l, g) := rng_choices (gen c) p k in
  (l, {| git := git c; gen := g; drawn := (drawn c ++ [l])%list |}).

Definition with_git `{GitEngine} `{PyRandom} (c : crossing) (s : gstate) : crossing :=
  {| git := s; gen := gen c; drawn := drawn c |}.

(** The loop of [git_merge] over the conflicted files. *)
Fixpoint merge_files `{GitEngine} `{PyRandom} (config : EvoGitConfig)
    (c : crossing) (files : list string) : result crossing :=
  match files with
  | [] => Ok c
  | file :: files' =>
      count ← count_conflicts (git c) file;
      let (strategy, c) := draw_choices c (accept_ours_prob config) count in
      s ← handle_conflict (git c) strategy file;
      merge_files config (with_git c s) files'
  end.

(** [git_merge] *)
Definition git_merge `{GitEngine} `{PyRandom} (config : EvoGitConfig)
    (c : crossing) (commit1 commit2 : string) : result crossing :=
  s ← checkout_in (git c) commit1;
  let c := with_git c (merge_branches s commit2) in
  c ← (if has_conflict (git c) then
         c ← merge_files config c (list_conflict_files (git c));
         s ← continue_merge (git c);
         Ok (with_git c s)
       else Ok c);
  if has_conflict (git c) then Raise AssertionError else Ok c.

(** The [while] loop of [git_rebase].  A rebase replays finitely many
    commits; [steps] bounds the passes, and [None] stands for a loop that
    has not ended within them. *)
Fixpoint rebase_loop `{GitEngine} `{PyRandom} (steps : nat) (config : EvoGitConfig)
    (c : crossing) : option (result crossing) :=
  if has_conflict (git c) then
    match steps with
    | O => None
    | S steps' =>
        match count_conflicts (git c) (filename config) with
        | Raise e => Some (Raise e)
        | Ok count =>
            let (strategy, c) := draw_choices c (accept_ours_prob config) count in
            match handle_conflict (git c) strategy (filename config) with
            | Raise e => Some (Raise e)
            | Ok s => rebase_loop steps' config (with_git c (continue_rebase s))
            end
        end
    end
  else Some (Ok c).

(** [git_rebase] *)
Definition git_rebase `{GitEngine} `{PyRandom} (steps : nat) (config : EvoGitConfig)
    (c : crossing) (commit1 commit2 : string) : option (result crossing) :=
  match checkout_in (git c) commit1 with
  | Raise e => Some (Raise e)
  | Ok s =>
      match rebase_loop steps config (with_git c (rebase_branches s commit2)) with
      | Some (Ok c) =>
          Some (if has_conflict (git c) then Raise AssertionError else Ok c)
      | other => other
      end
  end.

(** [git_crossover(config, seed, commit1, commit2)]: the generator is
    seeded first, then one weighted draw chooses between merge and rebase.
    The answer carries the new HEAD. *)
Definition git_crossover `{GitEngine} `{PyRandom} (steps : nat)
    (config : EvoGitConfig) (seed : Z) (commit1 commit2 : string) (c : crossing)
  : option (result (crossing * string)) :=
  let c := {| git := git c; gen := rng_seed seed; drawn := drawn c |} in
  let (use_merge, c) := draw_choices c (merge_prob config) 1 in
  let done :=
    if hd false use_merge then Some (git_merge config c commit1 commit2)
    else git_rebase steps config c commit1 commit2 in
  match done with
  | Some (Ok c) => Some (Ok (c, head_in (git c)))
  | Some (Raise e) => Some (Raise e)
  | None => None
  end.

(* ===================================================================== *)
(** * evox_extension.py: crossover over the population *)
(* ===================================================================== *)

(** torch's generator, for [torch.randint(0, n, ...)]. *)
Class TorchRandom := {
  trng : Type;
  torch_randint : trng -> nat -> nat * trng;
  torch_randint_range : forall t n, 0 < n -> fst (torch_randint t n) < n;
}.

(** [idx1, idx2 = torch.randint(0, pop_size, (2,))] and
    [commit1, commit2 = pop[idx1], pop[idx2]] *)
Definition draw_pair `{TorchRandom} (t : trng) (pop : list string)
  : result (string * string) * trng :=
  let (idx1, t) := torch_randint t (length pop) in
  let (idx2, t) := torch_randint t (length pop) in
  (match pop !! idx1, pop !! idx2 with
   | Some commit1, Some commit2 => Ok (commit1, commit2)
   | _, _ => Raise IndexError
   end, t).

(** The [while] loop of [evogit_git_crossover]: it draws again while the
    pair is not novel and [retry] is below [config.max_merge_retry];
    [budget] is what is left of that bound. *)
Fixpoint redraw `{GitEngine} `{TorchRandom} (budget : nat) (s : gstate) (t : trng)
    (pop : list string) (commit1 commit2 : string) (retry : nat)
  : result (string * string * nat) * trng :=
  if is_novel_merge s commit1 commit2 then (Ok (commit1, commit2, retry), t)
  else
    match budget with
    | O => (Ok (commit1, commit2, retry), t)
    | S budget' =>
        match draw_pair t pop with
        | (Ok (commit1, commit2), t) =>
            redraw budget' s t pop commit1 commit2 (S retry)
        | (Raise e, t) => (Raise e, t)
        end
    end.

(** One call of [api.git_crossover] by the population loop: the two
    parents, the value of [retry] at the call, and what [fast_forwardness]
    answers for the pair, in both directions, on the repository of that
    moment. *)
Record crossover_call := {
  parent1 : string;
  parent2 : string;
  retry_at_call : nat;
  first_is_ancestor : bool;
  second_is_ancestor : bool;
}.

(** The call is made on a novel pair, or with the retries used up. *)
Definition guarded (config : EvoGitConfig) (call : crossover_call) : Prop :=
  (first_is_ancestor call = false /\ second_is_ancestor call = false) \/
  max_merge_retry config <= retry_at_call call.

(** The state of the population loop; [calls] is the record of the calls
    of [api.git_crossover] made so far (the code has no such record). *)
Record population_loop `{GitEngine} `{PyRandom} `{TorchRandom} := {
  cross : crossing;
  torch : trng;
  retry : nat;
  offspring : list string;
  calls : list crossover_call;
}.

(** How the population loop ends: it runs through, it raises, or a rebase
    inside it has not ended. *)
Inductive ending :=
| Finished
| Raised (e : exn)
| Unfinished.

(** The [for] loop of [evogit_git_crossover], [n] passes to go. *)
Fixpoint crossover_passes `{GitEngine} `{PyRandom} `{TorchRandom} (steps : nat)
    (config : EvoGitConfig) (pop : list string) (n : nat) (st : population_loop)
  : population_loop * ending :=
  match n with
  | O => (st, Finished)
  | S n' =>
      match draw_pair (torch st) pop with
      | (Raise e, t) => (st, Raised e)
      | (Ok (commit1, commit2), t) =>
          match redraw (max_merge_retry config - retry st) (git (cross st)) t pop
                       commit1 commit2 (retry st) with
          | (Raise e, t) => (st, Raised e)
          | (Ok (commit1, commit2, retry), t) =>
              let (seed, g) := rng_randint (gen (cross st)) 0 (Z.shiftl 2 31) in
              let c := {| git := git (cross st); gen := g;
                          drawn := drawn (cross st) |} in
              let call := {| parent1 := commit1; parent2 := commit2;
                             retry_at_call := retry;
                             first_is_ancestor :=
                               fast_forwardness (git c) commit1 commit2;
                             second_is_ancestor :=
                               fast_forwardness (git c) commit2 commit1 |} in
              match git_crossover steps config seed commit1 commit2 c with
              | Some (Ok (c, new_commit)) =>
                  crossover_passes steps config pop n'
                    {| cross := c; torch := t; retry := retry;
                       offspring := (offspring st ++ [new_commit])%list;
                       calls := (calls st ++ [call])%list |}
              | Some (Raise e) =>
                  ({| cross := c; torch := t; retry := retry;
                      offspring := offspring st;
                      calls := (calls st ++ [call])%list |}, Raised e)
              | None =>
                  ({| cross := c; torch := t; retry := retry;
                      offspring := offspring st;
                      calls := (calls st ++ [call])%list |}, Unfinished)
              end
          end
      end
  end.

(** [evogit_git_crossover(config, pop)], up to the stacking of the
    offspring. *)
Definition evogit_git_crossover `{GitEngine} `{PyRandom} `{TorchRandom}
    (steps : nat) (config : EvoGitConfig) (pop : list string)
    (s : gstate) (g : rng) (t : trng) : population_loop * ending :=
  crossover_passes steps config pop (length pop)
    {| cross := {| git := s; gen := g; drawn := [] |};
       torch := t; retry := 0; offspring := []; calls := [] |}.

(* ===================================================================== *)
(** * api.py: constrained mutation *)
(* ===================================================================== *)

Definition text_file_extensions : list string :=
  ["js"; "jsx"; "ts"; "tsx"; "py"; "html"; "css"; "scss"; "md"].

Definition blacklist : list string :=
  ["README.md"; "LICENSE"; "LICENSE.txt"; "LICENSE.md"; "CONTRIBUTING.md";
   "CONTRIBUTING.txt"; "CONTRIBUTING"; "package.json"; "package-lock.json"].

(** [x in l] on a list of strings *)
Definition in_list (x : string) (l : list string) : bool :=
  existsb (String.eqb x) l.

(** [list_files]: [git ls-tree -r --name-only commit], one path a line, in
    the order git lists them. *)
Definition list_files (r : repo) (commit : string) : result string :=
  match objects r !! commit with
  | None => Raise CalledProcessError
  | Some o =>
      Ok (String.concat EmptyString
            (map (fun path => path +:+ newline) (map fst (map_to_list (tree o)))))
  end.

(** [file.split(".")[-1]] *)
Definition extension (file : string) : string :=
  List.last (split_char "." file) EmptyString.

(** The files [_gather_info] may pick from. *)
Definition eligible_files (file_list : string) : list string :=
  let files :=
    List.filter (fun file => negb (String.eqb file EmptyString))
                (split_char nl file_list) in
  let text_files :=
    List.filter (fun file => in_list (extension file) text_file_extensions) files in
  List.filter (fun file => negb (in_list file blacklist)) text_files.

(** [_generate_random_section(n_lines)] *)
Definition _generate_random_section `{PyRandom} (g : rng) (n_lines : nat)
  : nat * nat * rng :=
  let (random_length, g) := rng_randint g 64 128 in
  let random_length :=
    if (Z.of_nat n_lines <? random_length)%Z then Z.of_nat n_lines
    else random_length in
  let (random_start, g) := rng_randint g 0 (Z.of_nat n_lines - random_length) in
  let random_end := (random_start + random_length)%Z in
  (Z.to_nat random_start, Z.to_nat random_end, g).

(** One entry of the list [_gather_info] returns. *)
Record info := {
  info_commit : string;
  info_worktree : worktree;
  file_list : string;
  random_file : string;
  info_code : list string;
  random_section_start : nat;
  random_section_end : nat;
  n_lines : nat;
}.

(** The loop of [_gather_info].  [random.choice] raises [IndexError] on an
    empty list; nothing in the loop catches it. *)
Fixpoint gather_loop `{PyRandom} (r : repo) (g : rng)
    (todo : list (string * worktree)) (infos : list info)
  : result (list info) * rng :=
  match todo with
  | [] => (Ok infos, g)
  | (commit, worktree) :: todo' =>
      match list_files r commit with
      | Raise e => (Raise e, g)
      | Ok file_list =>
          let text_files := eligible_files file_list in
          match text_files with
          | [] => (Raise IndexError, g)
          | _ :: _ =>
              let (i, g) := rng_index g (length text_files) in
              match text_files !! i with
              | None => (Raise IndexError, g)
              | Some random_file =>
                  match wt_files worktree !! random_file with
                  | None => (Raise FileNotFoundError, g)
                  | Some text =>
                      let code := split_char nl text in
                      let n_lines := length code in
                      let '(random_section_start, random_section_end, g) :=
                        _generate_random_section g n_lines in
                      gather_loop r g todo'
                        (infos ++
                         [{| info_commit := commit; info_worktree := worktree;
                             file_list := file_list; random_file := random_file;
                             info_code := code;
                             random_section_start := random_section_start;
                             random_section_end := random_section_end;
                             n_lines := n_lines |}])%list
                  end
              end
          end
      end
  end.

(** [_gather_info(config, commits)] *)
Definition _gather_info `{PyRandom} (r : repo) (g : rng) (commits : list string)
  : result (list info) * rng :=
  match prepare_temp_worktrees r commits with
  | Raise e => (Raise e, g)
  | Ok worktrees => gather_loop r g (zip commits worktrees) []
  end.

(** The language model behind [llm_backend.query(seeds, prompts)]. *)
Class LLMBackend := { query : list Z -> list string -> result (list string) }.

(** The prompt of one individual: the code with the two edit markers, cut
    to 200 lines around the section, and the note of the commit. *)
Definition mutation_prompt (config : EvoGitConfig) (r : repo) (i : info) : string :=
  let prompt_code := insert_at (random_section_end i) "<|END_EDIT|>" (info_code i) in
  let prompt_code := insert_at (random_section_start i) "<|EDIT|>" prompt_code in
  let prompt_code :=
    slice (random_section_start i - 200)
          (Nat.min (random_section_end i + 202) (length prompt_code)) prompt_code in
  let prompt_code := join newline prompt_code in
  let lint_output := read_note r (info_commit i) in
  prompt_constructor config (file_list i) (random_file i) prompt_code lint_output.

(** [edited_code[start:end] = [code_change]], joined. *)
Definition edited_code (i : info) (code_change : string) : string :=
  join newline
    (take (random_section_start i) (info_code i)
     ++ code_change :: drop (random_section_end i) (info_code i))%list.

(** [add_file_in_worktree]: an existing file is left alone; the path is
    staged either way. *)
Definition add_file_in_worktree (w : worktree) (text path : string) : worktree :=
  git_add (match wt_files w !! path with
           | Some _ => w
           | None => write_file w path text
           end) path.

(** [commit_changes_in_worktree]: nothing staged, nothing done; a commit
    that git refuses three times is given up with warnings. *)
Definition commit_changes_in_worktree `{GitHash} (r : repo) (w : worktree)
    (msg : string) : repo * worktree :=
  if negb (staged_changes r w) then (r, w)
  else
    match git_commit r w (sanitize_message msg) with
    | Some rw => rw
    | None => (r, w)
    end.

(** The third loop of [llm_constrained_mutation]. *)
Fixpoint commit_all `{GitHash} (config : EvoGitConfig) (r : repo)
    (todo : list (worktree * string)) : repo * list string :=
  match todo with
  | [] => (r, [])
  | (w, commit_message) :: todo' =>
      let (r, w) :=
        commit_changes_in_worktree r w (llm_name config +:+ ": " +:+ commit_message) in
      let (r, ids) := commit_all config r todo' in
      (r, wt_head w :: ids)
  end.

(** [llm_constrained_mutation(config, llm_backend, seeds, commits)].  The
    seeds go to the backend and nowhere else. *)
Definition llm_constrained_mutation `{GitHash} `{PyRandom} `{LLMBackend}
    (config : EvoGitConfig) (r : repo) (g : rng) (seeds : list Z)
    (commits : list string) : repo * rng * result (list string) :=
  match _gather_info r g commits with
  | (Raise e, g) => (r, g, Raise e)
  | (Ok infos, g) =>
      let prompts := map (mutation_prompt config r) infos in
      match (responses ← query seeds prompts;
             responses ← mapM (respond_extractor config) responses;
             worktrees ←
               mapM (fun ir : info * response =>
                       update_file_in_worktree config (info_worktree (fst ir))
                         (Str (edited_code (fst ir) (code (snd ir))))
                         (Some (random_file (fst ir))))
                    (zip infos responses);
             Ok (responses, worktrees)) with
      | Raise e => (r, g, Raise e)
      | Ok (responses, worktrees) =>
          let worktrees :=
            map (fun wr : worktree * response =>
                   if String.eqb (lower (response_filename (snd wr))) "none"
                   then fst wr
                   else add_file_in_worktree (fst wr) (new_file_content (snd wr))
                          (response_filename (snd wr)))
                (zip worktrees responses) in
          let (r, edited_codes) :=
            commit_all config r (zip worktrees (map commit_message responses)) in
          (r, g, Ok edited_codes)
      end
  end.

(* --------------------------------------------------------------------- *)
(** ** Examples for mutation and crossover *)

Module DemoMutation.

(** A commit with two source files and a commit with nothing but a
    README. *)
Definition two_files : commit_obj :=
  {| parents := [];
     tree := {[ "app.py" := "x = 1"; "util.py" := "y = 2" ]};
     message := "two" |}.

Definition readme_only : commit_obj :=
  {| parents := []; tree := {[ "README.md" := "hello" ]}; message := "docs" |}.

Definition store : repo :=
  {| objects := {[ "c1" := two_files; "d1" := readme_only ]};
     top := Demo.clean "c1" two_files;
     branches := []; remote_branches := []; tags := [];
     notes := ∅; other_notes := [] |}.

(** A backend that answers every prompt with the same new line. *)
Definition constant_backend : LLMBackend :=
  {| query := fun seeds prompts => Ok (map (fun _ => "x = 2") prompts) |}.

End DemoMutation.

Module DemoCrossover.

(** The repository [Demo.repo0], with its single commit [a1], as a git
    engine: the one commit is its own ancestor, and merging it or rebasing
    it onto itself changes nothing and leaves no conflict.  The state is
    the working files. *)
Definition single_commit : GitEngine :=
  {| gstate := gmap string string;
     checkout_in := fun s commit =>
       if String.eqb commit "a1" then Ok (tree Demo.seed_commit)
       else Raise CalledProcessError;
     merge_branches := fun s _ => s;
     rebase_branches := fun s _ => s;
     has_conflict := fun _ => false;
     list_conflict_files := fun _ => [];
     read_in := fun s path =>
       match s !! path with Some t => Ok t | None => Raise FileNotFoundError end;
     write_add := fun s path text => Ok (<[path := text]> s);
     continue_merge := fun _ => Raise CalledProcessError;
     continue_rebase := fun s => s;
     head_in := fun _ => "a1";
     is_ancestor := fun _ a b => String.eqb a "a1" && String.eqb b "a1" |}.

(** A generator for torch, of the same make as [ToyRandom]. *)
Definition toy_torch : TorchRandom :=
  {| trng := Z;
     torch_randint := ToyRandom.index;
     torch_randint_range := ToyRandom.index_range |}.

(** The population loop on a population of that one commit, with one
    redraw allowed ([Demo.config]). *)
Definition run : population_loop * ending :=
  @evogit_git_crossover single_commit toy_random toy_torch 5 Demo.config ["a1"]
    (tree Demo.seed_commit) 0%Z 0%Z.

End DemoCrossover.

(** What is left of the answer of [_gather_info] when the checkouts are
    put aside: the file and the section chosen for each commit. *)
Definition selection (x : result (list info)) : result (list (string * nat * nat)) :=
  infos ← x;
  Ok (map (fun i => (random_file i, random_section_start i, random_section_end i))
          infos).

(* ===================================================================== *)
(** * utils/llm.py: the TGI backend *)
(* ===================================================================== *)

(** The chat client: what the k-th call of [client.complete] for a query
    answers, [None] when the call raises. *)
Class ChatClient := { complete : string -> nat -> option string }.

(** The [for retry in range(self.num_retry)] loop, from attempt [k] on. *)
Fixpoint request_loop `{ChatClient} (left : nat) (k : nat) (q : string)
  : result string :=
  match left with
  | O => Raise BackendError
  | S left' =>
      match complete q k with
      | Some content => Ok content
      | None => request_loop left' (S k) q
      end
  end.

Definition num_retry : nat := Z.to_nat 100000.

(** [TGIBackend._one_restful_request] *)
Definition _one_restful_request `{ChatClient} (args : Z * string) : result string :=
  let (seed, q) := args in
  let q :=
    if (400000 <? Z.of_nat (String.length q))%Z
    then String.substring 0 (Z.to_nat 400000) q else q in
  request_loop num_retry 0 q.

(** [TGIBackend.query].  The responses are unzipped into [contents] and
    [usages]: with queries but no seed there is no response, and the
    unpacking of nothing into two names raises [ValueError]. *)
Definition tgi_backend `{ChatClient} : LLMBackend :=
  {| query := fun seeds queries =>
       match queries with
       | [] => Ok []
       | _ :: _ =>
           responses ← mapM _one_restful_request (zip seeds queries);
           match responses with
           | [] => Raise ValueError
           | _ :: _ => Ok responses
           end
       end |}.

(** The record [evaluate_code] builds from a run that completed or timed
    out, and the pair decoded from it. *)
Definition record_of (x : completed) : json :=
  match x with
  | Completed stdout stderr => make_output stdout stderr false
  | _ => make_output EmptyString EmptyString true
  end.

Definition cost_of `{PyJson} (x : completed) : json * json :=
  match decode_result (record_of x) illegal_cost with
  | Ok p => p
  | Raise _ => (illegal_cost, illegal_cost)
  end.

(** The run ended the way [evaluate_code] provides for. *)
Definition ran (x : completed) : bool :=
  match x with
  | Completed _ _ | TimeoutExpired => true
  | Undecodable | Failed _ => false
  end.

(* ===================================================================== *)
(** * scripts/vector_merge_driver: the numeric merge drivers *)
(* ===================================================================== *)

(** A vector is a list of rationals: the arithmetic of the drivers is
    taken exactly.  [uniform k n] is the k-th call of
    [rng.uniform(0, 1, shape)] on a shape of [n] items. *)

Definition vsub (u v : list Q) : list Q := zip_with Qminus u v.
Definition vadd (u v : list Q) : list Q := zip_with Qplus u v.
Definition vmul (u v : list Q) : list Q := zip_with Qmult u v.

(** [x != 0] *)
Definition nonzero (x : Q) : bool := negb (Qeq_bool x 0).

(** [v[mask]] *)
Fixpoint select (mask : list bool) (v : list Q) : list Q :=
  match mask, v with
  | true :: mask', x :: v' => x :: select mask' v'
  | false :: mask', _ :: v' => select mask' v'
  | _, _ => []
  end.

(** [v[mask] = values] *)
Fixpoint assign (v : list Q) (mask : list bool) (values : list Q) : list Q :=
  match v, mask with
  | x :: v', true :: mask' =>
      match values with
      | y :: values' => y :: assign v' mask' values'
      | [] => x :: assign v' mask' []
      end
  | x :: v', false :: mask' => x :: assign v' mask' values
  | _, _ => v
  end.

(** [assert ancestor_vec.shape == parent1_vec.shape == parent2_vec.shape] *)
Definition same_shape (ancestor parent1 parent2 : list Q) : bool :=
  (length ancestor =? length parent1)%nat && (length parent1 =? length parent2)%nat.

(** The driver of [vector_merge_driver2.py]: what it saves over the file of
    the first parent. *)
Definition vector_merge_driver2 (uniform : nat -> nat -> list Q)
    (ancestor_vec parent1_vec parent2_vec : list Q) : result (list Q) :=
  if negb (same_shape ancestor_vec parent1_vec parent2_vec) then Raise AssertionError
  else
    let delta1 := vsub parent1_vec ancestor_vec in
    let delta2 := vsub parent2_vec ancestor_vec in
    let child_vec := vadd (vadd ancestor_vec delta1) delta2 in
    let conflict := zip_with (fun d1 d2 => nonzero d1 && nonzero d2) delta1 delta2 in
    let conflict_vec1 := select conflict delta1 in
    let conflict_vec2 := select conflict delta2 in
    let factor := uniform 0 (length conflict_vec1) in
    let conflict_resolved :=
      vadd (vmul conflict_vec1 factor)
           (vmul conflict_vec2 (map (fun f => (1 - f)%Q) factor)) in
    Ok (assign child_vec conflict conflict_resolved).

(** The driver of [vector_merge_driver1.py]. *)
Definition vector_merge_driver1 (uniform : nat -> nat -> list Q)
    (ancestor_vec parent1_vec parent2_vec : list Q) : result (list Q) :=
  if negb (same_shape ancestor_vec parent1_vec parent2_vec) then Raise AssertionError
  else
    let delta1 := vsub parent1_vec ancestor_vec in
    let delta2 := vsub parent2_vec ancestor_vec in
    let factor1 := uniform 0 (length delta1) in
    let factor2 := uniform 1 (length delta2) in
    Ok (vadd (vadd ancestor_vec (vmul factor1 delta1)) (vmul factor2 delta2)).

(** [x] lies in the closed interval with the endpoints [u] and [v]. *)
Definition between (u v x : Q) : Prop :=
  ((u <= x)%Q /\ (x <= v)%Q) \/ ((v <= x)%Q /\ (x <= u)%Q).

(** A generator whose every draw is one half. *)
Definition halves : nat -> nat -> list Q := fun _ n => repeat (1 # 2) n.

(** The second driver with the factors as an argument. *)
Definition blend2 (ancestor_vec parent1_vec parent2_vec factor : list Q) : list Q :=
  let delta1 := vsub parent1_vec ancestor_vec in
  let delta2 := vsub parent2_vec ancestor_vec in
  let conflict := zip_with (fun d1 d2 => nonzero d1 && nonzero d2) delta1 delta2 in
  assign (vadd (vadd ancestor_vec delta1) delta2) conflict
    (vadd (vmul (select conflict delta1) factor)
          (vmul (select conflict delta2) (map (fun f => (1 - f)%Q) factor))).

(** The number of conflicting coordinates. *)
Definition conflicts (ancestor_vec parent1_vec parent2_vec : list Q) : nat :=
  let delta1 := vsub parent1_vec ancestor_vec in
  let delta2 := vsub parent2_vec ancestor_vec in
  length (select (zip_with (fun d1 d2 => nonzero d1 && nonzero d2) delta1 delta2)
                 delta1).

(** What the second driver computes, coordinate by coordinate: without a
    conflict the ancestor plus both deltas; with a conflict the blend of the
    two deltas by the next factor, and no ancestor in it. *)
Inductive blended2 : list Q -> list Q -> list Q -> list Q -> list Q -> Prop :=
| blended2_nil : blended2 [] [] [] [] []
| blended2_plain a p1 p2 ancestor parent1 parent2 factor child :
    nonzero (p1 - a) && nonzero (p2 - a) = false ->
    blended2 ancestor parent1 parent2 factor child ->
    blended2 (a :: ancestor) (p1 :: parent1) (p2 :: parent2) factor
             ((a + (p1 - a) + (p2 - a))%Q :: child)
| blended2_conflict a p1 p2 f ancestor parent1 parent2 factor child :
    nonzero (p1 - a) && nonzero (p2 - a) = true ->
    blended2 ancestor parent1 parent2 factor child ->
    blended2 (a :: ancestor) (p1 :: parent1) (p2 :: parent2) (f :: factor)
             (((p1 - a) * f + (p2 - a) * (1 - f))%Q :: child).

Module DemoBatch.

(** An evaluation command that runs into the timeout on [c1] and prints a
    finished record elsewhere. *)
Definition mixed : EvalCommand :=
  {| run_eval := fun commit =>
       if String.eqb commit "c1" then TimeoutExpired
       else @run_eval Demo.finishing commit |}.

(** A chat client whose first two calls fail. *)
Definition flaky : ChatClient :=
  {| complete := fun q k => if (k <? 2)%nat then None else Some q |}.

End DemoBatch.

(* ===================================================================== *)
(** * evox_extension.py: commit ids as byte arrays *)
(* ===================================================================== *)

(** An individual is the commit id as a tensor of bytes; [array_to_hex] and
    [hex_to_array] go between the tensor and the hexadecimal text. *)

(** The hexadecimal digit of a value below 16, lower case. *)
Definition hex_digit (d : N) : ascii :=
  if (d <? 10)%N then ascii_of_N (48 + d) else ascii_of_N (87 + d).

(** The value of a hexadecimal digit, of either case. *)
Definition digit_value (c : ascii) : option N :=
  let n := N_of_ascii c in
  if ((48 <=? n) && (n <=? 57))%N then Some (n - 48)%N
  else if ((97 <=? n) && (n <=? 102))%N then Some (n - 87)%N
  else if ((65 <=? n) && (n <=? 70))%N then Some (n - 55)%N
  else None.

(** [array.numpy().tobytes().hex()]: two digits for each byte. *)
Fixpoint array_to_hex (array : list Byte.byte) : string :=
  match array with
  | [] => EmptyString
  | b :: array' =>
      String (hex_digit (Byte.to_N b / 16)) (String (hex_digit (Byte.to_N b mod 16))
        (array_to_hex array'))
  end.

(** The white space [bytearray.fromhex] passes over between two bytes. *)
Definition hex_space (c : ascii) : bool :=
  let n := N_of_ascii c in
  ((n =? 32) || (n =? 9) || (n =? 10) || (n =? 11) || (n =? 12) || (n =? 13))%N.

(** [bytearray.fromhex(hex_string)]: white space is passed over before a
    byte, then two digits follow each other; anything else is a
    [ValueError]. *)
Fixpoint fromhex (hex_string : string) : result (list Byte.byte) :=
  match hex_string with
  | EmptyString => Ok []
  | String c r =>
      if hex_space c then fromhex r
      else
        match digit_value c, r with
        | Some hi, String c' r' =>
            match digit_value c' with
            | Some lo =>
                match Byte.of_N (hi * 16 + lo) with
                | Some b =>
                    array ← fromhex r';
                    Ok (b :: array)
                | None => Raise ValueError
                end
            | None => Raise ValueError
            end
        | _, _ => Raise ValueError
        end
  end.

(** [torch.frombuffer(bytearray.fromhex(hex_string), dtype=torch.uint8)];
    [torch.frombuffer] refuses a buffer of length 0 with a [ValueError]. *)
Definition hex_to_array (hex_string : string) : result (list Byte.byte) :=
  buffer ← fromhex hex_string;
  match buffer with
  | [] => Raise ValueError
  | _ :: _ => Ok buffer
  end.

(* ===================================================================== *)
(** * utils/git.py: commit messages *)
(* ===================================================================== *)

(** Every character of [s] satisfies [p]. *)
Fixpoint all_chars (p : ascii -> bool) (s : string) : bool :=
  match s with
  | EmptyString => true
  | String c r => p c && all_chars p r
  end.

(* ===================================================================== *)
(** * api.py: what [_gather_info] hands to the mutation *)
(* ===================================================================== *)

(** An entry as [_gather_info] builds it in repository [r]: the checkout is
    the one of its commit, the file is one of the listed files, a text
    file and none of the protected ones, the code is that file in lines,
    and the section is a non-empty range of these lines. *)
Definition gathered (r : repo) (i : info) : Prop :=
  add_temp_worktree r (info_commit i) = Ok (info_worktree i) /\
  list_files r (info_commit i) = Ok (file_list i) /\
  In (random_file i) (split_char nl (file_list i)) /\
  in_list (extension (random_file i)) text_file_extensions = true /\
  in_list (random_file i) blacklist = false /\
  (exists text,
      wt_files (info_worktree i) !! random_file i = Some text /\
      info_code i = split_char nl text) /\
  n_lines i = length (info_code i) /\
  random_section_start i < random_section_end i <= n_lines i.

(** The answer that leaves an entry as it is: the lines of the section,
    and no new file. *)
Definition echoes (i : info) (answer : response) : Prop :=
  code answer =
    join newline
      (slice (random_section_start i) (random_section_end i) (info_code i)) /\
  lower (response_filename answer) = "none".

Module DemoSection.

(** Three lines, the second one marked for the edit. *)
Definition three_lines : info :=
  {| info_commit := "a1"; info_worktree := Demo.clean "a1" Demo.seed_commit;
     file_list := "main.py"; random_file := "main.py";
     info_code := ["a = 1"; "b = 2"; "c = 3"];
     random_section_start := 1; random_section_end := 2; n_lines := 3 |}.

Definition three_lines_text : string :=
  "a = 1" +:+ newline +:+ "b = 2" +:+ newline +:+ "c = 3".

(** A backend that answers every prompt with the only line of the seed
    commit's file. *)
Definition echo_backend : LLMBackend :=
  {| query := fun seeds prompts => Ok (map (fun _ => "value=0") prompts) |}.

End DemoSection.

(* ===================================================================== *)
(** * api.py: migration *)
(* ===================================================================== *)

(** The tags [migrate_from_human_tags] takes:
    [[tag for tag in all_tags if tag.startswith("human")][:migrate_count]] *)
Definition taken_tags (r : repo) (migrate_count : nat) : list string :=
  take migrate_count (filter (fun tag => startswith tag "human") (list_tags r)).

(** A commit that may come back from [migrate_from_other_hosts]: the head
    of a fetched branch with a usual name that does not hold the name of
    this host. *)
Definition from_other_host (config : EvoGitConfig) (r : repo) (commit : string)
  : Prop :=
  exists branch,
    branch ∈ list_remote_branches r /\
    contains (default "host0" (hostname config)) branch = false /\
    get_commit_by_branch r branch = Ok commit.

Module DemoNotes.

(** [DemoMigration.fetched] where the commit [b2] of [host1] has no note
    of this host: the note [host1] wrote for it has been fetched, under
    the namespace [host1-commits]. *)
Definition noted_elsewhere : repo :=
  {| objects := objects DemoMigration.fetched;
     top := top DemoMigration.fetched;
     branches := branches DemoMigration.fetched;
     remote_branches := remote_branches DemoMigration.fetched;
     tags := [];
     notes := ∅;
     other_notes := [("host1-commits", {[ "b2" := Demo.dumped_note ]})] |}.

End DemoNotes.

(* ===================================================================== *)
(** * evox_extension.py: the evaluation batch *)
(* ===================================================================== *)

(** The individuals of a batch that [evaluate] runs from scratch: each is
    a commit of the repository, has no note to reuse (or re-evaluation is
    forced), and its evaluation command completes or times out. *)
Definition runs_all `{EvalCommand} (config : EvoGitConfig) (r : repo)
    (pop : list string) : Prop :=
  forall c, c ∈ pop ->
    is_Some (objects r !! c) /\
    (reevaluate config = true \/ read_note r c = None) /\
    ran (run_eval c) = true.

(* ===================================================================== *)
(** * Examples for merging, and the query a request sends *)
(* ===================================================================== *)

Module DemoMerge.

(** The file with two conflicts, as a merge leaves it. *)
Definition text : string := render DemoConflict.blocks DemoConflict.tail.

(** The working files of the engine [DemoCrossover.single_commit] with
    that text in [main.py]. *)
Definition two_conflicts : gmap string string := {[ "main.py" := text ]}.

(** The same with the file of one conflict whose ours part is underlined,
    and with the one whose ours part has the comment. *)
Definition one_underlined : gmap string string :=
  {[ "main.py" := render DemoConflict.underlined EmptyString ]}.

Definition one_commented : gmap string string :=
  {[ "main.py" := render DemoConflict.commented EmptyString ]}.

(** A crossover under way on the engine [DemoCrossover.single_commit]:
    [main.py] holds that text. *)
Definition conflicted : @crossing DemoCrossover.single_commit toy_random :=
  @Build_crossing DemoCrossover.single_commit toy_random
    ({[ "main.py" := text ]} : gmap string string) 0%Z [].

End DemoMerge.

(** The query [_one_restful_request] sends: the first 400,000 characters. *)
Definition sent_query (q : string) : string :=
  if (400000 <? Z.of_nat (String.length q))%Z
  then String.substring 0 (Z.to_nat 400000) q else q.

(* ===================================================================== *)
(** * api.py: the branches that track the population *)
(* ===================================================================== *)

Definition set_branches (r : repo) (b : list (string * string)) : repo :=
  {| objects := objects r; top := top r; branches := b;
     remote_branches := remote_branches r; tags := tags r;
     notes := notes r; other_notes := other_notes r |}.

(** Whether git takes a name for a branch of the repository: the name is
    well formed ([git check-ref-format]) and stands in the way of no other
    reference. *)
Class GitRefs := { valid_branch_name : repo -> string -> bool }.

(** [f"{hostname}-individual-{index}"] *)
Definition branch_name (hostname : string) (index : nat) : string :=
  hostname +:+ "-individual-" +:+ pretty index.

(** A new branch goes where [git branch] lists it, in the order of the
    bytes of the names. *)
Fixpoint list_branch (name commit : string) (l : list (string * string))
  : list (string * string) :=
  match l with
  | [] => [(name, commit)]
  | (n, c) :: l' =>
      if String.ltb name n then (name, commit) :: (n, c) :: l'
      else (n, c) :: list_branch name commit l'
  end.

(** The local branches with [name] set to [commit]: a branch of that name
    is moved, and keeps its place; otherwise the branch is new. *)
Definition track (name commit : string) (l : list (string * string))
  : list (string * string) :=
  match assoc name l with
  | Some _ =>
      map (fun nc => if String.eqb (fst nc) name then (name, commit) else nc) l
  | None => list_branch name commit l
  end.

(** [git branch -f name commit], and whether it exited with 0: the name is
    to be a branch name and the commit an object of the repository.  (No
    checkout of the engine is on a branch: they are all detached.) *)
Definition git_branch_f `{GitRefs} (r : repo) (name commit : string)
  : repo * bool :=
  if valid_branch_name r name && bool_decide (is_Some (objects r !! commit))
  then (set_branches r (track name commit (branches r)), true)
  else (r, false).

(** The processes of [branches_track_commits], each on its own name, and
    their return codes. *)
Fixpoint start_branches `{GitRefs} (r : repo) (todo : list (string * string))
  : repo * list bool :=
  match todo with
  | [] => (r, [])
  | (branch_name, commit) :: todo' =>
      let (r, code) := git_branch_f r branch_name commit in
      let (r, codes) := start_branches r todo' in
      (r, code :: codes)
  end.

(** [branches_track_commits]: every process is started, then every return
    code is asserted to be 0. *)
Definition branches_track_commits `{GitRefs} (r : repo)
    (branch_names commits : list string) : repo * result unit :=
  let (r, codes) := start_branches r (zip branch_names commits) in
  (r, if forallb (fun code => code) codes then Ok tt else Raise AssertionError).

(** [update_branches(config, pop)] of [api.py] *)
Definition update_branches `{GitRefs} (config : EvoGitConfig) (r : repo)
    (pop : list string) : repo * result unit :=
  let hostname := default "host0" (hostname config) in
  let branch_names := imap (fun index _commit => branch_name hostname index) pop in
  branches_track_commits r branch_names pop.

(** [list_branches(config)]: the names [git branch] prints, the ones the
    evolution uses. *)
Definition list_local_branches (r : repo) : list string :=
  filter (fun b => is_normal_branch b) (map fst (branches r)).

(** [get_commit_by_branch] on a name that [git rev-parse] looks up among
    the tags and then among the local branches. *)
Definition get_commit_by_local_branch (r : repo) (branch : string)
  : result string :=
  match assoc branch (tags r) with
  | Some c => Ok c
  | None =>
      match assoc branch (branches r) with
      | Some c => Ok c
      | None => Raise CalledProcessError
      end
  end.

(** [get_initial_branches(config, pop_size)]; [clean_start] is
    [config.clean_start]. *)
Definition get_initial_branches (clean_start : bool) (r : repo) (pop_size : nat)
  : result (list string) :=
  if clean_start then
    main_commit_id ← get_commit_by_local_branch r "main";
    Ok (repeat main_commit_id pop_size)
  else
    let branches := list_local_branches r in
    pop ← mapM (get_commit_by_local_branch r) (take pop_size branches);
    pop ←
      (if (length pop <? pop_size)%nat then
         let remote_branches := list_remote_branches r in
         remote_pop ←
           mapM (get_commit_by_branch r)
                (take (pop_size - length pop) remote_branches);
         Ok (pop ++ remote_pop)%list
       else Ok pop);
    Ok (pop ++ repeat (read_head_commit r) (pop_size - length pop))%list.

Module DemoBranches.

(** Every name is accepted. *)
Definition any_name : GitRefs := {| valid_branch_name := fun _ _ => true |}.

(** A host whose name holds the word [main]. *)
Definition domain_config : EvoGitConfig :=
  {| migrate_every := 1; human_every := 1; migrate_count := 1;
     llm_name := "tgi"; filename := "main.py";
     merge_prob := 1 # 2; accept_ours_prob := 1 # 2;
     reevaluate := false; max_merge_retry := 1;
     hostname := Some "domain-7";
     prompt_constructor := prompt_constructor Demo.config;
     respond_extractor := respond_extractor Demo.config |}.

End DemoBranches.

(* ===================================================================== *)
(** * api.py: comparing two generations *)
(* ===================================================================== *)

(** [diff_view]: the text [git diff --no-color --unified=8 commit1 commit2]
    prints, [check=True]. *)
Class DiffView := { diff_view : repo -> string -> string -> result string }.

(** [_construct_diff_comp_prompt]; the constructor is
    [config.diff_prompt_constructor]. *)
Definition _construct_diff_comp_prompt `{DiffView}
    (diff_prompt_constructor :
       string -> string -> option string -> option string -> string)
    (r : repo) (prev_commit new_commit : string) : result string :=
  diff ← diff_view r prev_commit new_commit;
  prev_file_list ← list_files r prev_commit;
  let prev_info := read_note r prev_commit in
  let new_info := read_note r new_commit in
  Ok (diff_prompt_constructor prev_file_list diff prev_info new_info).

(** What the answer of the model counts for: [good] is looked for first,
    and an answer with neither word is taken as [bad]. *)
Definition verdict (response : string) : bool :=
  if contains "good" (lower response) then true
  else if contains "bad" (lower response) then false
  else false.

(** The pairs to compare, with their index: the ones whose two commits
    differ. *)
Definition need_compare (prev_commits new_commits : list string)
  : list (nat * (string * string)) :=
  filter (fun ipn => negb (String.eqb (fst (snd ipn)) (snd (snd ipn))))
         (imap (fun i pn => (i, pn)) (zip prev_commits new_commits)).

(** The last loop of [llm_diff_compare]: [result[idx] = ...] for each
    index that has a response. *)
Definition record_verdicts (result : list bool) (answers : list (nat * string))
  : list bool :=
  fold_left (fun result answer => <[fst answer := verdict (snd answer)]> result)
            answers result.

(** [llm_diff_compare(config, llm_backend, seeds, prev_commits, new_commits)] *)
Definition llm_diff_compare `{DiffView} `{LLMBackend}
    (diff_prompt_constructor :
       string -> string -> option string -> option string -> string)
    (r : repo) (seeds : list Z) (prev_commits new_commits : list string)
  : result (list bool) :=
  if negb (length prev_commits =? length new_commits)%nat then Raise AssertionError
  else
    let need := need_compare prev_commits new_commits in
    prompts ←
      mapM (fun ipn =>
              _construct_diff_comp_prompt diff_prompt_constructor r
                (fst (snd ipn)) (snd (snd ipn)))
           need;
    responses ← query seeds prompts;
    Ok (record_verdicts (repeat true (length prev_commits))
          (zip (map fst need) responses)).

Module DemoDiff.

(** A diff that only names the two commits. *)
Definition names_only : DiffView :=
  {| diff_view := fun r commit1 commit2 => Ok (commit1 +:+ ".." +:+ commit2) |}.

(** The prompt is the diff. *)
Definition diff_only (prev_file_list diff : string)
    (prev_info new_info : option string) : string := diff.

End DemoDiff.

(* ===================================================================== *)
(** * Properties of [decode_result] *)
(* ===================================================================== *)

Section DecodeResult.
Context `{PyJson}.

Lemma decode_result_timeout output illegal_value :
  getitem output "timeout" = Ok (JBool true) ->
  decode_result output illegal_value = Ok (illegal_value, illegal_value).
Proof. intros Ht. unfold decode_result. rewrite Ht. reflexivity. Qed.

(** Once the timeout field is there, no exception leaves the function. *)
Lemma decode_result_total output illegal_value t :
  getitem output "timeout" = Ok t ->
  exists r, decode_result output illegal_value = Ok r.
Proof.
  intros Ht. unfold decode_result. rewrite Ht. simpl.
  destruct (is_True t); [eauto|].
  destruct (decode_stdout output illegal_value) as [r|[]]; eauto.
Qed.

(** A dict without a timeout field raises: the lookup is outside the try. *)
Lemma decode_result_needs_timeout d illegal_value :
  dict_get d "timeout" = None ->
  decode_result (JDict d) illegal_value = Raise KeyError.
Proof. intros Hd. unfold decode_result. simpl. rewrite Hd. reflexivity. Qed.

Lemma decode_stdout_finished output illegal_value stdout fitness time_cost :
  getitem output "stdout" = Ok (JStr stdout) ->
  finished_with stdout fitness time_cost ->
  decode_stdout output illegal_value = Ok (fitness, time_cost).
Proof.
  intros Hs (parsed & Hp & Hst & Hf & Htc).
  unfold decode_stdout. rewrite Hs. simpl. rewrite Hp. simpl.
  rewrite Hst. simpl. rewrite Hf. simpl. rewrite Htc. reflexivity.
Qed.

Lemma decode_stdout_otherwise output illegal_value stdout r :
  getitem output "stdout" = Ok (JStr stdout) ->
  decode_stdout output illegal_value = Ok r ->
  r = (illegal_value, illegal_value) \/
  finished_with stdout (fst r) (snd r).
Proof.
  intros Hs. unfold decode_stdout. rewrite Hs. simpl.
  destruct (json_loads stdout) as [parsed|] eqn:Hp; simpl; [|discriminate].
  destruct (getitem parsed "status") as [status|] eqn:Hst; simpl; [|discriminate].
  destruct (eq_str status "finished") eqn:Heq.
  - destruct (getitem parsed "fitness") as [f|] eqn:Hf; simpl; [|discriminate].
    destruct (getitem parsed "time_cost") as [tc|] eqn:Htc; simpl; [|discriminate].
    intros [= <-]. right. exists parsed. repeat split; try assumption.
    destruct status; simpl in Heq; try discriminate.
    apply String.eqb_eq in Heq. subst. assumption.
  - intros [= <-]. left. reflexivity.
Qed.

(** C5.  For an evaluation output record, decoding never raises; it yields
    the fitness and the time cost of the parsed stdout when the run did
    not time out, the stdout parses as JSON and its status is [finished]
    (with both values present); in every other case both components are
    the caller's illegal value. *)
Theorem decode_result_classifies output illegal_value stdout stderr timeout :
  output_record output stdout stderr timeout ->
  (exists r, decode_result output illegal_value = Ok r) /\
  (forall fitness time_cost,
      timeout = false -> finished_with stdout fitness time_cost ->
      decode_result output illegal_value = Ok (fitness, time_cost)) /\
  (~ (timeout = false /\ exists fitness time_cost,
         finished_with stdout fitness time_cost) ->
   decode_result output illegal_value = Ok (illegal_value, illegal_value)).
Proof.
  intros (Hs & _ & Ht). split; [|split].
  - eapply decode_result_total; eassumption.
  - intros fitness time_cost -> Hfin.
    unfold decode_result. rewrite Ht. simpl.
    erewrite decode_stdout_finished; eauto.
  - intros Hnot. unfold decode_result. rewrite Ht. simpl.
    destruct timeout; [reflexivity|].
    destruct (decode_stdout output illegal_value) as [r|e] eqn:Hd.
    + destruct (decode_stdout_otherwise _ _ _ _ Hs Hd) as [->|Hfin];
        [reflexivity|].
      exfalso. apply Hnot. split; [reflexivity|]. eauto.
    + destruct e; reflexivity.
Qed.
End DecodeResult.

(** A finished run, decoded with the illegal value [evaluate] passes. *)
Lemma decode_result_classifies_witness :
  @decode_result mini_json (make_output Demo.finished_stdout EmptyString false)
    illegal_cost
  = Ok (JNum 5, JNum 1).
Proof.
  refine (proj1 (proj2 (@decode_result_classifies mini_json
            (make_output Demo.finished_stdout EmptyString false) illegal_cost
            Demo.finished_stdout EmptyString false _)) (JNum 5) (JNum 1) _ _).
  - repeat split.
  - reflexivity.
  - eexists. repeat split; vm_compute; reflexivity.
Defined.

(* ===================================================================== *)
(** * Text lemmas *)
(* ===================================================================== *)

Lemma app_cons c (a b : string) : String c a +:+ b = String c (a +:+ b).
Proof. reflexivity. Qed.

Lemma app_empty (b : string) : EmptyString +:+ b = b.
Proof. reflexivity. Qed.

Lemma app_length (a b : string) :
  String.length (a +:+ b) = String.length a + String.length b.
Proof. induction a as [|c a IH]; [reflexivity|]. rewrite app_cons. simpl. lia. Qed.

Lemma strip_prefix_app p b : strip_prefix p (p +:+ b) = Some b.
Proof.
  induction p as [|c p IH]; [reflexivity|].
  rewrite app_cons. simpl. rewrite Ascii.eqb_refl. exact IH.
Qed.

Lemma whole_lines_tail c a :
  a <> EmptyString -> whole_lines (String c a) = whole_lines a.
Proof. destruct a; [congruence|reflexivity]. Qed.

(** A pattern that stays on one line cannot begin in a run of whole lines
    and end after it. *)
Lemma strip_prefix_whole_lines p a b :
  no_nl p = true -> whole_lines a = true -> a <> EmptyString ->
  strip_prefix p a = None -> strip_prefix p (a +:+ b) = None.
Proof.
  revert a. induction p as [|x p IH]; intros a Hp Ha Hne Hs.
  - destruct a; discriminate.
  - destruct a as [|c a]; [congruence|].
    rewrite app_cons. simpl in *.
    destruct (Ascii.eqb x c) eqn:Hxc; [|reflexivity].
    apply andb_prop in Hp as [Hx Hp].
    destruct a as [|c' a'].
    + apply Ascii.eqb_eq in Hxc. subst c.
      rewrite Ha in Hx. discriminate.
    + apply IH; try assumption. discriminate.
Qed.

Lemma find_none_inv p c a :
  find p (String c a) = None ->
  strip_prefix p (String c a) = None /\ find p a = None.
Proof.
  cbn [find]. destruct (strip_prefix p (String c a)); [discriminate|].
  destruct (find p a) as [[? ?]|]; [discriminate|]. auto.
Qed.

Lemma find_cons_none p c s :
  strip_prefix p (String c s) = None ->
  find p (String c s) =
    match find p s with Some (a, b) => Some (String c a, b) | None => None end.
Proof. intros Hs. cbn [find]. rewrite Hs. reflexivity. Qed.

Lemma find_here p s r : strip_prefix p s = Some r -> find p s = Some (EmptyString, r).
Proof. intros Hs. destruct s; cbn [find]; rewrite Hs; reflexivity. Qed.

(** After a run of whole lines without the pattern, the first occurrence is
    the one that follows the run. *)
Lemma find_first p a b :
  no_nl p = true -> whole_lines a = true -> find p a = None ->
  find p (a +:+ p +:+ b) = Some (a, b).
Proof.
  intros Hp. induction a as [|c a IH]; intros Ha Hf.
  - rewrite app_empty. apply find_here, strip_prefix_app.
  - apply find_none_inv in Hf as [Hs Hf].
    rewrite app_cons, find_cons_none.
    + rewrite IH; [reflexivity| |assumption].
      destruct a; [reflexivity|]. rewrite <- Ha. symmetry.
      apply whole_lines_tail. discriminate.
    + rewrite <- app_cons.
      apply strip_prefix_whole_lines; try assumption. discriminate.
Qed.

(** Joining whole lines without the pattern to a text without it gives a
    text without it. *)
Lemma find_app_none p a b :
  no_nl p = true -> whole_lines a = true ->
  find p a = None -> find p b = None -> find p (a +:+ b) = None.
Proof.
  intros Hp. induction a as [|c a IH]; intros Ha Hfa Hfb.
  - exact Hfb.
  - apply find_none_inv in Hfa as [Hs Hfa].
    rewrite app_cons, find_cons_none.
    + rewrite IH; [reflexivity| |assumption|assumption].
      destruct a; [reflexivity|]. rewrite <- Ha. symmetry.
      apply whole_lines_tail. discriminate.
    + rewrite <- app_cons.
      apply strip_prefix_whole_lines; try assumption. discriminate.
Qed.

(** The first newline after a text that has none. *)
Lemma find_newline l rest :
  no_nl l = true -> find newline (l +:+ newline +:+ rest) = Some (l, rest).
Proof.
  induction l as [|c l IH]; intros Hl.
  - rewrite app_empty. apply find_here, strip_prefix_app.
  - cbn [no_nl] in Hl. apply andb_prop in Hl as [Hc Hl].
    rewrite app_cons, find_cons_none.
    + rewrite IH by assumption. reflexivity.
    + unfold newline. cbn [strip_prefix].
      destruct (Ascii.eqb nl c) eqn:E; [|reflexivity].
      apply Ascii.eqb_eq in E. subst c.
      rewrite Ascii.eqb_refl in Hc. discriminate.
Qed.

Lemma strip_prefix_split p t r : strip_prefix p t = Some r -> t = p +:+ r.
Proof.
  revert t. induction p as [|x p IH]; intros t Hs.
  - simpl in Hs. injection Hs as ->. reflexivity.
  - destruct t as [|y t]; [discriminate|]. simpl in Hs.
    destruct (Ascii.eqb x y) eqn:Hxy; [|discriminate].
    apply Ascii.eqb_eq in Hxy. subst y. rewrite app_cons.
    f_equal. apply IH. assumption.
Qed.

Lemma find_split p s a b : find p s = Some (a, b) -> s = a +:+ p +:+ b.
Proof.
  revert a b. induction s as [|c s IH]; intros a b.
  - cbn [find]. destruct (strip_prefix p EmptyString) eqn:Hs; [|discriminate].
    intros [= <- <-]. rewrite app_empty. apply strip_prefix_split. assumption.
  - cbn [find]. destruct (strip_prefix p (String c s)) as [r|] eqn:Hs.
    + intros [= <- <-]. rewrite app_empty. apply strip_prefix_split. assumption.
    + destruct (find p s) as [[a' b']|]; [|discriminate].
      intros [= <- <-]. rewrite app_cons. f_equal. apply IH. reflexivity.
Qed.

(* ===================================================================== *)
(** * Conflict resolution *)
(* ===================================================================== *)

Lemma contains_false p s : contains p s = false -> find p s = None.
Proof. unfold contains. destruct (find p s); [discriminate|reflexivity]. Qed.

Lemma marker_free_inv s :
  marker_free s = true ->
  find marker_ours s = None /\ find marker_sep s = None /\
  find marker_theirs s = None.
Proof.
  unfold marker_free. intros H.
  apply andb_prop in H as [H H3]. apply andb_prop in H as [H1 H2].
  apply negb_true_iff in H1, H2, H3.
  auto using contains_false.
Qed.

Lemma marker_free_intro s :
  find marker_ours s = None -> find marker_sep s = None ->
  find marker_theirs s = None -> marker_free s = true.
Proof.
  intros H1 H2 H3. unfold marker_free, contains. rewrite H1, H2, H3. reflexivity.
Qed.

Lemma marker_free_app a b :
  whole_lines a = true -> marker_free a = true -> marker_free b = true ->
  marker_free (a +:+ b) = true.
Proof.
  intros Hl Ha Hb.
  apply marker_free_inv in Ha as (Ha1 & Ha2 & Ha3).
  apply marker_free_inv in Hb as (Hb1 & Hb2 & Hb3).
  apply marker_free_intro; apply find_app_none; auto.
Qed.

Lemma find_newline_here rest :
  find newline (newline +:+ rest) = Some (EmptyString, rest).
Proof. apply (find_newline EmptyString rest). reflexivity. Qed.

Lemma well_formed_block_inv plain b :
  well_formed_block (plain, b) = true ->
  (whole_lines plain = true /\ marker_free plain = true) /\
  no_nl (label_ours b) = true /\
  (whole_lines (ours b) = true /\ marker_free (ours b) = true) /\
  (whole_lines (theirs b) = true /\ marker_free (theirs b) = true) /\
  no_nl (label_theirs b) = true.
Proof.
  unfold well_formed_block. intros H.
  repeat (apply andb_prop in H as [H ?]). tauto.
Qed.

(** On a well-formed block the search finds the block itself. *)
Lemma search_conflict_block plain b rest :
  well_formed_block (plain, b) = true ->
  search_conflict (render [(plain, b)] rest) = Some (plain, ours b, theirs b, rest).
Proof.
  intros Hwf.
  apply well_formed_block_inv in Hwf
    as ((Hpl & Hpf) & Hlo & (Hol & Hof) & (Htl & Htf) & Hlt).
  apply marker_free_inv in Hpf as (Hp1 & _ & _).
  apply marker_free_inv in Hof as (_ & Ho2 & _).
  apply marker_free_inv in Htf as (_ & _ & Ht3).
  unfold search_conflict. cbn [render].
  rewrite (find_first marker_ours plain) by auto.
  rewrite find_newline by assumption.
  rewrite (find_first marker_sep (ours b)) by auto.
  rewrite find_newline_here.
  rewrite (find_first marker_theirs (theirs b)) by auto.
  rewrite find_newline by assumption.
  reflexivity.
Qed.

Lemma render_cons plain b blocks tail :
  render ((plain, b) :: blocks) tail = render [(plain, b)] (render blocks tail).
Proof. reflexivity. Qed.

Lemma search_conflict_marker_free s :
  marker_free s = true -> search_conflict s = None.
Proof.
  intros H. apply marker_free_inv in H as (H & _ & _).
  unfold search_conflict. rewrite H. reflexivity.
Qed.

Lemma well_formed_cons pb blocks tail :
  well_formed (pb :: blocks) tail = true ->
  well_formed_block pb = true /\ well_formed blocks tail = true.
Proof.
  unfold well_formed. cbn [forallb]. intros H.
  apply andb_prop in H as [H Ht]. apply andb_prop in H as [Hb Hbs].
  rewrite Hb, Hbs, Ht. auto.
Qed.

Lemma well_formed_nil tail : well_formed [] tail = true -> marker_free tail = true.
Proof. unfold well_formed. cbn [forallb]. intros H. exact H. Qed.

(** The substitution, for any fuel above the number of blocks. *)
Lemma sub_from_render blocks tail :
  well_formed blocks tail = true ->
  forall fuel strategy,
    length blocks < fuel -> length blocks <= length strategy ->
    sub_from fuel strategy (render blocks tail) = Ok (resolve strategy blocks tail).
Proof.
  induction blocks as [|[plain b] blocks IH]; intros Hwf fuel strategy Hfuel Hlen.
  - destruct fuel as [|fuel]; [reflexivity|].
    cbn [sub_from render resolve].
    rewrite search_conflict_marker_free by (apply well_formed_nil; assumption).
    reflexivity.
  - apply well_formed_cons in Hwf as [Hb Hwf].
    destruct fuel as [|fuel]; [simpl in Hfuel; lia|].
    destruct strategy as [|accept_ours strategy]; [simpl in Hlen; lia|].
    simpl in Hfuel, Hlen.
    rewrite render_cons. cbn [sub_from].
    rewrite search_conflict_block by assumption.
    rewrite (IH Hwf fuel strategy) by lia.
    reflexivity.
Qed.

Lemma findall_from_render blocks tail :
  well_formed blocks tail = true ->
  forall fuel, length blocks < fuel ->
    findall_from fuel (render blocks tail)
    = map (fun pb => (ours (snd pb), theirs (snd pb))) blocks.
Proof.
  induction blocks as [|[plain b] blocks IH]; intros Hwf fuel Hfuel.
  - destruct fuel as [|fuel]; [reflexivity|].
    cbn [findall_from render].
    rewrite search_conflict_marker_free by (apply well_formed_nil; assumption).
    reflexivity.
  - apply well_formed_cons in Hwf as [Hb Hwf].
    destruct fuel as [|fuel]; [simpl in Hfuel; lia|]. simpl in Hfuel.
    rewrite render_cons. cbn [findall_from].
    rewrite search_conflict_block by assumption.
    rewrite (IH Hwf fuel) by lia. reflexivity.
Qed.

Lemma render_length blocks tail :
  length blocks <= String.length (render blocks tail).
Proof.
  induction blocks as [|[plain b] blocks IH]; [simpl; lia|].
  cbn [render]. rewrite !app_length. cbn [length].
  change (String.length marker_ours) with 7. lia.
Qed.

(** [count_conflicts] counts the blocks, so the strategy that [git_merge]
    and [git_rebase] draw has one element for each. *)
Lemma count_conflicts_render blocks tail :
  well_formed blocks tail = true ->
  count_conflicts_in (render blocks tail) = length blocks.
Proof.
  intros Hwf. unfold count_conflicts_in, findall.
  rewrite findall_from_render; [apply length_map|assumption|].
  pose proof (render_length blocks tail). lia.
Qed.

Lemma resolve_marker_free strategy blocks tail :
  well_formed blocks tail = true ->
  marker_free (resolve strategy blocks tail) = true.
Proof.
  revert strategy.
  induction blocks as [|[plain b] blocks IH]; intros strategy Hwf.
  - apply well_formed_nil. assumption.
  - apply well_formed_cons in Hwf as [Hb Hwf].
    apply well_formed_block_inv in Hb
      as ((Hpl & Hpf) & _ & (Hol & Hof) & (Htl & Htf) & _).
    cbn [resolve].
    apply marker_free_app; [assumption|assumption|].
    destruct (hd false strategy); apply marker_free_app; auto.
Qed.

Lemma count_conflicts_marker_free s :
  marker_free s = true -> count_conflicts_in s = 0.
Proof.
  intros H. unfold count_conflicts_in, findall. cbn [findall_from].
  rewrite search_conflict_marker_free by assumption. reflexivity.
Qed.

(** A match takes at least its three markers out of the text. *)
Lemma search_conflict_shorter s before o t rest :
  search_conflict s = Some (before, o, t, rest) ->
  String.length rest < String.length s.
Proof.
  unfold search_conflict.
  destruct (find marker_ours s) as [[b0 r0]|] eqn:H0; [|discriminate].
  destruct (find newline r0) as [[b1 r1]|] eqn:H1; [|discriminate].
  destruct (find marker_sep r1) as [[b2 r2]|] eqn:H2; [|discriminate].
  destruct (find newline r2) as [[b3 r3]|] eqn:H3; [|discriminate].
  destruct (find marker_theirs r3) as [[b4 r4]|] eqn:H4; [|discriminate].
  destruct (find newline r4) as [[b5 r5]|] eqn:H5; [|discriminate].
  intros [= <- <- <- <-].
  apply find_split in H0, H1, H2, H3, H4, H5. subst.
  rewrite !app_length. simpl. lia.
Qed.

(** The fuel of the substitution is never used up: above the length of the
    text, more fuel changes nothing. *)
Lemma sub_from_fuel fuel1 :
  forall fuel2 iterator content,
    String.length content < fuel1 -> String.length content < fuel2 ->
    sub_from fuel1 iterator content = sub_from fuel2 iterator content.
Proof.
  induction fuel1 as [|fuel1 IH]; intros fuel2 iterator content H1 H2; [lia|].
  destruct fuel2 as [|fuel2]; [lia|]. cbn [sub_from].
  destruct (search_conflict content) as [[[[before o] t] rest]|] eqn:Hs;
    [|reflexivity].
  apply search_conflict_shorter in Hs.
  destruct iterator as [|accept_ours iterator]; [reflexivity|].
  rewrite (IH fuel2) by lia. reflexivity.
Qed.

Lemma findall_from_fuel fuel1 :
  forall fuel2 content,
    String.length content < fuel1 -> String.length content < fuel2 ->
    findall_from fuel1 content = findall_from fuel2 content.
Proof.
  induction fuel1 as [|fuel1 IH]; intros fuel2 content H1 H2; [lia|].
  destruct fuel2 as [|fuel2]; [lia|]. cbn [findall_from].
  destruct (search_conflict content) as [[[[before o] t] rest]|] eqn:Hs;
    [|reflexivity].
  apply search_conflict_shorter in Hs.
  rewrite (IH fuel2) by lia. reflexivity.
Qed.

(** On a file that holds N well-formed conflict blocks (the plain text and
    both sides of every block are whole lines with none of the three marker
    sequences in them) and with a strategy of at least N booleans,
    [handle_conflict] writes back and stages the text in which the i-th
    block has given way to its ours part when the i-th element is true and
    to its theirs part otherwise; that text has no conflict marker left,
    and [count_conflicts] finds nothing in it. *)
Theorem handle_conflict_resolves `{GitEngine} (s : gstate) (file : string)
    (blocks : list (string * block)) (tail : string) (strategy : list bool) :
  well_formed blocks tail = true ->
  length blocks <= length strategy ->
  read_in s file = Ok (render blocks tail) ->
  handle_conflict s strategy file
    = write_add s file (resolve strategy blocks tail) /\
  handle_conflict_in strategy (render blocks tail)
    = Ok (resolve strategy blocks tail) /\
  marker_free (resolve strategy blocks tail) = true /\
  count_conflicts_in (resolve strategy blocks tail) = 0.
Proof.
  intros Hwf Hlen Hread.
  assert (Hsub : handle_conflict_in strategy (render blocks tail)
                 = Ok (resolve strategy blocks tail)).
  { unfold handle_conflict_in. apply sub_from_render; try assumption.
    pose proof (render_length blocks tail). lia. }
  split; [|split; [exact Hsub|split]].
  - unfold handle_conflict. rewrite Hread.
    cbn [mbind result_bind]. rewrite Hsub. reflexivity.
  - apply resolve_marker_free. assumption.
  - apply count_conflicts_marker_free, resolve_marker_free. assumption.
Qed.

(** On a file with two conflicts: ours for the first, theirs for the
    second. *)
Lemma handle_conflict_resolves_witness :
  @handle_conflict DemoCrossover.single_commit DemoMerge.two_conflicts
     [true; false] "main.py"
    = @write_add DemoCrossover.single_commit DemoMerge.two_conflicts "main.py"
        (resolve [true; false] DemoConflict.blocks DemoConflict.tail) /\
  handle_conflict_in [true; false] (render DemoConflict.blocks DemoConflict.tail)
    = Ok (resolve [true; false] DemoConflict.blocks DemoConflict.tail) /\
  marker_free (resolve [true; false] DemoConflict.blocks DemoConflict.tail) = true /\
  count_conflicts_in (resolve [true; false] DemoConflict.blocks DemoConflict.tail) = 0.
Proof.
  apply (@handle_conflict_resolves DemoCrossover.single_commit
           DemoMerge.two_conflicts "main.py" DemoConflict.blocks
           DemoConflict.tail [true; false]).
  - vm_compute. reflexivity.
  - simpl. lia.
  - vm_compute. reflexivity.
Defined.

Example resolved_text :
  resolve [true; false] DemoConflict.blocks DemoConflict.tail
  = DemoConflict.line "import os" +:+ DemoConflict.line "x = 1"
    +:+ DemoConflict.line "print(x)" +:+ "# end".
Proof. vm_compute. reflexivity. Qed.

(** A strategy that is too short ends in [StopIteration]. *)
Example strategy_too_short :
  handle_conflict_in [true] (render DemoConflict.blocks DemoConflict.tail)
  = Raise StopIteration.
Proof. vm_compute. reflexivity. Qed.

(** C6, where a side of a block holds a marker sequence.  The file has
    one conflict block as git writes it, the markers at the starts of their
    lines; the first line of its ours part is a comment with seven equals
    signs in the middle.  The pattern is not tied to the starts of lines:
    its first group ends at those equals signs and its second group runs
    from the next line to the closing marker.  With the strategy [True] the
    file is left with the two characters before the equals signs, not with
    the ours part; with [False] it is left with the rest of the ours part,
    the separator line and the theirs part, so a conflict marker is still
    there. *)
Theorem handle_conflict_keeps_separator :
  render DemoConflict.commented EmptyString
    = DemoConflict.line "<<<<<<< HEAD"
      +:+ DemoConflict.line "# ======= helpers ======="
      +:+ DemoConflict.line "x = 1"
      +:+ DemoConflict.line "======="
      +:+ DemoConflict.line "x = 2"
      +:+ DemoConflict.line ">>>>>>> 3f2a" /\
  (s ← @handle_conflict DemoCrossover.single_commit DemoMerge.one_commented
         [true] "main.py";
   @read_in DemoCrossover.single_commit s "main.py") = Ok "# " /\
  resolve [true] DemoConflict.commented EmptyString
    = DemoConflict.line "# ======= helpers =======" +:+ DemoConflict.line "x = 1" /\
  (s ← @handle_conflict DemoCrossover.single_commit DemoMerge.one_commented
         [false] "main.py";
   @read_in DemoCrossover.single_commit s "main.py")
    = Ok (DemoConflict.line "x = 1" +:+ DemoConflict.line "======="
          +:+ DemoConflict.line "x = 2") /\
  resolve [false] DemoConflict.commented EmptyString = DemoConflict.line "x = 2" /\
  marker_free (DemoConflict.line "x = 1" +:+ DemoConflict.line "======="
               +:+ DemoConflict.line "x = 2") = false.
Proof. repeat split; vm_compute; reflexivity. Qed.

(** A line of equals signs alone, under a title, does the same. *)
Example separator_line_in_ours :
  (s ← @handle_conflict DemoCrossover.single_commit DemoMerge.one_underlined
         [false] "main.py";
   @read_in DemoCrossover.single_commit s "main.py")
    = Ok (DemoConflict.line "=======" +:+ DemoConflict.line "Other") /\
  resolve [false] DemoConflict.underlined EmptyString = DemoConflict.line "Other".
Proof. split; vm_compute; reflexivity. Qed.

(* ===================================================================== *)
(** * Committing *)
(* ===================================================================== *)

Lemma lookup_at_paths paths f p :
  at_paths paths f !! p = if decide (p ∈ paths) then f p else None.
Proof.
  unfold at_paths. rewrite map_lookup_imap, lookup_gset_to_gmap.
  destruct (decide (p ∈ paths)) as [Hin|Hout].
  - rewrite option_guard_True by exact Hin. reflexivity.
  - rewrite option_guard_False by exact Hout. reflexivity.
Qed.

(** A path without local change gets the entry and the file of the commit
    that is checked out. *)
Lemma checkout_path_unchanged (x m : option string) :
  checkout_path x x x m = Some (m, m).
Proof.
  unfold checkout_path. destruct x as [x|], m as [m|];
    repeat case_bool_decide; try reflexivity; congruence.
Qed.

(** A path that is the same in HEAD and in the commit keeps what it has. *)
Lemma checkout_path_same_commit (i w h : option string) :
  checkout_path i w h h = Some (i, w).
Proof.
  unfold checkout_path. destruct i as [i|], h as [h|];
    repeat case_bool_decide; try reflexivity; congruence.
Qed.

Lemma at_paths_tree (paths : gset string) f (m : gmap string string) :
  dom m ⊆ paths -> (forall p, p ∈ paths -> f p = m !! p) ->
  at_paths paths f = m.
Proof.
  intros Hsub Hf. apply map_eq. intros p. rewrite lookup_at_paths.
  destruct (decide (p ∈ paths)) as [Hin|Hout]; [apply Hf, Hin|].
  symmetry. apply not_elem_of_dom. intros Hp. apply Hout, Hsub, Hp.
Qed.

(** Without local changes a checkout installs the tree of the commit, on
    disk and in the index. *)
Lemma checkout_no_local_changes r g o :
  no_local_changes r ->
  objects r !! g = Some o ->
  checkout r g = Ok (checked_out r g o).
Proof.
  intros [Hf Hi] Hg. unfold checkout. rewrite Hg, Hf, Hi.
  rewrite bool_decide_eq_true_2.
  2:{ intros p _. rewrite checkout_path_unchanged. eauto. }
  unfold checked_out.
  rewrite !(at_paths_tree _ _ (tree o)); [reflexivity| | | |].
  - set_solver.
  - intros p _. rewrite checkout_path_unchanged. reflexivity.
  - set_solver.
  - intros p _. rewrite checkout_path_unchanged. reflexivity.
Qed.

Section Commit.
Context `{GitHash} `{TextIO}.




(** The staged edit: nothing is written and nothing is staged. *)
Lemma update_file_in_worktree_same config w new_content file :
  wt_files w !! default (filename config) file = Some (payload new_content) ->
  update_file_in_worktree config w new_content file = Ok w.
Proof.
  intros Hp. unfold update_file_in_worktree.
  rewrite Hp, String.eqb_refl. reflexivity.
Qed.



(** For contrast: content that changes the bytes of the file makes a
    commit whose parent is [g]. *)
Lemma update_file_changed config r g o new_content msg file bytes current
    new_bytes :
  no_local_changes r ->
  objects r !! g = Some o ->
  tree o !! default (filename config) file = Some bytes ->
  read_in_mode new_content bytes = Ok current ->
  current <> new_content ->
  written new_content = Ok new_bytes ->
  new_bytes <> bytes ->
  sanitize_message msg <> EmptyString ->
  exists r' o',
    update_file config r g new_content msg file = (r', Ok tt) /\
    objects r' !! read_head_commit r' = Some o' /\
    parents o' = [g] /\
    tree o' !! default (filename config) file = Some new_bytes.
Proof.
  intros Hclean Hg Hc Hread Hne Hw Hnb Hmsg. unfold update_file.
  rewrite (checkout_no_local_changes r g o Hclean Hg).
  unfold checked_out. cbn [top set_top wt_files]. rewrite Hc, Hread.
  rewrite bool_decide_eq_false_2 by exact Hne. rewrite Hw.
  unfold git_commit.
  destruct (String.eqb (sanitize_message msg) EmptyString) eqn:E2;
    [apply String.eqb_eq in E2; contradiction|].
  assert (Hst : staged_changes
            (set_top r {| wt_head := g; wt_files := tree o; wt_index := tree o |})
            (git_add (write_file {| wt_head := g; wt_files := tree o;
                                    wt_index := tree o |}
                        (default (filename config) file) new_bytes)
               (default (filename config) file)) = true).
  { unfold staged_changes. simpl. rewrite Hg. rewrite lookup_insert_eq.
    apply bool_decide_eq_true. intros Heq.
    assert (Hl : (<[default (filename config) file := new_bytes]> (tree o))
                   !! default (filename config) file = Some bytes)
      by (rewrite Heq; assumption).
    rewrite lookup_insert_eq in Hl. congruence. }
  rewrite Hst. simpl.
  eexists _, _. split; [reflexivity|]. simpl.
  rewrite lookup_insert_eq. split; [reflexivity|]. split; [reflexivity|].
  simpl. rewrite lookup_insert_eq. simpl. apply lookup_insert_eq.
Qed.
End Commit.



(** Bytes are compared as they are: the same file handed in as [bytes]
    is left alone. *)
Example commit_same_bytes :
  @commit Demo.naming Demo.ascii_text Demo.config Demo.repo_crlf "a1" "main.py"
    (Bytes Demo.crlf_line) "again" = (Demo.repo_crlf, Ok "a1").
Proof. vm_compute. reflexivity. Qed.

(** Other content does make a commit, named by its parent and message. *)
Example commit_other_content :
  match @commit Demo.naming Demo.ascii_text Demo.config Demo.repo0 "a1" "main.py"
          (Str "value=1") "inc" with
  | (r', Ok g') => g' = "a1/inc/value=1" /\ size (objects r') = 2
  | (_, Raise _) => False
  end.
Proof. vm_compute. split; reflexivity. Qed.

(* ===================================================================== *)
(** * Notes across an evaluation batch *)
(* ===================================================================== *)

Lemma mapM_ok_Forall2 {A B} (f : A -> result B) (l : list A) (ys : list B) :
  mapM f l = Ok ys -> Forall2 (fun x y => f x = Ok y) l ys.
Proof.
  revert ys. induction l as [|x l IH]; intros ys.
  - intros [= <-]. constructor.
  - cbn [mapM]. destruct (f x) as [y|e] eqn:Hx; [|discriminate]. simpl.
    destruct (mapM f l) as [ys'|e] eqn:Hl; [|discriminate]. simpl.
    intros [= <-]. constructor; [assumption|]. apply IH. reflexivity.
Qed.

Lemma mapM_ok_intro {A B} (f : A -> result B) (l : list A) :
  (forall x, x ∈ l -> exists y, f x = Ok y) -> exists ys, mapM f l = Ok ys.
Proof.
  induction l as [|x l IH]; intros Hf.
  - exists []. reflexivity.
  - destruct (Hf x) as [y Hy]; [left|].
    destruct IH as [ys Hys]; [intros x' Hx'; apply Hf; right; assumption|].
    exists (y :: ys). cbn [mapM]. rewrite Hy. simpl. rewrite Hys. reflexivity.
Qed.

Section Notes.
Context `{PyJson} `{EvalCommand}.

Lemma add_note_other r r' c g note overwrite :
  add_note r c note overwrite = Ok r' -> c <> g -> read_note r' g = read_note r g.
Proof.
  unfold add_note, read_note. intros Ha Hne.
  destruct (objects r !! c); [|discriminate].
  destruct (notes r !! c); [destruct overwrite|]; try discriminate;
    injection Ha as <-; simpl; apply lookup_insert_ne; assumption.
Qed.

Lemma add_note_same r r' g note overwrite :
  add_note r g note overwrite = Ok r' -> read_note r' g = Some note.
Proof.
  unfold add_note, read_note. intros Ha.
  destruct (objects r !! g); [|discriminate].
  destruct (notes r !! g); [destruct overwrite|]; try discriminate;
    injection Ha as <-; simpl; apply lookup_insert_eq.
Qed.

(** A cached, parsable note is the answer of [evaluate_code] when
    re-evaluation is not forced; the evaluation command is not run. *)
Lemma evaluate_code_cached config r g note record :
  reevaluate config = false ->
  read_note r g = Some note -> json_loads note = Some record ->
  evaluate_code config r g = Ok record.
Proof.
  intros Hre Hn Hl. unfold evaluate_code. rewrite Hre, Hn. simpl.
  rewrite Hl. reflexivity.
Qed.

(** Forced, the note is not even read. *)
Lemma evaluate_code_forced config r g :
  reevaluate config = true ->
  evaluate_code config r g =
    match run_eval g with
    | Completed stdout stderr => Ok (make_output stdout stderr false)
    | Undecodable => Raise UnicodeDecodeError
    | TimeoutExpired => Ok (make_output EmptyString EmptyString true)
    | Failed e => Raise e
    end.
Proof. intros Hre. unfold evaluate_code. rewrite Hre. reflexivity. Qed.

(** Writing results in which [g] always has [record] leaves [g] with its
    old note or with the serialisation of [record]. *)
Lemma update_notes_keeps g record (Q : option string -> Prop) commits :
  Q (Some (json_dumps record)) ->
  forall results r,
    Forall2 (fun c o => c = g -> o = record) commits results ->
    Q (read_note r g) ->
    Q (read_note (fst (update_notes r commits results)) g).
Proof.
  intros HQ. induction commits as [|c commits IH]; intros results r Hall Hr.
  - exact Hr.
  - inversion Hall as [|? o ? results' Hco Hall']; subst.
    cbn [update_notes].
    destruct (add_note r c (json_dumps o) true) as [r1|e] eqn:Ha; [|exact Hr].
    apply IH; [assumption|].
    destruct (decide (c = g)) as [->|Hne].
    + rewrite (Hco eq_refl) in Ha.
      rewrite (add_note_same _ _ _ _ _ Ha). exact HQ.
    + rewrite (add_note_other _ _ _ _ _ _ Ha Hne). exact Hr.
Qed.

Lemma update_notes_writes g record commits :
  forall results r r',
    Forall2 (fun c o => c = g -> o = record) commits results ->
    update_notes r commits results = (r', Ok tt) ->
    g ∈ commits ->
    read_note r' g = Some (json_dumps record).
Proof.
  induction commits as [|c commits IH]; intros results r r' Hall Hu Hg.
  - inversion Hg.
  - inversion Hall as [|? o ? results' Hco Hall']; subst.
    cbn [update_notes] in Hu.
    destruct (add_note r c (json_dumps o) true) as [r1|e] eqn:Ha;
      [|discriminate].
    destruct (decide (g ∈ commits)) as [Hin|Hnin].
    + eapply IH; eassumption.
    + apply elem_of_cons in Hg as [->|Hin]; [|contradiction].
      rewrite (Hco eq_refl) in Ha.
      pose proof (update_notes_keeps c record
                    (fun n => n = Some (json_dumps record)) commits eq_refl
                    results' r1 Hall' (add_note_same _ _ _ _ _ Ha)) as Hk.
      rewrite Hu in Hk. exact Hk.
Qed.

Lemma cached_results config r g note record commits outputs :
  reevaluate config = false ->
  read_note r g = Some note -> json_loads note = Some record ->
  mapM (evaluate_code config r) commits = Ok outputs ->
  Forall2 (fun c o => c = g -> o = record) commits outputs.
Proof.
  intros Hre Hn Hl Hm. apply mapM_ok_Forall2 in Hm.
  eapply Forall2_impl; [exact Hm|].
  intros c o Hc ->. simpl in Hc.
  rewrite (evaluate_code_cached _ _ _ _ _ Hre Hn Hl) in Hc. congruence.
Qed.

(** C3, as the code has it.  Without forced re-evaluation a genome with
    a parsable note gets the stored record back and its evaluation
    command is not run.  The batch then writes the serialisation of that
    record over the note (forced or not): after the batch the note holds
    its old content or that serialisation, the latter whenever the batch
    went through; so the content is what it was for every note that is
    the serialisation of its own record, as the notes written by
    [update_notes] are. *)
Theorem evaluate_reuses_note config r pop g note record :
  reevaluate config = false ->
  read_note r g = Some note ->
  json_loads note = Some record ->
  evaluate_code config r g = Ok record /\
  (read_note (fst (evaluate config r pop)) g = Some note \/
   read_note (fst (evaluate config r pop)) g = Some (json_dumps record)) /\
  (g ∈ pop -> is_ok (snd (evaluate config r pop)) = true ->
   read_note (fst (evaluate config r pop)) g = Some (json_dumps record)) /\
  (json_dumps record = note ->
   read_note (fst (evaluate config r pop)) g = Some note).
Proof.
  intros Hre Hn Hl.
  assert (Hkeep : forall Q : option string -> Prop,
             Q (Some note) -> Q (Some (json_dumps record)) ->
             Q (read_note (fst (evaluate config r pop)) g)).
  { intros Q Hold Hnew. unfold evaluate.
    destruct (prepare_temp_worktrees r (unique pop)); [|rewrite <- Hn in Hold; exact Hold].
    destruct (mapM (evaluate_code config r) (unique pop)) as [outputs|e] eqn:Hm;
      [|rewrite <- Hn in Hold; exact Hold].
    pose proof (update_notes_keeps g record Q (unique pop) Hnew outputs r
                  (cached_results _ _ _ _ _ _ _ Hre Hn Hl Hm)) as Hk.
    destruct (update_notes r (unique pop) outputs) as [r' [u|e]]; simpl in *;
      apply Hk; rewrite Hn; exact Hold. }
  split; [eapply evaluate_code_cached; eassumption|].
  split; [apply (Hkeep (fun n => n = Some note \/ n = Some (json_dumps record)));
          auto|].
  split.
  - intros Hg. unfold evaluate.
    destruct (prepare_temp_worktrees r (unique pop)); [|discriminate].
    destruct (mapM (evaluate_code config r) (unique pop)) as [outputs|e] eqn:Hm;
      [|discriminate].
    destruct (update_notes r (unique pop) outputs) as [r' [[]|e]] eqn:Hu;
      [|discriminate].
    intros _. simpl. eapply update_notes_writes; [|exact Hu|].
    + eapply cached_results; eassumption.
    + unfold unique. apply elem_of_remove_dups. assumption.
  - intros Hcanon.
    apply (Hkeep (fun n => n = Some note)); [reflexivity|].
    rewrite Hcanon. reflexivity.
Qed.
End Notes.

(** C3, at a note in the form [json.dumps] writes: kept. *)
Lemma evaluate_reuses_note_witness :
  read_note
    (fst (@evaluate mini_json Demo.finishing Demo.config Demo.repo_dumped ["a1"]))
    "a1" = Some Demo.dumped_note.
Proof.
  refine (proj2 (proj2 (proj2 (@evaluate_reuses_note mini_json Demo.finishing
            Demo.config Demo.repo_dumped ["a1"] "a1" Demo.dumped_note
            Demo.timed_out _ _ _))) _).
  - reflexivity.
  - vm_compute. reflexivity.
  - vm_compute. reflexivity.
  - vm_compute. reflexivity.
Defined.

(** C3 as stated fails where the note is a record in another layout: the
    genome [a1] has a note, re-evaluation is not forced, the batch goes
    through with the stored record, and the note is no longer what it
    was. *)
Lemma evaluate_rewrites_compact_note :
  reevaluate Demo.config = false /\
  read_note Demo.repo_compact "a1" = Some Demo.compact_note /\
  @json_loads mini_json Demo.compact_note = Some Demo.timed_out /\
  @evaluate_code mini_json Demo.finishing Demo.config Demo.repo_compact "a1"
    = Ok Demo.timed_out /\
  snd (@evaluate mini_json Demo.finishing Demo.config Demo.repo_compact ["a1"])
    = Ok [(illegal_cost, illegal_cost)] /\
  read_note
    (fst (@evaluate mini_json Demo.finishing Demo.config Demo.repo_compact ["a1"]))
    "a1" <> read_note Demo.repo_compact "a1".
Proof.
  repeat split; try (vm_compute; reflexivity).
  vm_compute. discriminate.
Qed.


(* ===================================================================== *)
(** * Migration *)
(* ===================================================================== *)

Lemma assoc_elem {A} (k : string) (l : list (string * A)) :
  k ∈ map fst l -> exists v, assoc k l = Some v.
Proof.
  induction l as [|[k' v] l IH]; intros Hk; [inversion Hk|].
  cbn [assoc]. destruct (String.eqb k' k) eqn:E; [eauto|].
  apply IH. cbn [map fst] in Hk. apply elem_of_cons in Hk as [->|Hk]; [|assumption].
  rewrite String.eqb_refl in E. discriminate.
Qed.

Lemma mapM_ok_length {A B} (f : A -> result B) (l : list A) (ys : list B) :
  mapM f l = Ok ys -> length ys = length l.
Proof. intros Hm. apply mapM_ok_Forall2, Forall2_length in Hm. congruence. Qed.

(** Every listed tag resolves, so the tag migration itself does not raise. *)
Lemma migrate_from_human_tags_ok r migrate_count :
  exists r' commits,
    migrate_from_human_tags r migrate_count = (r', Ok commits) /\
    length commits <= migrate_count.
Proof.
  unfold migrate_from_human_tags.
  set (names := take migrate_count
                  (filter (fun tag => startswith tag "human") (list_tags r))).
  destruct (mapM_ok_intro (get_commit_by_tag r) names) as [cs Hcs].
  - intros tag Htag. unfold get_commit_by_tag.
    destruct (assoc_elem tag (tags r)) as [c Hc]; [|rewrite Hc; eauto].
    apply elem_of_take in Htag as (i & Htag & _).
    apply list_elem_of_lookup_2 in Htag.
    apply list_elem_of_filter in Htag as [_ Htag]. exact Htag.
  - rewrite Hcs. eexists _, _. split; [reflexivity|].
    rewrite (mapM_ok_length _ _ _ Hcs). subst names.
    rewrite length_take. lia.
Qed.

Lemma unpack2_short {A} (xs : list A) :
  length xs <= 1 -> unpack2 xs = Raise ValueError.
Proof. destruct xs as [|a [|b [|c xs]]]; simpl; intros; try reflexivity; lia. Qed.

(** C10.  On a generation that the period [human_every] divides,
    [MigrateHelper.migrate_from_human] raises [ValueError] whatever the tags
    are: [migrate_from_human_tags(config, 1)] returns one list of at most
    one commit, and the helper unpacks it into two names. *)
Theorem migrate_from_human_raises config generation r :
  human_every config <> 0%Z ->
  (generation mod human_every config = 0)%Z ->
  (exists r' commits,
      migrate_from_human_tags r 1 = (r', Ok commits) /\ length commits <= 1) /\
  snd (migrate_from_human config generation r) = Raise ValueError.
Proof.
  intros Hne Hdiv.
  destruct (migrate_from_human_tags_ok r 1) as (r' & commits & Hm & Hlen).
  split; [eauto|].
  unfold migrate_from_human, divides.
  destruct (Z.eqb_spec (human_every config) 0) as [|_]; [contradiction|].
  rewrite Hdiv. cbn [Z.eqb]. rewrite Hm. cbn [snd].
  rewrite unpack2_short by assumption. reflexivity.
Qed.

(** C10 at generation 0, period 1, with two tags left by a person. *)
Lemma migrate_from_human_raises_witness :
  snd (migrate_from_human Demo.config 0 DemoMigration.tagged) = Raise ValueError.
Proof.
  refine (proj2 (migrate_from_human_raises Demo.config 0 DemoMigration.tagged _ _)).
  - vm_compute. discriminate.
  - vm_compute. reflexivity.
Defined.

(** The tag is consumed all the same: it is deleted before the helper
    fails. *)
Example human_tag_is_lost :
  list_tags (fst (migrate_from_human Demo.config 0 DemoMigration.tagged))
  = ["human-2"].
Proof. vm_compute. reflexivity. Qed.

(** Running one step of the error monad. *)
Ltac rsimpl := cbn [mbind result_bind mret result_ret].

Section MigrateHosts.
Context `{PyJson}.

(** The loop, entered below the limit, ends at the limit or below it. *)
Lemma migration_loop_bound r migration_count branches :
  forall commits fitness commits' fitness',
    length commits < migration_count ->
    migration_loop r migration_count branches commits fitness
      = Ok (commits', fitness') ->
    length commits' <= migration_count.
Proof.
  induction branches as [|branch branches IH];
    intros commits fitness commits' fitness' Hlt.
  - intros [= <- <-]. lia.
  - cbn [migration_loop].
    destruct (get_commit_by_branch r branch) as [c|e]; [|discriminate]. rsimpl.
    destruct (read_note r c) as [note|].
    + destruct (loads (JStr note)) as [parsed|e]; [|discriminate]. rsimpl.
      destruct (decode_result parsed JInf) as [f|e]; [|discriminate]. rsimpl.
      destruct (Nat.eqb_spec (length (commits ++ [c])%list) migration_count)
        as [Heq|Hne].
      * intros [= <- <-]. lia.
      * apply IH. rewrite length_app in *. simpl in *. lia.
    + rsimpl.
      destruct (Nat.eqb_spec (length commits) migration_count) as [Heq|Hne].
      * intros [= <- <-]. lia.
      * apply IH. assumption.
Qed.

(** Only commits with a note are collected, one fitness for each. *)
Lemma migration_loop_noted r migration_count branches :
  forall commits fitness commits' fitness',
    Forall (fun c => is_Some (read_note r c)) commits ->
    length fitness = length commits ->
    migration_loop r migration_count branches commits fitness
      = Ok (commits', fitness') ->
    Forall (fun c => is_Some (read_note r c)) commits' /\
    length fitness' = length commits'.
Proof.
  induction branches as [|branch branches IH];
    intros commits fitness commits' fitness' Hall Hlen.
  - intros [= <- <-]. auto.
  - cbn [migration_loop].
    destruct (get_commit_by_branch r branch) as [c|e]; [|discriminate]. rsimpl.
    destruct (read_note r c) as [note|] eqn:Hn.
    + destruct (loads (JStr note)) as [parsed|e]; [|discriminate]. rsimpl.
      destruct (decode_result parsed JInf) as [f|e]; [|discriminate]. rsimpl.
      assert (Hall' : Forall (fun c => is_Some (read_note r c)) (commits ++ [c])%list).
      { apply Forall_app. split; [assumption|].
        constructor; [rewrite Hn; eauto|constructor]. }
      assert (Hlen' : length (fitness ++ [f])%list = length (commits ++ [c])%list)
        by (rewrite !length_app; simpl; lia).
      destruct (length (commits ++ [c])%list =? migration_count)%nat.
      * intros [= <- <-]. auto.
      * apply IH; assumption.
    + rsimpl. destruct (length commits =? migration_count)%nat.
      * intros [= <- <-]. auto.
      * apply IH; assumption.
Qed.

(** A branch without a note is passed over; it does not end the loop with
    an error. *)
Lemma migration_loop_skips r migration_count branch branches commit commits fitness :
  get_commit_by_branch r branch = Ok commit ->
  read_note r commit = None ->
  length commits <> migration_count ->
  migration_loop r migration_count (branch :: branches) commits fitness
  = migration_loop r migration_count branches commits fitness.
Proof.
  intros Hc Hn Hne. cbn [migration_loop]. rewrite Hc. rsimpl. rewrite Hn. rsimpl.
  destruct (Nat.eqb_spec (length commits) migration_count); [contradiction|].
  reflexivity.
Qed.

(** [merge_notes] merges nothing: the only ref that is listed is the
    default namespace, which is left out, so the fetched namespaces stay
    where they are and the repository is as it was. *)
Lemma merge_notes_same r : merge_notes r = r.
Proof. reflexivity. Qed.

Context `{PyRandom}.

(** With a limit of at least one, the migration from other hosts returns
    at most the limit, only commits that have a note, and a fitness decoded
    from the note of each; the evaluation command is no part of it. *)
Lemma migrate_from_other_hosts_bounded config r g migration_count r' g' commits fitness :
  1 <= migration_count ->
  migrate_from_other_hosts config r g migration_count = (r', g', Ok (commits, fitness)) ->
  length commits <= migration_count /\
  Forall (fun c => is_Some (read_note r' c)) commits /\
  length fitness = length commits.
Proof.
  intros Hmc. unfold migrate_from_other_hosts.
  destruct (rng_shuffle g _) as [branches g1].
  intros [= <- <- Hloop]. split.
  - eapply migration_loop_bound; [|exact Hloop]. simpl. lia.
  - eapply migration_loop_noted; [| |exact Hloop]; [constructor|reflexivity].
Qed.
End MigrateHosts.

(** C7, at the limit 0.  The host [host0] has fetched one branch of
    [host1] whose commit has a note.  Asked for at most 0 genomes, the
    migration returns that commit, whatever the generator does: the length
    of the list is compared with the limit only after a commit has been
    added to it. *)
Theorem migrate_zero_limit_returns_one `{PyRandom} (g : rng) :
  snd (@migrate_from_other_hosts mini_json _ Demo.config DemoMigration.fetched g 0)
  = Ok (["b2"], [(JInf, JInf)]).
Proof.
  unfold migrate_from_other_hosts.
  destruct (rng_shuffle g _) as [branches g1] eqn:Hs.
  pose proof (rng_shuffle_perm g
    (filter (fun branch => negb (contains (default "host0" (hostname Demo.config)) branch))
            (list_remote_branches DemoMigration.fetched))) as Hp.
  rewrite Hs in Hp. cbn [fst] in Hp.
  assert (Hb : branches = ["remotes/origin/host1-individual-0"]).
  { apply Permutation_singleton_r. rewrite Hp. vm_compute. reflexivity. }
  subst branches. cbn [snd]. vm_compute. reflexivity.
Qed.

(* ===================================================================== *)
(** * Crossover over the population *)
(* ===================================================================== *)

Section PopulationCrossover.
Context `{GitEngine} `{PyRandom} `{TorchRandom}.

(** The inner loop ends on a novel pair or when its budget is spent. *)
Lemma redraw_exit budget s t pop commit1 commit2 retry c1 c2 retry' t' :
  redraw budget s t pop commit1 commit2 retry = (Ok (c1, c2, retry'), t') ->
  is_novel_merge s c1 c2 = true \/ retry' = retry + budget.
Proof.
  revert t commit1 commit2 retry.
  induction budget as [|budget IH]; intros t commit1 commit2 retry; cbn [redraw].
  - destruct (is_novel_merge s commit1 commit2) eqn:Hn.
    + intros [= <- <- <- <-]. auto.
    + intros [= <- <- <- <-]. right. lia.
  - destruct (is_novel_merge s commit1 commit2) eqn:Hn.
    + intros [= <- <- <- <-]. auto.
    + destruct (draw_pair t pop) as [[[d1 d2]|e] t1]; [|discriminate].
      intros Hr. apply IH in Hr as [Hr|Hr]; [auto|right; lia].
Qed.

(** The retry counter never goes down. *)
Lemma redraw_retry budget s t pop commit1 commit2 retry c1 c2 retry' t' :
  redraw budget s t pop commit1 commit2 retry = (Ok (c1, c2, retry'), t') ->
  retry <= retry'.
Proof.
  revert t commit1 commit2 retry.
  induction budget as [|budget IH]; intros t commit1 commit2 retry; cbn [redraw].
  - destruct (is_novel_merge s commit1 commit2); intros [= <- <- <- <-]; lia.
  - destruct (is_novel_merge s commit1 commit2).
    + intros [= <- <- <- <-]. lia.
    + destruct (draw_pair t pop) as [[[d1 d2]|e] t1]; [|discriminate].
      intros Hr. apply IH in Hr. lia.
Qed.

Lemma is_novel_merge_true s c1 c2 :
  is_novel_merge s c1 c2 = true ->
  fast_forwardness s c1 c2 = false /\ fast_forwardness s c2 c1 = false.
Proof.
  unfold is_novel_merge. intros Hn. apply negb_true_iff, orb_false_iff in Hn.
  exact Hn.
Qed.

Lemma crossover_passes_guarded steps config pop n :
  forall st,
    Forall (guarded config) (calls st) ->
    Forall (guarded config) (calls (fst (crossover_passes steps config pop n st))).
Proof.
  induction n as [|n IH]; intros st Hst; cbn [crossover_passes]; [exact Hst|].
  destruct (draw_pair (torch st) pop) as [[[c1 c2]|e] t1]; [|exact Hst].
  destruct (redraw _ _ _ _ _ _ _) as [[[[d1 d2] retry']|e] t2] eqn:Hr; [|exact Hst].
  destruct (rng_randint _ _ _) as [seed g1].
  set (call := {| parent1 := d1 |}).
  assert (Hcall : guarded config call).
  { apply redraw_exit in Hr as [Hn|Hr].
    - left. apply is_novel_merge_true in Hn. exact Hn.
    - right. subst call. cbn [retry_at_call]. lia. }
  assert (Hcalls : Forall (guarded config) (calls st ++ [call])).
  { apply Forall_app. split; [exact Hst|]. constructor; [exact Hcall|constructor]. }
  destruct (git_crossover _ _ _ _ _ _) as [[[c new_commit]|e]|].
  - apply IH. exact Hcalls.
  - exact Hcalls.
  - exact Hcalls.
Qed.

(** C1, as the code has it.  Every pair that the population loop hands to
    [git_crossover] is novel (neither commit is an ancestor of the other,
    both directions checked on the repository of that moment), or the
    retry counter of the loop has by then reached [max_merge_retry]. *)
Theorem crossover_calls_guarded steps config pop s g t :
  Forall (guarded config)
         (calls (fst (evogit_git_crossover steps config pop s g t))).
Proof.
  unfold evogit_git_crossover. apply crossover_passes_guarded. constructor.
Qed.

(** With retries to spare at the end, every pair was novel. *)
Lemma crossover_passes_retry steps config pop n :
  forall st,
    Forall (fun call => retry_at_call call <= retry st) (calls st) ->
    let st' := fst (crossover_passes steps config pop n st) in
    Forall (fun call => retry_at_call call <= retry st') (calls st').
Proof.
  induction n as [|n IH]; intros st Hst; cbn [crossover_passes]; [exact Hst|].
  destruct (draw_pair (torch st) pop) as [[[c1 c2]|e] t1]; [|exact Hst].
  destruct (redraw _ _ _ _ _ _ _) as [[[[d1 d2] retry']|e] t2] eqn:Hr; [|exact Hst].
  apply redraw_retry in Hr.
  destruct (rng_randint _ _ _) as [seed g1].
  set (call := {| parent1 := d1 |}).
  assert (Hcalls : Forall (fun c => retry_at_call c <= retry') (calls st ++ [call])).
  { apply Forall_app. split.
    - eapply Forall_impl; [exact Hst|]. cbn beta. intros c Hc. lia.
    - constructor; [subst call; cbn; lia|constructor]. }
  destruct (git_crossover _ _ _ _ _ _) as [[[c new_commit]|e]|].
  - apply IH. exact Hcalls.
  - exact Hcalls.
  - exact Hcalls.
Qed.

Lemma crossover_novel_with_retries_left steps config pop s g t :
  let st := fst (evogit_git_crossover steps config pop s g t) in
  retry st < max_merge_retry config ->
  Forall (fun call => first_is_ancestor call = false /\
                      second_is_ancestor call = false) (calls st).
Proof.
  intros st Hleft.
  pose proof (crossover_passes_guarded steps config pop (length pop)
                {| cross := {| git := s; gen := g; drawn := [] |};
                   torch := t; retry := 0; offspring := []; calls := [] |}
                (List.Forall_nil _)) as Hg.
  fold (evogit_git_crossover steps config pop s g t) in Hg.
  pose proof (crossover_passes_retry steps config pop (length pop)
                {| cross := {| git := s; gen := g; drawn := [] |};
                   torch := t; retry := 0; offspring := []; calls := [] |}
                (List.Forall_nil _)) as Hr.
  cbn zeta in Hr. fold (evogit_git_crossover steps config pop s g t) in Hr.
  fold st in Hg, Hr.
  apply Forall_forall. intros call Hin.
  rewrite Forall_forall in Hg, Hr.
  destruct (Hg call Hin) as [Hn|Hmax]; [exact Hn|].
  specialize (Hr call Hin). lia.
Qed.

(** C9, the part that holds.  [git_crossover] seeds the generator before
    it draws: from any two states of the generator, on the same repository
    and with the same seed and parents, it draws the same choices (merge or
    rebase, and every conflict strategy), leaves the same state and returns
    the same commit. *)
Theorem git_crossover_seeded steps config seed commit1 commit2 s g1 g2 log :
  git_crossover steps config seed commit1 commit2
    {| git := s; gen := g1; drawn := log |}
  = git_crossover steps config seed commit1 commit2
      {| git := s; gen := g2; drawn := log |}.
Proof.
  unfold git_crossover. cbn [git gen drawn].
  destruct (draw_choices _ _ _) as [use_merge c]. reflexivity.
Qed.
End PopulationCrossover.

(** C1 as stated fails once the redraws are used up.  In the repository
    with the single commit [a1] and a population of that one commit, with
    one redraw allowed, the loop hands [(a1, a1)] to [git_crossover]: each
    parent is an ancestor of the other. *)
Lemma crossover_on_own_ancestor :
  max_merge_retry Demo.config = 1 /\
  snd DemoCrossover.run = Finished /\
  offspring (fst DemoCrossover.run) = ["a1"] /\
  calls (fst DemoCrossover.run) =
    [{| parent1 := "a1"; parent2 := "a1"; retry_at_call := 1;
        first_is_ancestor := true; second_is_ancestor := true |}].
Proof. vm_compute. repeat split. Qed.

(** C9 as stated fails for constrained mutation.  The file and the section
    are drawn from the generator as it stands; the seeds go to the backend
    only.  On the same repository, commit and seeds, from the states 0 and
    1 of the generator, the selection differs and so does the offspring. *)
Lemma mutation_selection_follows_generator :
  selection (fst (@_gather_info toy_random DemoMutation.store 0%Z ["c1"]))
    = Ok [("util.py", 0, 1)] /\
  selection (fst (@_gather_info toy_random DemoMutation.store 1%Z ["c1"]))
    = Ok [("app.py", 0, 1)] /\
  snd (@llm_constrained_mutation Demo.naming toy_random DemoMutation.constant_backend
         Demo.config DemoMutation.store 0%Z [7%Z] ["c1"])
  <> snd (@llm_constrained_mutation Demo.naming toy_random DemoMutation.constant_backend
            Demo.config DemoMutation.store 1%Z [7%Z] ["c1"]).
Proof.
  split; [vm_compute; reflexivity|]. split; [vm_compute; reflexivity|].
  vm_compute. discriminate.
Qed.

(* ===================================================================== *)
(** * One individual and the batch *)
(* ===================================================================== *)

(** C8 as stated fails for constrained mutation.  The commit [c1] alone is
    mutated; together with [d1], whose only file is a README, the batch
    ends in [IndexError] and [c1] gets no offspring. *)
Lemma mutation_batch_aborts :
  (exists child,
     snd (@llm_constrained_mutation Demo.naming toy_random
            DemoMutation.constant_backend Demo.config DemoMutation.store
            0%Z [1%Z] ["c1"]) = Ok [child]) /\
  (exists files, list_files DemoMutation.store "d1" = Ok files /\
                 eligible_files files = []) /\
  snd (@llm_constrained_mutation Demo.naming toy_random
         DemoMutation.constant_backend Demo.config DemoMutation.store
         0%Z [1%Z; 2%Z] ["c1"; "d1"]) = Raise IndexError.
Proof.
  split; [eexists; vm_compute; reflexivity|].
  split; [eexists; split; vm_compute; reflexivity|].
  vm_compute. reflexivity.
Qed.

Lemma mapM_ok_map {A B} (f : A -> result B) (h : A -> B) (l : list A) :
  (forall x, x ∈ l -> f x = Ok (h x)) -> mapM f l = Ok (map h l).
Proof.
  induction l as [|x l IH]; intros Hf; [reflexivity|].
  cbn [mapM map]. rewrite (Hf x) by left. rsimpl.
  rewrite IH by (intros y Hy; apply Hf; right; exact Hy). reflexivity.
Qed.

Lemma zip_map_self {A B} (h : A -> B) (l : list A) :
  zip l (map h l) = map (fun x => (x, h x)) l.
Proof. induction l as [|x l IH]; [reflexivity|]. cbn. rewrite IH. reflexivity. Qed.

Lemma assoc_map_self {B} (h : string -> B) (l : list string) (k : string) :
  k ∈ l -> assoc k (map (fun x => (x, h x)) l) = Some (h k).
Proof.
  induction l as [|x l IH]; intros Hk; [inversion Hk|].
  cbn [map assoc]. destruct (String.eqb x k) eqn:E.
  - apply String.eqb_eq in E. subst. reflexivity.
  - apply IH. apply elem_of_cons in Hk as [->|Hk]; [|exact Hk].
    rewrite String.eqb_refl in E. discriminate.
Qed.

Section Batch.
Context `{PyJson} `{EvalCommand} `{ChatClient}.

Lemma add_note_objects r r' c note overwrite :
  add_note r c note overwrite = Ok r' -> objects r' = objects r.
Proof.
  unfold add_note. destruct (objects r !! c); [|discriminate].
  destruct (notes r !! c); [destruct overwrite|]; try discriminate;
    intros [= <-]; reflexivity.
Qed.

Lemma add_note_forced r c note :
  is_Some (objects r !! c) -> exists r', add_note r c note true = Ok r'.
Proof.
  intros [o Ho]. unfold add_note. rewrite Ho.
  destruct (notes r !! c); eauto.
Qed.

(** Forced notes on known commits are all written. *)
Lemma update_notes_all commits :
  forall results r,
    (forall c, c ∈ commits -> is_Some (objects r !! c)) ->
    snd (update_notes r commits results) = Ok tt.
Proof.
  induction commits as [|c commits IH]; intros results r Hc; [reflexivity|].
  destruct results as [|res results]; [reflexivity|]. cbn [update_notes].
  destruct (add_note_forced r c (json_dumps res)) as [r' Hr']; [apply Hc; left|].
  rewrite Hr'. apply IH. intros c' Hc'.
  rewrite (add_note_objects _ _ _ _ _ Hr'). apply Hc. right. exact Hc'.
Qed.

Lemma decode_result_cost_of x :
  ran x = true ->
  decode_result (record_of x) illegal_cost = Ok (cost_of x).
Proof.
  intros Hx. unfold cost_of.
  destruct (decode_result_total (record_of x) illegal_cost
              (JBool (match x with Completed _ _ => false | _ => true end)))
    as [p Hp].
  - destruct x; reflexivity.
  - rewrite Hp. reflexivity.
Qed.

(** What [pack] lets through it hands back as it is. *)
Lemma pack_ok fitness : is_ok (pack fitness) = true -> pack fitness = Ok fitness.
Proof.
  unfold pack. destruct (tensor_type _) as [[shape []]|]; try discriminate.
  - destruct (forallb _ _); discriminate.
  - reflexivity.
Qed.

Lemma promote_float_l t : promote Float32 t = Float32.
Proof. destruct t; reflexivity. Qed.

Lemma promote_float_r t : promote t Float32 = Float32.
Proof. destruct t; reflexivity. Qed.

Lemma tensor_type_scalar v t : scalar_type v = Some t -> tensor_type v = Some ([], t).
Proof. destruct v; simpl; congruence. Qed.

(** A pair of numbers is a row of two items. *)
Lemma tensor_type_row a b ta tb :
  scalar_type a = Some ta -> scalar_type b = Some tb ->
  tensor_type (JList [a; b]) = Some ([2], promote ta tb).
Proof.
  intros Ha Hb. cbn [tensor_type agree].
  rewrite (tensor_type_scalar _ _ Ha), (tensor_type_scalar _ _ Hb).
  rewrite bool_decide_eq_true_2 by reflexivity. reflexivity.
Qed.

Lemma tensor_type_cons x l shape t t' :
  tensor_type x = Some (shape, t) ->
  agree tensor_type shape l t = Some t' ->
  tensor_type (JList (x :: l)) = Some (length (x :: l) :: shape, t').
Proof. intros Hx Ha. simpl. rewrite Hx, Ha. reflexivity. Qed.

Lemma agree_rows fitness :
  Forall numbers fitness ->
  forall t, exists t',
    agree tensor_type [2] (map (fun p => JList [fst p; snd p]) fitness) t = Some t' /\
    (t = Float32 \/ Exists has_float fitness -> t' = Float32).
Proof.
  induction 1 as [|p fitness [[ta Ha] [tb Hb]] _ IH]; intros t.
  - exists t. split; [reflexivity|]. intros [->|Hex]; [reflexivity|inversion Hex].
  - cbn [map agree]. rewrite (tensor_type_row _ _ _ _ Ha Hb).
    rewrite bool_decide_eq_true_2 by reflexivity.
    destruct (IH (promote t (promote ta tb))) as (t' & Ht' & Hfloat).
    exists t'. split; [exact Ht'|].
    intros [->|Hex]; apply Hfloat.
    + left. apply promote_float_l.
    + apply Exists_cons in Hex as [[Hf|Hf]|Hex]; [left|left|right; exact Hex].
      * rewrite Hf in Ha. injection Ha as <-.
        rewrite promote_float_l. apply promote_float_r.
      * rewrite Hf in Hb. injection Hb as <-.
        rewrite promote_float_r. apply promote_float_r.
Qed.

(** Pairs of numbers with a float among them go through [pack]: the
    illegal value is a float, so a batch with one failed individual and
    numbers elsewhere is packed. *)
Lemma pack_numbers fitness :
  Forall numbers fitness -> Exists has_float fitness -> pack fitness = Ok fitness.
Proof.
  intros Hnum Hfloat. unfold pack.
  destruct Hnum as [|p fitness [[ta Ha] [tb Hb]] Hnum]; [inversion Hfloat|].
  destruct (agree_rows fitness Hnum (promote ta tb)) as (t' & Ht' & Hf).
  cbn [map].
  rewrite (tensor_type_cons _ _ _ _ _ (tensor_type_row _ _ _ _ Ha Hb) Ht').
  rewrite Hf; [reflexivity|].
  apply Exists_cons in Hfloat as [[Hp|Hp]|Hex]; [left|left|right; exact Hex].
  - rewrite Hp in Ha. injection Ha as <-. apply promote_float_l.
  - rewrite Hp in Hb. injection Hb as <-. apply promote_float_r.
Qed.

Lemma cost_of_timeout : cost_of TimeoutExpired = (illegal_cost, illegal_cost).
Proof. reflexivity. Qed.

Lemma evaluate_code_ran config r c :
  reevaluate config = true \/ read_note r c = None ->
  ran (run_eval c) = true ->
  evaluate_code config r c = Ok (record_of (run_eval c)).
Proof.
  intros Hfresh Hran. unfold evaluate_code.
  assert (Hc : (if reevaluate config then None else read_note r c) = None).
  { destruct Hfresh as [-> | ->]; [reflexivity|]. destruct (reevaluate config); reflexivity. }
  rewrite Hc. destruct (run_eval c); try discriminate; reflexivity.
Qed.

(** The request loop goes on to the first attempt that answers. *)
Lemma request_loop_first left q content :
  forall k n,
    (forall j, j < n -> complete q (k + j) = None) ->
    complete q (k + n) = Some content ->
    n < left ->
    request_loop left k q = Ok content.
Proof.
  induction left as [|left IH]; intros k n Hfail Hok Hlt; [lia|].
  cbn [request_loop]. destruct n as [|n].
  - rewrite Nat.add_0_r in Hok. rewrite Hok. reflexivity.
  - pose proof (Hfail 0 ltac:(lia)) as Hnow. rewrite Nat.add_0_r in Hnow. rewrite Hnow.
    apply (IH (S k) n); [|rewrite <- Hok; f_equal; lia|lia].
    intros j Hj. rewrite <- (Hfail (S j)) by lia. f_equal. lia.
Qed.

(** C8, as the code has it.  In batch evaluation no individual's failed run
    ends the batch: when every commit of the population is known, has no
    note to reuse (or re-evaluation is forced) and its evaluation command
    completes, with any status and any output, or times out, and the
    decoded pairs make up a float tensor, the batch returns one pair for
    every individual, the pair decoded from its own run, which for a
    timeout is the illegal value twice.  And a request to the TGI backend
    that fails is tried again: the first answer within [num_retry] attempts
    is the result. *)
Theorem one_failure_does_not_abort config r pop :
  (forall c, c ∈ pop ->
     is_Some (objects r !! c) /\
     (reevaluate config = true \/ read_note r c = None) /\
     ran (run_eval c) = true) ->
  is_ok (pack (map (fun c => cost_of (run_eval c)) pop)) = true ->
  snd (evaluate config r pop) = Ok (map (fun c => cost_of (run_eval c)) pop) /\
  (forall c, c ∈ pop ->
     decode_result (record_of (run_eval c)) illegal_cost = Ok (cost_of (run_eval c)) /\
     (run_eval c = TimeoutExpired -> cost_of (run_eval c) = (illegal_cost, illegal_cost))) /\
  (forall seed q n content,
     (Z.of_nat (String.length q) <= 400000)%Z ->
     (forall j, j < n -> complete q j = None) ->
     complete q n = Some content ->
     n < num_retry ->
     _one_restful_request (seed, q) = Ok content).
Proof.
  intros Hpop Hpack.
  assert (Hu : forall c, c ∈ unique pop -> c ∈ pop)
    by (intros c Hc; apply elem_of_remove_dups; exact Hc).
  split; [|split].
  - unfold evaluate.
    destruct (mapM_ok_intro (add_temp_worktree r) (unique pop)) as [ws Hws].
    { intros c Hc. destruct (Hpop c (Hu c Hc)) as ([o Ho] & _ & _).
      unfold add_temp_worktree. rewrite Ho. eauto. }
    unfold prepare_temp_worktrees. rewrite Hws.
    rewrite (mapM_ok_map _ (fun c => record_of (run_eval c))).
    2:{ intros c Hc. destruct (Hpop c (Hu c Hc)) as (_ & Hf & Hr).
        apply evaluate_code_ran; assumption. }
    pose proof (update_notes_all (unique pop)
                  (map (fun c => record_of (run_eval c)) (unique pop)) r) as Hn.
    destruct (update_notes r (unique pop) _) as [r' [[]|e]]; cbn [snd] in *.
    2:{ discriminate Hn. intros c Hc. apply (Hpop c (Hu c Hc)). }
    rewrite zip_map_self.
    rewrite (mapM_ok_map _ (fun cr : string * json =>
                              (fst cr, cost_of (run_eval (fst cr))))).
    2:{ intros [c o] Hco. apply list_elem_of_fmap in Hco as (c' & [= -> ->] & Hc').
        cbn [fst snd]. destruct (Hpop c' (Hu c' Hc')) as (_ & _ & Hr).
        rewrite (decode_result_cost_of _ Hr). reflexivity. }
    rsimpl. rewrite map_map. cbn [fst].
    rewrite (mapM_ok_map _ (fun c => cost_of (run_eval c))).
    2:{ intros c Hc.
        rewrite (assoc_map_self (fun c => cost_of (run_eval c))); [reflexivity|].
        unfold unique. apply elem_of_remove_dups. exact Hc. }
    rsimpl. apply pack_ok. exact Hpack.
  - intros c Hc. destruct (Hpop c Hc) as (_ & _ & Hr). split.
    + apply decode_result_cost_of. exact Hr.
    + intros ->. apply cost_of_timeout.
  - intros seed q n content Hlen Hfail Hok Hn.
    unfold _one_restful_request.
    destruct (Z.ltb_spec 400000 (Z.of_nat (String.length q))) as [Hlong|_]; [lia|].
    apply (request_loop_first num_retry q content 0 n); assumption.
Qed.
End Batch.

(* ===================================================================== *)
(** * The numeric merge drivers *)
(* ===================================================================== *)

Lemma driver2_blend2 uniform ancestor parent1 parent2 :
  same_shape ancestor parent1 parent2 = true ->
  vector_merge_driver2 uniform ancestor parent1 parent2
  = Ok (blend2 ancestor parent1 parent2
          (uniform 0 (conflicts ancestor parent1 parent2))).
Proof. intros Hs. unfold vector_merge_driver2. rewrite Hs. reflexivity. Qed.

(** The second driver, coordinate by coordinate. *)
Lemma blend2_blended2 ancestor :
  forall parent1 parent2 factor,
    length ancestor = length parent1 -> length parent1 = length parent2 ->
    length factor = conflicts ancestor parent1 parent2 ->
    blended2 ancestor parent1 parent2 factor
             (blend2 ancestor parent1 parent2 factor).
Proof.
  induction ancestor as [|a ancestor IH];
    intros [|p1 parent1] [|p2 parent2] factor H1 H2 Hf; try discriminate.
  - destruct factor; [constructor|discriminate].
  - injection H1 as H1. injection H2 as H2.
    unfold blend2, conflicts in *.
    cbn [vsub vadd vmul zip_with] in *.
    destruct (nonzero (p1 - a) && nonzero (p2 - a)) eqn:Hc.
    + cbn [select length] in Hf.
      destruct factor as [|f factor]; [discriminate|]. injection Hf as Hf.
      cbn [select map zip_with assign].
      apply blended2_conflict; [exact Hc|]. apply IH; assumption.
    + cbn [select assign] in *.
      apply blended2_plain; [exact Hc|]. apply IH; assumption.
Qed.

(** A coordinate without a conflict is the ancestor plus the one delta
    that is not zero. *)
Lemma plain_coordinate (a p1 p2 : Q) :
  nonzero (p1 - a) && nonzero (p2 - a) = false ->
  (a + (p1 - a) + (p2 - a) == a + (p1 - a))%Q \/
  (a + (p1 - a) + (p2 - a) == a + (p2 - a))%Q.
Proof.
  intros Hc. apply andb_false_iff in Hc as [Hc|Hc];
    apply negb_false_iff, Qeq_bool_iff in Hc; [right|left]; rewrite Hc; ring.
Qed.

(** The blend of a conflict lies between the two deltas. *)
Lemma conflict_coordinate (d1 d2 f : Q) :
  (0 <= f)%Q -> (f <= 1)%Q -> between d1 d2 (d1 * f + d2 * (1 - f))%Q.
Proof.
  intros H0 H1. unfold between.
  destruct (Qlt_le_dec d2 d1) as [Hlt|Hle]; [right|left]; split; nra.
Qed.

(** C2, where the code leaves it.  Ancestor 10, first parent 11, second
    parent 12, factor one half: both deltas are non-zero, and the second
    driver saves 3/2 at that coordinate, the blend of the deltas 1 and 2
    without the ancestor, far below the interval from 11 to 12.  The first
    driver, on a coordinate that only the second parent changed (5, 5, 6),
    saves 5 + 1/2 and not 6. *)
Theorem vector_merge_misses_interval :
  (exists x y z,
     vector_merge_driver2 halves [10#1; 5#1; 7#1] [11#1; 5#1; 7#1] [12#1; 6#1; 7#1]
       = Ok [x; y; z] /\
     (x == 3 # 2)%Q /\ ~ between (10 + 1)%Q (10 + 2)%Q x /\
     (y == 5 + 1)%Q /\ (z == 7)%Q) /\
  (exists x y,
     vector_merge_driver1 halves [10#1; 5#1] [11#1; 5#1] [12#1; 6#1] = Ok [x; y] /\
     (y == 11 # 2)%Q /\ ~ (y == 5 + 1)%Q).
Proof.
  split.
  - eexists _, _, _. split; [vm_compute; reflexivity|].
    split; [reflexivity|]. split; [|split; reflexivity].
    intros [[Hl _]|[Hl _]]; apply Qle_bool_iff in Hl; vm_compute in Hl; discriminate.
  - eexists _, _. split; [vm_compute; reflexivity|].
    split; [reflexivity|]. intros Heq. apply Qeq_bool_iff in Heq.
    vm_compute in Heq. discriminate.
Qed.

(** C8 on a population of three: the individual on [c1], twice in the
    population, times out; the one on [d1] finishes.  And a request that
    the client fails twice is answered at the third attempt. *)
Lemma one_failure_does_not_abort_witness :
  snd (@evaluate mini_json DemoBatch.mixed Demo.config DemoMutation.store
         ["c1"; "d1"; "c1"])
  = Ok [(illegal_cost, illegal_cost); (JNum 5, JNum 1); (illegal_cost, illegal_cost)]
  /\ @_one_restful_request DemoBatch.flaky (7%Z, "prompt") = Ok "prompt".
Proof.
  assert (Hpop : forall c, c ∈ ["c1"; "d1"; "c1"] ->
            is_Some (objects DemoMutation.store !! c) /\
            (reevaluate Demo.config = true \/ read_note DemoMutation.store c = None) /\
            ran (@run_eval DemoBatch.mixed c) = true).
  { intros c Hc.
    repeat (apply elem_of_cons in Hc as [->|Hc]);
      try (apply elem_of_nil in Hc; destruct Hc);
      (split; [eexists; vm_compute; reflexivity|];
       split; [right; vm_compute; reflexivity|vm_compute; reflexivity]). }
  destruct (@one_failure_does_not_abort mini_json DemoBatch.mixed DemoBatch.flaky
              Demo.config DemoMutation.store ["c1"; "d1"; "c1"] Hpop
              ltac:(vm_compute; reflexivity)) as (Hbatch & _ & Hretry).
  split.
  - rewrite Hbatch. vm_compute. reflexivity.
  - apply (Hretry 7%Z "prompt" 2 "prompt").
    + vm_compute. discriminate.
    + intros [|[|j]] Hj; [reflexivity|reflexivity|lia].
    + reflexivity.
    + unfold num_retry. lia.
Defined.

(** The flaky client is asked three times and then answers. *)
Example third_attempt_answers :
  @_one_restful_request DemoBatch.flaky (7%Z, "prompt") = Ok "prompt".
Proof. vm_compute. reflexivity. Qed.

(* ===================================================================== *)
(** * More on conflict resolution *)
(* ===================================================================== *)

(** What a match is made of: the text before it, the three markers, each
    with the rest of its line, and the two groups. *)
Lemma search_conflict_split s before o t rest :
  search_conflict s = Some (before, o, t, rest) ->
  exists l1 l2 l3,
    s = before +:+ marker_ours +:+ l1 +:+ newline +:+ o +:+ marker_sep +:+ l2
        +:+ newline +:+ t +:+ marker_theirs +:+ l3 +:+ newline +:+ rest.
Proof.
  unfold search_conflict.
  destruct (find marker_ours s) as [[b0 r0]|] eqn:H0; [|discriminate].
  destruct (find newline r0) as [[b1 r1]|] eqn:H1; [|discriminate].
  destruct (find marker_sep r1) as [[b2 r2]|] eqn:H2; [|discriminate].
  destruct (find newline r2) as [[b3 r3]|] eqn:H3; [|discriminate].
  destruct (find marker_theirs r3) as [[b4 r4]|] eqn:H4; [|discriminate].
  destruct (find newline r4) as [[b5 r5]|] eqn:H5; [|discriminate].
  intros [= <- <- <- <-].
  apply find_split in H0, H1, H2, H3, H4, H5. subst.
  exists b1, b3, b5. reflexivity.
Qed.

Lemma sub_from_outcome fuel :
  forall iterator content,
    match sub_from fuel iterator content with
    | Ok _ => length (findall_from fuel content) <= length iterator
    | Raise e => e = StopIteration /\
                 length iterator < length (findall_from fuel content)
    end.
Proof.
  induction fuel as [|fuel IH]; intros iterator content; cbn [sub_from findall_from].
  - simpl. lia.
  - destruct (search_conflict content) as [[[[before o] t] rest]|]; [|simpl; lia].
    destruct iterator as [|accept_ours iterator]; [simpl; split; [reflexivity|lia]|].
    specialize (IH iterator rest).
    destruct (sub_from fuel iterator rest) as [tail|e]; rsimpl; simpl; [lia|].
    destruct IH as [-> IH]. split; [reflexivity|lia].
Qed.

(** X1.  [handle_conflict] on any text at all: it goes through exactly
    when the strategy has an element for every match that
    [count_conflicts] counts, and otherwise ends in [StopIteration]; so the
    strategy that [git_merge] and [git_rebase] draw, of [count_conflicts]
    elements, is always long enough. *)
Theorem handle_conflict_needs_count strategy content :
  match handle_conflict_in strategy content with
  | Ok _ => count_conflicts_in content <= length strategy
  | Raise e => e = StopIteration /\ length strategy < count_conflicts_in content
  end.
Proof.
  unfold handle_conflict_in, count_conflicts_in, findall.
  apply sub_from_outcome.
Qed.

Lemma sub_from_length fuel :
  forall iterator content out,
    sub_from fuel iterator content = Ok out ->
    String.length out + 24 * length (findall_from fuel content)
    <= String.length content.
Proof.
  induction fuel as [|fuel IH]; intros iterator content out;
    cbn [sub_from findall_from].
  - intros [= <-]. simpl. lia.
  - destruct (search_conflict content) as [[[[before o] t] rest]|] eqn:Hs.
    2:{ intros [= <-]. simpl. lia. }
    destruct iterator as [|accept_ours iterator]; [discriminate|].
    destruct (sub_from fuel iterator rest) as [tail|e] eqn:Ht; [|discriminate].
    rsimpl. intros [= <-].
    apply IH in Ht.
    apply search_conflict_split in Hs as (l1 & l2 & l3 & ->).
    rewrite !app_length. cbn [length].
    change (String.length marker_ours) with 7.
    change (String.length marker_sep) with 7.
    change (String.length marker_theirs) with 7.
    change (String.length newline) with 1.
    destruct accept_ours; lia.
Qed.

(** X2.  Resolving conflicts only takes text away: every match loses at
    least its three markers and three line ends, 24 characters, so the
    resolved text is at least 24 characters shorter for each conflict
    counted. *)
Theorem handle_conflict_shrinks strategy content out :
  handle_conflict_in strategy content = Ok out ->
  String.length out + 24 * count_conflicts_in content <= String.length content.
Proof.
  unfold handle_conflict_in, count_conflicts_in, findall. apply sub_from_length.
Qed.

Lemma handle_conflict_shrinks_witness :
  String.length (DemoConflict.line "Title")
  + 24 * count_conflicts_in (render DemoConflict.underlined EmptyString)
  <= String.length (render DemoConflict.underlined EmptyString).
Proof.
  apply (handle_conflict_shrinks [true]). vm_compute. reflexivity.
Defined.

(** X3.  On a file with N well-formed conflict blocks [count_conflicts]
    answers N, and the pairs that [findall] returns are the two sides of the
    blocks, in order. *)
Theorem count_conflicts_blocks blocks tail :
  well_formed blocks tail = true ->
  count_conflicts_in (render blocks tail) = length blocks /\
  findall (render blocks tail)
  = map (fun pb => (ours (snd pb), theirs (snd pb))) blocks.
Proof.
  intros Hwf.
  assert (Hf : findall (render blocks tail)
               = map (fun pb => (ours (snd pb), theirs (snd pb))) blocks).
  { unfold findall. apply findall_from_render; [exact Hwf|].
    pose proof (render_length blocks tail). lia. }
  split; [|exact Hf].
  unfold count_conflicts_in. rewrite Hf. apply length_map.
Qed.

(** X3 at the file with two conflicts. *)
Lemma count_conflicts_blocks_witness :
  count_conflicts_in (render DemoConflict.blocks DemoConflict.tail) = 2.
Proof.
  apply (proj1 (count_conflicts_blocks DemoConflict.blocks DemoConflict.tail
                  ltac:(vm_compute; reflexivity))).
Defined.

(* ===================================================================== *)
(** * Commit ids as byte arrays *)
(* ===================================================================== *)

Lemma hex_digit_value d : (d < 16)%N -> digit_value (hex_digit d) = Some d.
Proof.
  intros Hd.
  assert (Hc : In d (map N.of_nat (seq 0 16))).
  { apply in_map_iff. exists (N.to_nat d). split; [lia|]. apply in_seq. lia. }
  simpl in Hc.
  repeat (destruct Hc as [<-|Hc]; [vm_compute; reflexivity|]). destruct Hc.
Qed.

Lemma hex_digit_no_space d : (d < 16)%N -> hex_space (hex_digit d) = false.
Proof.
  intros Hd.
  assert (Hc : In d (map N.of_nat (seq 0 16))).
  { apply in_map_iff. exists (N.to_nat d). split; [lia|]. apply in_seq. lia. }
  simpl in Hc.
  repeat (destruct Hc as [<-|Hc]; [vm_compute; reflexivity|]). destruct Hc.
Qed.

Lemma fromhex_array_to_hex (array : list Byte.byte) :
  fromhex (array_to_hex array) = Ok array.
Proof.
  induction array as [|b array IH]; [reflexivity|].
  pose proof (Byte.to_N_bounded b) as Hb.
  assert (Hhi : (Byte.to_N b / 16 < 16)%N)
    by (apply N.Div0.div_lt_upper_bound; lia).
  assert (Hlo : (Byte.to_N b mod 16 < 16)%N) by (apply N.mod_lt; lia).
  cbn [array_to_hex fromhex].
  rewrite (hex_digit_no_space _ Hhi), (hex_digit_value _ Hhi),
    (hex_digit_value _ Hlo).
  replace (Byte.to_N b / 16 * 16 + Byte.to_N b mod 16)%N with (Byte.to_N b)
    by (rewrite (N.div_mod (Byte.to_N b) 16) at 1; lia).
  rewrite Byte.of_to_N, IH. reflexivity.
Qed.

(** X4.  The two conversions of a commit id are a round trip: the text
    that [array_to_hex] writes for a byte array that is not empty is read
    back by [hex_to_array] as that array, and it has two characters for
    each byte.  (For the empty array the text is empty, and
    [torch.frombuffer] raises on it.) *)
Theorem hex_round_trip (array : list Byte.byte) :
  array <> [] ->
  hex_to_array (array_to_hex array) = Ok array /\
  String.length (array_to_hex array) = 2 * length array.
Proof.
  intros Hne. split.
  - unfold hex_to_array. rewrite fromhex_array_to_hex. rsimpl.
    destruct array; [congruence|reflexivity].
  - clear Hne. induction array as [|b array IH]; [reflexivity|].
    cbn [array_to_hex String.length length]. rewrite IH. lia.
Qed.

Lemma hex_round_trip_witness :
  hex_to_array (array_to_hex [Byte.x00; Byte.x7f; Byte.xff])
    = Ok [Byte.x00; Byte.x7f; Byte.xff] /\
  String.length (array_to_hex [Byte.x00; Byte.x7f; Byte.xff]) = 2 * 3.
Proof. apply (hex_round_trip [Byte.x00; Byte.x7f; Byte.xff]). discriminate. Defined.

(* ===================================================================== *)
(** * Commit messages *)
(* ===================================================================== *)

Lemma keep_chars_all p s : all_chars p (keep_chars p s) = true.
Proof.
  induction s as [|c r IH]; [reflexivity|]. simpl.
  destruct (p c) eqn:E; [simpl; rewrite E|]; exact IH.
Qed.

Lemma keep_chars_id p s : all_chars p s = true -> keep_chars p s = s.
Proof.
  induction s as [|c r IH]; [reflexivity|]. simpl.
  intros [Hc Hr]%andb_true_iff. rewrite Hc, (IH Hr). reflexivity.
Qed.

Lemma prefix_all p n s :
  all_chars p s = true -> all_chars p (String.substring 0 n s) = true.
Proof.
  revert s. induction n as [|n IH]; intros [|c r]; try reflexivity. simpl.
  intros [Hc Hr]%andb_true_iff. rewrite Hc. apply IH, Hr.
Qed.

Lemma prefix_length n s : String.length (String.substring 0 n s) <= n.
Proof.
  revert s. induction n as [|n IH]; intros [|c r]; simpl; try lia.
  specialize (IH r). lia.
Qed.

Lemma prefix_short n s :
  String.length s <= n -> String.substring 0 n s = s.
Proof.
  revert s. induction n as [|n IH]; intros [|c r]; simpl; try reflexivity;
    try lia.
  intros Hl. rewrite IH by lia. reflexivity.
Qed.

(** X5.  What [update_file] and [commit_changes_in_worktree] hand to git as
    the message holds only characters the pattern lets through and at most
    256 of them; sanitising a second time changes nothing, and a message
    that already fits is kept as it is. *)
Theorem sanitize_message_safe m :
  all_chars message_char (sanitize_message m) = true /\
  String.length (sanitize_message m) <= 256 /\
  sanitize_message (sanitize_message m) = sanitize_message m /\
  (all_chars message_char m = true -> String.length m <= 256 ->
   sanitize_message m = m).
Proof.
  unfold sanitize_message. generalize 256. intros n.
  assert (Hall : all_chars message_char
            (String.substring 0 n (keep_chars message_char m)) = true)
    by apply prefix_all, keep_chars_all.
  split; [exact Hall|]. split; [apply prefix_length|]. split.
  - rewrite (keep_chars_id _ _ Hall). apply prefix_short, prefix_length.
  - intros Hm Hl. rewrite (keep_chars_id _ _ Hm). apply prefix_short, Hl.
Qed.

Lemma sanitize_message_safe_witness :
  all_chars message_char (sanitize_message "fix: bounds") = true /\
  String.length (sanitize_message "fix: bounds") <= 256 /\
  sanitize_message (sanitize_message "fix: bounds") = sanitize_message "fix: bounds" /\
  sanitize_message "fix: bounds" = "fix: bounds".
Proof.
  destruct (sanitize_message_safe "fix: bounds") as (H1 & H2 & H3 & H4).
  split; [exact H1|]. split; [exact H2|]. split; [exact H3|].
  apply H4; [vm_compute; reflexivity|vm_compute; lia].
Defined.

(** X6.  A message with no character the pattern lets through is
    sanitised to the empty message, and git refuses to commit with it.
    Where [update_file] gets as far as writing (the checkout goes through,
    the file is there, what is read from it differs from the new content,
    and the new content can be written), it raises [CalledProcessError]
    (from [git commit], [check=True]) instead of committing, and leaves the
    new content on disk and staged. *)
Theorem update_file_unusable_message `{GitHash} `{TextIO} config r g r1
    new_content msg file bytes current new_bytes :
  checkout r g = Ok r1 ->
  wt_files (top r1) !! default (filename config) file = Some bytes ->
  read_in_mode new_content bytes = Ok current ->
  current <> new_content ->
  written new_content = Ok new_bytes ->
  keep_chars message_char msg = EmptyString ->
  update_file config r g new_content msg file
  = (set_top r1 (git_add (write_file (top r1) (default (filename config) file)
                            new_bytes)
                   (default (filename config) file)),
     Raise CalledProcessError).
Proof.
  intros Hg Hc Hread Hne Hw Hmsg. unfold update_file.
  rewrite Hg, Hc, Hread. rewrite bool_decide_eq_false_2 by exact Hne.
  rewrite Hw. unfold git_commit, sanitize_message. rewrite Hmsg. reflexivity.
Qed.

Lemma update_file_unusable_message_witness :
  snd (@update_file Demo.naming Demo.ascii_text Demo.config Demo.repo0 "a1"
         (Str "value=1") "(!)" (Some "main.py")) = Raise CalledProcessError /\
  wt_index (top (fst (@update_file Demo.naming Demo.ascii_text Demo.config
                        Demo.repo0 "a1" (Str "value=1") "(!)" (Some "main.py"))))
    !! "main.py" = Some "value=1".
Proof.
  rewrite (@update_file_unusable_message Demo.naming Demo.ascii_text
             Demo.config Demo.repo0 "a1"
             (checked_out Demo.repo0 "a1" Demo.seed_commit)
             (Str "value=1") "(!)" (Some "main.py") "value=0" (Str "value=0")
             "value=1").
  - split; vm_compute; reflexivity.
  - vm_compute. reflexivity.
  - vm_compute. reflexivity.
  - vm_compute. reflexivity.
  - discriminate.
  - vm_compute. reflexivity.
  - vm_compute. reflexivity.
Defined.

(** With the change already made on disk, the same call finds nothing to
    write and returns before the message is looked at. *)
Example update_file_already_edited :
  snd (@update_file Demo.naming Demo.ascii_text Demo.config Demo.repo_edited
         "a1" (Str "value=1") "(!)" (Some "main.py")) = Ok tt.
Proof. vm_compute. reflexivity. Qed.

(* ===================================================================== *)
(** * Decoding outside the documented record *)
(* ===================================================================== *)

(** X7.  The only exception that leaves [decode_result] is the one of the
    lookup [output["timeout"]], which stands before the [try]: when the
    lookup succeeds a pair is returned whatever the rest of the output
    holds, and when it raises, that exception is the outcome. *)
Theorem decode_result_raises_only_on_timeout_lookup `{PyJson}
    (output illegal_value : json) :
  match getitem output "timeout" with
  | Ok _ => exists r, decode_result output illegal_value = Ok r
  | Raise e => decode_result output illegal_value = Raise e
  end.
Proof.
  destruct (getitem output "timeout") as [t|e] eqn:Ht.
  - eapply decode_result_total. exact Ht.
  - unfold decode_result. rewrite Ht. reflexivity.
Qed.

(* ===================================================================== *)
(** * Constrained mutation: the section and the prompt *)
(* ===================================================================== *)

Lemma split_char_length c s : 1 <= length (split_char c s).
Proof.
  induction s as [|x r IH]; [simpl; lia|]. simpl.
  destruct (Ascii.eqb x c); [simpl; lia|].
  destruct (split_char c r); simpl in *; lia.
Qed.

Lemma join_cons sep x y l :
  join sep (x :: y :: l) = x +:+ sep +:+ join sep (y :: l).
Proof. reflexivity. Qed.

Lemma str_app_assoc (a b c : string) : (a +:+ b) +:+ c = a +:+ (b +:+ c).
Proof.
  induction a as [|x a IH]; [reflexivity|].
  rewrite !app_cons, IH. reflexivity.
Qed.

(** Splitting a text into lines and joining the lines gives the text. *)
Lemma join_split s : join newline (split_char nl s) = s.
Proof.
  induction s as [|x r IH]; [reflexivity|]. cbn [split_char].
  pose proof (split_char_length nl r) as Hl.
  destruct (Ascii.eqb x nl) eqn:E.
  - apply Ascii.eqb_eq in E. subst x.
    destruct (split_char nl r) as [|h t]; [simpl in Hl; lia|].
    rewrite join_cons, IH. reflexivity.
  - destruct (split_char nl r) as [|h t]; [simpl in Hl; lia|].
    destruct t as [|h' t].
    + simpl in *. congruence.
    + rewrite join_cons in *. rewrite app_cons. congruence.
Qed.

Lemma join_inner sep m b :
  m <> [] -> join sep (join sep m :: b) = join sep (m ++ b).
Proof.
  induction m as [|x m IH]; [congruence|]. intros _.
  destruct m as [|y m]; [reflexivity|].
  change ((x :: y :: m) ++ b)%list with (x :: y :: (m ++ b))%list.
  rewrite (join_cons sep x y (m ++ b)).
  change (y :: (m ++ b))%list with ((y :: m) ++ b)%list.
  rewrite <- IH by discriminate.
  rewrite (join_cons sep x y m).
  destruct b as [|z b]; [reflexivity|].
  rewrite !join_cons, !str_app_assoc. reflexivity.
Qed.

Lemma join_flatten sep a m b :
  m <> [] -> join sep (a ++ join sep m :: b) = join sep (a ++ m ++ b).
Proof.
  intros Hm. induction a as [|x a IH]; [exact (join_inner _ _ _ Hm)|].
  destruct a as [|y a].
  - change ([x] ++ join sep m :: b)%list with (x :: join sep m :: b).
    rewrite join_cons, (join_inner _ _ _ Hm).
    destruct m as [|z m]; [congruence|]. reflexivity.
  - change ((x :: y :: a) ++ join sep m :: b)%list
      with (x :: y :: (a ++ join sep m :: b))%list.
    change ((x :: y :: a) ++ m ++ b)%list with (x :: y :: (a ++ m ++ b))%list.
    rewrite !join_cons.
    change (y :: (a ++ join sep m :: b))%list
      with ((y :: a) ++ join sep m :: b)%list.
    rewrite IH. reflexivity.
Qed.

Section Mutation.
Context `{PyRandom}.

Lemma generate_random_section_bounds g n :
  let '(random_start, random_end, _) := _generate_random_section g n in
  random_start <= random_end <= n /\
  random_end - random_start = Nat.min n (random_end - random_start) /\
  random_end - random_start <= 128 /\
  (64 <= n -> 64 <= random_end - random_start) /\
  (n <= 64 -> random_start = 0 /\ random_end = n).
Proof.
  unfold _generate_random_section.
  pose proof (rng_randint_range g 64 128 ltac:(lia)) as Hl.
  destruct (rng_randint g 64 128) as [l g1]. cbn [fst] in Hl.
  set (len := if (Z.of_nat n <? l)%Z then Z.of_nat n else l).
  assert (Hlen : (len = Z.min (Z.of_nat n) l)%Z).
  { unfold len. destruct (Z.ltb_spec (Z.of_nat n) l); lia. }
  pose proof (rng_randint_range g1 0 (Z.of_nat n - len) ltac:(lia)) as Hs.
  destruct (rng_randint g1 0 (Z.of_nat n - len)) as [s g2]. cbn [fst] in Hs.
  lia.
Qed.
End Mutation.

(** X8.  The section [_generate_random_section] draws lies inside the
    file: [start <= end <= n_lines].  It has at most 128 lines, at least
    64 when the file has that many, and a file of at most 64 lines is
    taken whole. *)
Theorem generate_random_section_in_file `{PyRandom} (g : rng) (n_lines : nat) :
  let '(random_start, random_end, _) := _generate_random_section g n_lines in
  random_start <= random_end <= n_lines /\
  random_end - random_start <= 128 /\
  (64 <= n_lines -> 64 <= random_end - random_start) /\
  (n_lines <= 64 -> random_start = 0 /\ random_end = n_lines).
Proof.
  pose proof (generate_random_section_bounds g n_lines) as Hb.
  destruct (_generate_random_section g n_lines) as [[s e] g'].
  destruct Hb as (H1 & _ & H2 & H3 & H4). auto.
Qed.

Lemma edited_code_same (i : info) (text : string) :
  info_code i = split_char nl text ->
  random_section_start i < random_section_end i <= length (info_code i) ->
  edited_code i
    (join newline
       (slice (random_section_start i) (random_section_end i) (info_code i)))
  = text.
Proof.
  intros Hcode [Hlt Hle]. unfold edited_code, slice.
  set (s := random_section_start i) in *. set (e := random_section_end i) in *.
  set (code := info_code i) in *.
  assert (Hm : take (e - s) (drop s code) <> []).
  { intros Hnil. apply (f_equal length) in Hnil.
    rewrite length_take, length_drop in Hnil. simpl in Hnil. lia. }
  rewrite (join_flatten _ _ _ _ Hm).
  replace (drop e code) with (drop (e - s) (drop s code))
    by (rewrite drop_drop; f_equal; lia).
  rewrite take_drop, take_drop. subst code. rewrite Hcode. apply join_split.
Qed.

(** X9.  When the model answers with the lines of the section as they
    are, the edited file is the file: [edited_code] cuts the section out
    and puts the answer in its place, and joining the lines gives back the
    text that was split. *)
Theorem edited_code_echo (i : info) (text : string) :
  info_code i = split_char nl text ->
  random_section_start i < random_section_end i <= length (info_code i) ->
  edited_code i
    (join newline
       (slice (random_section_start i) (random_section_end i) (info_code i)))
  = text.
Proof. apply edited_code_same. Qed.

Lemma edited_code_echo_witness :
  edited_code DemoSection.three_lines "b = 2" = DemoSection.three_lines_text.
Proof.
  apply (edited_code_echo DemoSection.three_lines DemoSection.three_lines_text).
  - vm_compute. reflexivity.
  - vm_compute. lia.
Defined.

Section Gather.
Context `{PyRandom}.

Lemma in_eligible_files f fl :
  In f (eligible_files fl) ->
  In f (split_char nl fl) /\
  in_list (extension f) text_file_extensions = true /\
  in_list f blacklist = false.
Proof.
  unfold eligible_files. rewrite !filter_In.
  intros [[[Hin _] Hext] Hbl]. apply negb_true_iff in Hbl. auto.
Qed.

Lemma gather_loop_sound r todo :
  forall g acc infos g',
    Forall (fun cw => add_temp_worktree r (fst cw) = Ok (snd cw)) todo ->
    gather_loop r g todo acc = (Ok infos, g') ->
    exists new,
      infos = (acc ++ new)%list /\
      map info_commit new = map fst todo /\
      Forall (gathered r) new.
Proof.
  induction todo as [|[commit w] todo IH]; intros g acc infos g' Hw.
  - intros [= <- <-]. exists []. rewrite app_nil_r. repeat constructor.
  - apply Forall_cons in Hw as [Hcw Hw]. cbn [fst snd] in Hcw.
    cbn [gather_loop].
    destruct (list_files r commit) as [fl|e] eqn:Hfl; [|discriminate].
    destruct (eligible_files fl) as [|f0 fs] eqn:Hel; [discriminate|].
    destruct (rng_index g (length (f0 :: fs))) as [k g1].
    destruct ((f0 :: fs) !! k) as [f|] eqn:Hk; [|discriminate].
    destruct (wt_files w !! f) as [text|] eqn:Hf; [|discriminate].
    pose proof (generate_random_section_bounds g1 (length (split_char nl text)))
      as Hb.
    destruct (_generate_random_section g1 (length (split_char nl text)))
      as [[s e] g2].
    intros Hloop. apply IH in Hloop as (new & -> & Hmap & Hall); [|exact Hw].
    eexists (_ :: new). split; [rewrite <- app_assoc; reflexivity|].
    split; [cbn [map fst info_commit]; rewrite Hmap; reflexivity|].
    constructor; [|exact Hall].
    assert (Hin : In f (eligible_files fl)).
    { rewrite Hel. apply list_elem_of_In. eapply list_elem_of_lookup_2, Hk. }
    apply in_eligible_files in Hin as (Hin & Hext & Hbl).
    pose proof (split_char_length nl text) as Hlen.
    destruct Hb as (Hse & _ & _ & H64 & Hsmall).
    unfold gathered. cbn.
    repeat match goal with |- _ /\ _ => split end; try assumption;
      try reflexivity; try lia.
    exists text. split; [assumption|reflexivity].
Qed.

Lemma gather_info_gathered r g commits infos g' :
  _gather_info r g commits = (Ok infos, g') ->
  map info_commit infos = commits /\ Forall (gathered r) infos.
Proof.
  unfold _gather_info, prepare_temp_worktrees.
  destruct (mapM (add_temp_worktree r) commits) as [ws|e] eqn:Hws;
    [|discriminate].
  pose proof (mapM_ok_Forall2 _ _ _ Hws) as Hf2.
  intros Hloop. apply gather_loop_sound in Hloop as (new & -> & Hmap & Hall).
  - split; [|exact Hall]. cbn [app]. rewrite Hmap.
    apply Forall2_length in Hf2. clear -Hf2.
    revert ws Hf2. induction commits as [|c cs IH]; intros [|w ws] Hl;
      simpl in *; try reflexivity; try lia.
    f_equal. apply IH. lia.
  - clear -Hf2. induction Hf2; constructor; assumption.
Qed.
End Gather.



Section MutationEcho.
Context `{GitHash} `{PyRandom} `{LLMBackend}.

Lemma echo_leaves_worktrees config r infos responses :
  Forall (gathered r) infos ->
  Forall2 echoes infos responses ->
  mapM (fun ir : info * response =>
          update_file_in_worktree config (info_worktree (fst ir))
            (Str (edited_code (fst ir) (code (snd ir))))
            (Some (random_file (fst ir))))
       (zip infos responses)
  = Ok (map info_worktree infos).
Proof.
  intros Hg He. induction He as [|i resp infos responses [Hcode _] He IH].
  - reflexivity.
  - apply Forall_cons in Hg as [Hi Hg].
    destruct Hi as (_ & _ & _ & _ & _ & (text & Hf & Hsplit) & Hn & Hsec).
    cbn [zip zip_with mapM fst snd map].
    rewrite update_file_in_worktree_same.
    + rsimpl. rewrite (IH Hg). reflexivity.
    + cbn [default payload]. rewrite Hcode, (edited_code_same i text); auto.
      rewrite <- Hn. exact Hsec.
Qed.

Lemma echo_adds_no_file (worktrees : list worktree) infos responses :
  length worktrees = length infos ->
  Forall2 echoes infos responses ->
  map (fun wr : worktree * response =>
         if String.eqb (lower (response_filename (snd wr))) "none"
         then fst wr
         else add_file_in_worktree (fst wr) (new_file_content (snd wr))
                (response_filename (snd wr)))
      (zip worktrees responses)
  = worktrees.
Proof.
  intros Hl He. revert worktrees Hl.
  induction He as [|i resp infos responses [_ Hnone] He IH];
    intros [|w ws] Hl; simpl in Hl; try reflexivity; try lia.
  cbn [zip zip_with map fst snd]. rewrite Hnone, String.eqb_refl.
  f_equal. apply IH. lia.
Qed.

Lemma commit_all_clean config r infos messages :
  length messages = length infos ->
  Forall (gathered r) infos ->
  commit_all config r (zip (map info_worktree infos) messages)
  = (r, map info_commit infos).
Proof.
  intros Hl Hg. revert messages Hl.
  induction Hg as [|i infos Hi Hg IH]; intros [|m ms] Hl; simpl in Hl;
    try reflexivity; try lia.
  cbn [map zip zip_with commit_all].
  destruct Hi as (Hw & _).
  unfold add_temp_worktree in Hw.
  destruct (objects r !! info_commit i) as [o|] eqn:Ho; [|discriminate].
  injection Hw as Hw.
  assert (Hst : staged_changes r (info_worktree i) = false).
  { unfold staged_changes. rewrite <- Hw. cbn [wt_head wt_index].
    rewrite Ho. apply bool_decide_eq_false. intros Hne. apply Hne. reflexivity. }
  unfold commit_changes_in_worktree. rewrite Hst. cbn [negb].
  rewrite (IH ms) by lia. rewrite <- Hw. reflexivity.
Qed.

(** X11.  A model that answers every prompt with the section as it is,
    and names no new file, leaves the population as it is:
    [llm_constrained_mutation] returns the parents themselves, in order,
    and the repository has no new commit. *)
Theorem mutation_echo_returns_parents config r g seeds commits infos g'
    answers responses :
  _gather_info r g commits = (Ok infos, g') ->
  query seeds (map (mutation_prompt config r) infos) = Ok answers ->
  mapM (respond_extractor config) answers = Ok responses ->
  Forall2 echoes infos responses ->
  llm_constrained_mutation config r g seeds commits = (r, g', Ok commits).
Proof.
  intros Hgather Hq Hx He.
  destruct (gather_info_gathered _ _ _ _ _ Hgather) as [Hmap Hg].
  unfold llm_constrained_mutation. rewrite Hgather, Hq. rsimpl.
  rewrite Hx. rsimpl.
  rewrite (echo_leaves_worktrees _ _ _ _ Hg He). rsimpl.
  rewrite (echo_adds_no_file _ infos) by (rewrite ?length_map; auto).
  rewrite commit_all_clean; [rewrite Hmap; reflexivity| |exact Hg].
  rewrite length_map. symmetry. eapply Forall2_length, He.
Qed.
End MutationEcho.

Lemma mutation_echo_returns_parents_witness :
  exists g',
    @llm_constrained_mutation Demo.naming toy_random DemoSection.echo_backend
      Demo.config Demo.repo0 0%Z [7%Z] ["a1"]
    = (Demo.repo0, g', Ok ["a1"]).
Proof.
  eexists.
  eapply (@mutation_echo_returns_parents Demo.naming toy_random
            DemoSection.echo_backend Demo.config Demo.repo0 0%Z [7%Z] ["a1"]).
  - vm_compute. reflexivity.
  - reflexivity.
  - reflexivity.
  - constructor; [split; vm_compute; reflexivity|constructor].
Defined.

Lemma insert_at_app {A} (l k : list A) (x : A) :
  insert_at (length l) x (l ++ k) = (l ++ x :: k)%list.
Proof. unfold insert_at. rewrite take_app_length, drop_app_length. reflexivity. Qed.

Lemma marked_window_parts {A} (before mid after : list A) (a b : A) :
  let s := length before in
  let e := s + length mid in
  let marked := insert_at s a (insert_at e b (before ++ mid ++ after)) in
  slice (s - 200) (Nat.min (e + 202) (length marked)) marked
  = (drop (s - 200) before ++ a :: mid ++ b :: take 200 after)%list.
Proof.
  intros s e marked.
  assert (Hm : marked = (before ++ [a] ++ mid ++ [b] ++ after)%list).
  { unfold marked, e, s.
    replace (before ++ mid ++ after)%list with ((before ++ mid) ++ after)%list
      by (rewrite <- app_assoc; reflexivity).
    rewrite <- length_app, insert_at_app, <- app_assoc, insert_at_app.
    reflexivity. }
  rewrite Hm. unfold slice.
  rewrite drop_app_le by (fold s; lia).
  rewrite !length_app. cbn [length]. fold s.
  set (n := Nat.min (e + 202) (s + (1 + (length mid + (1 + length after))))
            - (s - 200)).
  assert (Hd : length (drop (s - 200) before) = s - (s - 200))
    by (rewrite length_drop; reflexivity).
  replace (drop (s - 200) before ++ [a] ++ mid ++ [b] ++ after)%list
    with ((drop (s - 200) before ++ a :: mid ++ [b]) ++ after)%list
    by (rewrite <- !app_assoc; cbn [app]; rewrite <- app_assoc; reflexivity).
  assert (Hl : length (drop (s - 200) before ++ a :: mid ++ [b])
               = s - (s - 200) + (length mid + 2)).
  { rewrite length_app, Hd. cbn [length]. rewrite length_app. cbn [length]. lia. }
  rewrite take_app_ge by (rewrite Hl; unfold n, e; lia).
  rewrite Hl, <- !app_assoc. cbn [app]. rewrite <- app_assoc. cbn [app].
  do 4 f_equal.
  destruct (Nat.le_gt_cases (length after) 200) as [Hle|Hgt].
  - rewrite !take_ge; [reflexivity|lia|unfold n, e; lia].
  - f_equal. unfold n, e. lia.
Qed.

(** X12.  The code in the prompt of [llm_constrained_mutation] is the
    section between the two edit markers, with up to 200 lines of the file
    before it and up to 200 lines after it: whatever the size of the file,
    both markers are in the prompt and nothing of the section is cut. *)
Theorem mutation_prompt_window (config : EvoGitConfig) (r : repo) (i : info) :
  random_section_start i <= random_section_end i <= length (info_code i) ->
  mutation_prompt config r i =
    prompt_constructor config (file_list i) (random_file i)
      (join newline
         (slice (random_section_start i - 200) (random_section_start i)
            (info_code i)
          ++ "<|EDIT|>"
             :: slice (random_section_start i) (random_section_end i)
                  (info_code i)
          ++ "<|END_EDIT|>"
             :: slice (random_section_end i) (random_section_end i + 200)
                  (info_code i))%list)
      (read_note r (info_commit i)).
Proof.
  intros [Hse Hel]. unfold mutation_prompt.
  set (s := random_section_start i) in *. set (e := random_section_end i) in *.
  set (code := info_code i) in *.
  pose proof (marked_window_parts (take s code) (take (e - s) (drop s code))
                (drop e code) "<|EDIT|>" "<|END_EDIT|>") as Hw.
  cbn zeta in Hw.
  assert (Hls : length (take s code) = s) by (rewrite length_take; lia).
  assert (Hlm : length (take (e - s) (drop s code)) = e - s)
     by (rewrite length_take, length_drop; lia).
  rewrite Hls, Hlm in Hw.
  replace (s + (e - s)) with e in Hw by lia.
  replace (take s code ++ take (e - s) (drop s code) ++ drop e code)%list
    with code in Hw.
  2:{ replace (drop e code) with (drop (e - s) (drop s code))
        by (rewrite drop_drop; f_equal; lia).
      rewrite take_drop, take_drop. reflexivity. }
  rewrite Hw. unfold slice.
  rewrite (take_drop_commute code (s - (s - 200)) (s - 200)).
  replace (s - 200 + (s - (s - 200))) with s by lia.
  replace (e + 200 - e) with 200 by lia. reflexivity.
Qed.

Lemma mutation_prompt_window_witness :
  mutation_prompt Demo.config Demo.repo0 DemoSection.three_lines =
  "main.py" +:+ newline +:+
  join newline ["a = 1"; "<|EDIT|>"; "b = 2"; "<|END_EDIT|>"; "c = 3"].
Proof.
  rewrite (mutation_prompt_window Demo.config Demo.repo0 DemoSection.three_lines).
  - vm_compute. reflexivity.
  - vm_compute. lia.
Defined.

(* ===================================================================== *)
(** * Migration: tags and fetched branches *)
(* ===================================================================== *)

Lemma assoc_some_elem {A} (k : string) (l : list (string * A)) v :
  assoc k l = Some v -> (k, v) ∈ l.
Proof.
  induction l as [|[k' v'] l IH]; [discriminate|]. cbn [assoc].
  destruct (String.eqb_spec k' k) as [->|_].
  - intros [= ->]. left.
  - intros Hl. right. apply IH, Hl.
Qed.

Lemma Forall2_with {A B} (P : A -> B -> Prop) (Q : A -> Prop) l k :
  Forall2 P l k -> Forall Q l -> Forall2 (fun x y => P x y /\ Q x) l k.
Proof.
  induction 1 as [|x y l k Hxy Hlk IH]; intros Hq; [constructor|].
  apply Forall_cons in Hq as [Hx Hq]. constructor; auto.
Qed.

Lemma list_tags_delete r names t :
  t ∈ list_tags (delete_tags r names) <-> t ∈ list_tags r /\ t ∉ names.
Proof.
  unfold list_tags, delete_tags. cbn [tags set_tags].
  rewrite !list_elem_of_fmap. split.
  - intros ([n c] & -> & Hin). apply list_elem_of_filter in Hin as [Hnot Hin].
    apply negb_prop_elim in Hnot.
    rewrite bool_decide_spec in Hnot. split; [exists (n, c); auto|exact Hnot].
  - intros [([n c] & -> & Hin) Hnot]. exists (n, c). split; [reflexivity|].
    apply list_elem_of_filter. split; [|exact Hin].
    apply negb_prop_intro. rewrite bool_decide_spec. exact Hnot.
Qed.

(** X13.  [migrate_from_human_tags] takes the first [migrate_count] tags
    whose name starts with [human], returns the commit each of them names,
    and deletes exactly these tags: a tag is listed afterwards when it
    was listed before and was not taken, so a tag is handed out once and
    the other tags stay. *)
Theorem migrate_from_human_tags_consumes (r : repo) (migrate_count : nat) :
  exists commits,
    migrate_from_human_tags r migrate_count
      = (delete_tags r (taken_tags r migrate_count), Ok commits) /\
    Forall2 (fun tag commit =>
               (tag, commit) ∈ tags r /\ startswith tag "human" = true)
            (taken_tags r migrate_count) commits /\
    length commits <= migrate_count /\
    (forall t, t ∈ list_tags (delete_tags r (taken_tags r migrate_count))
               <-> t ∈ list_tags r /\ t ∉ taken_tags r migrate_count).
Proof.
  set (taken := taken_tags r migrate_count).
  assert (Htaken : forall tag, tag ∈ taken ->
            tag ∈ list_tags r /\ startswith tag "human" = true).
  { intros tag Htag. apply elem_of_take in Htag as (i & Htag & _).
    apply list_elem_of_lookup_2 in Htag.
    apply list_elem_of_filter in Htag as [Hh Htag]. split; [exact Htag|].
    destruct (startswith tag "human"); [reflexivity|contradiction]. }
  destruct (mapM_ok_intro (get_commit_by_tag r) taken) as [commits Hcs].
  { intros tag Htag. unfold get_commit_by_tag.
    destruct (assoc_elem tag (tags r)) as [c Hc]; [|rewrite Hc; eauto].
    apply Htaken, Htag. }
  exists commits. unfold migrate_from_human_tags.
  change (take migrate_count _) with taken. rewrite Hcs.
  split; [reflexivity|]. split; [|split].
  - pose proof (mapM_ok_Forall2 _ _ _ Hcs) as Hf2.
    assert (Hall : Forall (fun tag => startswith tag "human" = true) taken)
      by (apply Forall_forall; intros tag Htag; apply Htaken, Htag).
    eapply Forall2_impl; [exact (Forall2_with _ _ _ _ Hf2 Hall)|].
    intros tag c [Hc Hh]. split; [|exact Hh].
    unfold get_commit_by_tag in Hc.
    destruct (assoc tag (tags r)) as [c'|] eqn:Ha; [|discriminate].
    injection Hc as <-. apply assoc_some_elem, Ha.
  - rewrite (mapM_ok_length _ _ _ Hcs). unfold taken, taken_tags.
    rewrite length_take. lia.
  - intros t. apply list_tags_delete.
Qed.

Section OtherHosts.
Context `{PyJson} `{PyRandom}.

Lemma migration_loop_from r migration_count (Q : string -> Prop) branches :
  forall commits fitness commits' fitness',
    Forall (fun b => forall c, get_commit_by_branch r b = Ok c -> Q c) branches ->
    Forall Q commits ->
    migration_loop r migration_count branches commits fitness
      = Ok (commits', fitness') ->
    Forall Q commits'.
Proof.
  induction branches as [|branch branches IH];
    intros commits fitness commits' fitness' Hb Hc.
  - intros [= <- <-]. exact Hc.
  - apply Forall_cons in Hb as [Hbranch Hb]. cbn [migration_loop].
    destruct (get_commit_by_branch r branch) as [c|e]; [|discriminate]. rsimpl.
    destruct (read_note r c) as [note|].
    + destruct (loads (JStr note)) as [parsed|e]; [|discriminate]. rsimpl.
      destruct (decode_result parsed JInf) as [f|e]; [|discriminate]. rsimpl.
      assert (Hc' : Forall Q (commits ++ [c])%list).
      { apply Forall_app. split; [exact Hc|]. constructor; [|constructor].
        apply Hbranch. reflexivity. }
      destruct (length (commits ++ [c])%list =? migration_count)%nat.
      * intros [= <- <-]. exact Hc'.
      * apply IH; assumption.
    + rsimpl. destruct (length commits =? migration_count)%nat.
      * intros [= <- <-]. exact Hc.
      * apply IH; assumption.
Qed.

Lemma migrate_from_other_hosts_origin config r g migration_count r' g'
    commits fitness :
  migrate_from_other_hosts config r g migration_count
    = (r', g', Ok (commits, fitness)) ->
  r' = r /\ Forall (from_other_host config r) commits.
Proof.
  unfold migrate_from_other_hosts.
  pose proof (rng_shuffle_perm g
    (filter (fun branch => negb (contains (default "host0" (hostname config)) branch))
            (list_remote_branches r))) as Hperm.
  destruct (rng_shuffle g _) as [branches g1]. cbn [fst] in Hperm.
  intros [= <- <- Hloop]. split; [reflexivity|].
  eapply migration_loop_from; [| |exact Hloop]; [|constructor].
  apply Forall_forall. intros b Hb c Hc. exists b.
  rewrite Hperm in Hb. apply list_elem_of_filter in Hb as [Hhost Hb].
  split; [exact Hb|]. split; [|exact Hc].
  destruct (contains _ b); [contradiction|reflexivity].
Qed.
End OtherHosts.

(** X14.  With a limit of at least one, [migrate_from_other_hosts] returns
    at most the limit; every commit it returns is the head of a fetched
    branch with a usual name that does not hold the name of this host, and
    has a note in the default namespace of this repository; there is one
    fitness for each commit; and the repository is left as it was. *)
Theorem migrate_from_other_hosts_sound `{PyJson} `{PyRandom} config r g
    migration_count r' g' commits fitness :
  1 <= migration_count ->
  migrate_from_other_hosts config r g migration_count
    = (r', g', Ok (commits, fitness)) ->
  r' = r /\
  length commits <= migration_count /\
  length fitness = length commits /\
  Forall (fun c => from_other_host config r c /\ is_Some (read_note r c)) commits.
Proof.
  intros Hk Hm.
  destruct (migrate_from_other_hosts_origin _ _ _ _ _ _ _ _ Hm) as [Hr Hfrom].
  destruct (migrate_from_other_hosts_bounded _ _ _ _ _ _ _ _ Hk Hm)
    as (Hlen & Hnoted & Hfit).
  subst r'.
  split; [reflexivity|]. split; [exact Hlen|]. split; [exact Hfit|].
  apply Forall_forall. intros c Hc. split.
  - eapply Forall_forall in Hfrom; eauto.
  - eapply Forall_forall in Hnoted; eauto.
Qed.

Lemma migrate_from_other_hosts_sound_witness :
  exists g' commits fitness,
    @migrate_from_other_hosts mini_json toy_random Demo.config
      DemoMigration.fetched 0%Z 1
      = (DemoMigration.fetched, g', Ok (commits, fitness)) /\
    length commits <= 1 /\
    length fitness = length commits /\
    Forall (fun c => from_other_host Demo.config DemoMigration.fetched c /\
                     is_Some (read_note DemoMigration.fetched c)) commits.
Proof.
  eexists _, _, _. split; [vm_compute; reflexivity|].
  eapply (@migrate_from_other_hosts_sound mini_json toy_random Demo.config
            DemoMigration.fetched 0%Z 1); [lia|vm_compute; reflexivity].
Defined.

Section ForeignNotes.
Context `{PyJson} `{PyRandom}.

Lemma list_remote_branches_resolve r branch :
  branch ∈ list_remote_branches r ->
  exists c, get_commit_by_branch r branch = Ok c.
Proof.
  unfold list_remote_branches. intros Hb.
  apply list_elem_of_fmap in Hb as (name & -> & Hn).
  apply list_elem_of_filter in Hn as [_ Hn].
  destruct (assoc_elem name (remote_branches r)) as [c Hc]; [exact Hn|].
  exists c. unfold get_commit_by_branch.
  rewrite strip_prefix_app. rewrite Hc. reflexivity.
Qed.

Lemma migration_loop_all_skipped r migration_count branches :
  forall commits fitness,
    Forall (fun b => exists c, get_commit_by_branch r b = Ok c /\
                               read_note r c = None) branches ->
    migration_loop r migration_count branches commits fitness
      = Ok (commits, fitness).
Proof.
  induction branches as [|branch branches IH]; intros commits fitness Hb.
  - reflexivity.
  - apply Forall_cons in Hb as [(c & Hc & Hn) Hb]. cbn [migration_loop].
    rewrite Hc. rsimpl. rewrite Hn. rsimpl.
    destruct (length commits =? migration_count)%nat; [reflexivity|].
    apply IH, Hb.
Qed.
End ForeignNotes.

(** X15.  The notes other hosts wrote do not reach a migration.  Where no
    head of a branch of another host has a note in the default namespace
    of this repository, [migrate_from_other_hosts] returns no commit and no
    fitness, for every limit and whatever the fetched namespaces hold for
    those commits, and leaves the repository as it was: [merge_notes] lists
    only the default namespace and merges nothing. *)
Theorem migrate_from_other_hosts_skips_foreign_notes `{PyJson} `{PyRandom}
    config r g migration_count :
  (forall c, from_other_host config r c -> read_note r c = None) ->
  exists g',
    migrate_from_other_hosts config r g migration_count = (r, g', Ok ([], [])).
Proof.
  intros Hnone. unfold migrate_from_other_hosts.
  pose proof (rng_shuffle_perm g
    (filter (fun branch => negb (contains (default "host0" (hostname config)) branch))
            (list_remote_branches r))) as Hperm.
  destruct (rng_shuffle g _) as [branches g1]. cbn [fst] in Hperm.
  exists g1. rewrite merge_notes_same.
  rewrite (migration_loop_all_skipped r migration_count branches); [reflexivity|].
  apply Forall_forall. intros b Hb. rewrite Hperm in Hb.
  apply list_elem_of_filter in Hb as [Hhost Hb].
  destruct (list_remote_branches_resolve r b Hb) as [c Hc].
  exists c. split; [exact Hc|]. apply Hnone. exists b.
  split; [exact Hb|]. split; [|exact Hc].
  destruct (contains _ b); [contradiction|reflexivity].
Qed.

Lemma migrate_from_other_hosts_skips_foreign_notes_witness :
  (exists other, assoc "host1-commits" (other_notes DemoNotes.noted_elsewhere)
                 = Some other /\ other !! "b2" = Some Demo.dumped_note) /\
  exists g',
    @migrate_from_other_hosts mini_json toy_random Demo.config
      DemoNotes.noted_elsewhere 0%Z 1
    = (DemoNotes.noted_elsewhere, g', Ok ([], [])).
Proof.
  split; [eexists; split; vm_compute; reflexivity|].
  apply (@migrate_from_other_hosts_skips_foreign_notes mini_json toy_random
           Demo.config DemoNotes.noted_elsewhere 0%Z 1).
  intros c _. reflexivity.
Defined.

(* ===================================================================== *)
(** * The evaluation batch *)
(* ===================================================================== *)


Section EvaluateBatch.
Context `{PyJson}.




Lemma update_notes_objects commits :
  forall results r r' out,
    update_notes r commits results = (r', out) -> objects r' = objects r.
Proof.
  induction commits as [|c commits IH]; intros results r r' out.
  - intros [= <- _]. reflexivity.
  - destruct results as [|o results]; [intros [= <- _]; reflexivity|].
    cbn [update_notes].
    destruct (add_note r c (json_dumps o) true) as [r1|e] eqn:Ha.
    + intros Hu. rewrite (IH _ _ _ _ Hu). eapply add_note_objects, Ha.
    + intros [= <- _]. reflexivity.
Qed.

Context `{EvalCommand}.

End EvaluateBatch.


Section EvaluateTypes.
Context `{PyJson} `{EvalCommand}.

Lemma promote_not_float a b :
  a <> Float32 -> b <> Float32 -> promote a b <> Float32.
Proof. destruct a, b; simpl; congruence. Qed.

Lemma agree_rows_no_float fitness :
  Forall numbers fitness ->
  Forall (fun p => ~ has_float p) fitness ->
  forall t, t <> Float32 -> exists t',
    agree tensor_type [2] (map (fun p => JList [fst p; snd p]) fitness) t = Some t' /\
    t' <> Float32.
Proof.
  induction 1 as [|p fitness [[ta Ha] [tb Hb]] _ IH]; intros Hnf t Ht.
  - exists t. split; [reflexivity|exact Ht].
  - apply Forall_cons in Hnf as [Hp Hnf]. cbn [map agree].
    rewrite (tensor_type_row _ _ _ _ Ha Hb).
    rewrite bool_decide_eq_true_2 by reflexivity.
    apply (IH Hnf). apply promote_not_float; [exact Ht|].
    apply promote_not_float; intros ->; apply Hp; [left|right]; assumption.
Qed.

Lemma pack_no_float fitness :
  fitness <> [] ->
  Forall numbers fitness ->
  Forall (fun p => ~ has_float p) fitness ->
  Forall (fun p => fits_int64 (fst p) = true /\ fits_int64 (snd p) = true) fitness ->
  pack fitness = Raise AssertionError.
Proof.
  intros Hne Hnum Hnf Hfit. unfold pack.
  assert (Hall : forallb (fun p => fits_int64 (fst p) && fits_int64 (snd p)) fitness
                 = true).
  { apply forallb_forall. intros p Hp. apply list_elem_of_In in Hp.
    destruct (proj1 (Forall_forall _ _) Hfit p Hp) as [-> ->]. reflexivity. }
  rewrite Hall. clear Hfit Hall.
  destruct Hnum as [|p fitness [[ta Ha] [tb Hb]] Hnum]; [congruence|].
  apply Forall_cons in Hnf as [Hp Hnf].
  destruct (agree_rows_no_float fitness Hnum Hnf (promote ta tb))
    as (t' & Ht' & Hf).
  { apply promote_not_float; intros ->; apply Hp; [left|right]; assumption. }
  cbn [map].
  rewrite (tensor_type_cons _ _ _ _ _ (tensor_type_row _ _ _ _ Ha Hb) Ht').
  destruct t'; [reflexivity|reflexivity|congruence].
Qed.

Lemma evaluate_runs_all config r pop :
  runs_all config r pop ->
  snd (evaluate config r pop) = pack (map (fun c => cost_of (run_eval c)) pop).
Proof.
  intros Hpop.
  assert (Hu : forall c, c ∈ unique pop -> c ∈ pop)
    by (intros c Hc; apply elem_of_remove_dups; exact Hc).
  unfold evaluate.
  destruct (mapM_ok_intro (add_temp_worktree r) (unique pop)) as [ws Hws].
  { intros c Hc. destruct (Hpop c (Hu c Hc)) as ([o Ho] & _ & _).
    unfold add_temp_worktree. rewrite Ho. eauto. }
  unfold prepare_temp_worktrees. rewrite Hws.
  rewrite (mapM_ok_map _ (fun c => record_of (run_eval c))).
  2:{ intros c Hc. destruct (Hpop c (Hu c Hc)) as (_ & Hf & Hr).
      apply evaluate_code_ran; assumption. }
  pose proof (update_notes_all (unique pop)
                (map (fun c => record_of (run_eval c)) (unique pop)) r) as Hn.
  destruct (update_notes r (unique pop) _) as [r' [[]|e]]; cbn [snd] in *.
  2:{ discriminate Hn. intros c Hc. apply (Hpop c (Hu c Hc)). }
  rewrite zip_map_self.
  rewrite (mapM_ok_map _ (fun cr : string * json =>
                            (fst cr, cost_of (run_eval (fst cr))))).
  2:{ intros [c o] Hco. apply list_elem_of_fmap in Hco as (c' & [= -> ->] & Hc').
      cbn [fst snd]. destruct (Hpop c' (Hu c' Hc')) as (_ & _ & Hr).
      rewrite (decode_result_cost_of _ Hr). reflexivity. }
  rsimpl. rewrite map_map. cbn [fst].
  rewrite (mapM_ok_map _ (fun c => cost_of (run_eval c))).
  2:{ intros c Hc.
      rewrite (assoc_map_self (fun c => cost_of (run_eval c))); [reflexivity|].
      unfold unique. apply elem_of_remove_dups. exact Hc. }
  rsimpl. reflexivity.
Qed.
End EvaluateTypes.

(** X17.  A batch in which no individual fails and every fitness and time
    cost is a boolean or an integer that an [int64] holds does not come
    back: [torch.tensor] infers an integer tensor from the pairs, and the
    assertion that the fitness is [float32] raises [AssertionError].  It
    takes one float in the batch, a float result or the illegal value of a
    failed individual, for the batch to pass. *)
Theorem evaluate_without_float_asserts `{PyJson} `{EvalCommand} config r pop :
  pop <> [] ->
  runs_all config r pop ->
  (forall c, c ∈ pop ->
     numbers (cost_of (run_eval c)) /\ ~ has_float (cost_of (run_eval c))) ->
  (forall c, c ∈ pop ->
     fits_int64 (fst (cost_of (run_eval c))) = true /\
     fits_int64 (snd (cost_of (run_eval c))) = true) ->
  snd (evaluate config r pop) = Raise AssertionError.
Proof.
  intros Hne Hpop Hint Hfit. rewrite (evaluate_runs_all _ _ _ Hpop).
  apply pack_no_float.
  - destruct pop; [congruence|discriminate].
  - apply Forall_forall. intros p Hp.
    apply list_elem_of_fmap in Hp as (c & -> & Hc). apply Hint, Hc.
  - apply Forall_forall. intros p Hp.
    apply list_elem_of_fmap in Hp as (c & -> & Hc). apply Hint, Hc.
  - apply Forall_forall. intros p Hp.
    apply list_elem_of_fmap in Hp as (c & -> & Hc). apply Hfit, Hc.
Qed.

Lemma evaluate_without_float_asserts_witness :
  snd (@evaluate mini_json Demo.finishing Demo.config DemoMutation.store ["c1"])
  = Raise AssertionError.
Proof.
  apply (@evaluate_without_float_asserts mini_json Demo.finishing Demo.config
           DemoMutation.store ["c1"]).
  - discriminate.
  - intros c Hc. apply list_elem_of_singleton in Hc as ->.
    split; [eexists; vm_compute; reflexivity|].
    split; [right; vm_compute; reflexivity|vm_compute; reflexivity].
  - intros c Hc. apply list_elem_of_singleton in Hc as ->.
    split.
    + split; eexists; vm_compute; reflexivity.
    + intros [Hf|Hf]; vm_compute in Hf; discriminate.
  - intros c Hc. apply list_elem_of_singleton in Hc as ->.
    split; vm_compute; reflexivity.
Defined.

(** An integer beyond [int64] among integers stops the packing with
    [RuntimeError], before the assertion. *)
Example pack_overflow :
  pack [(JNum (2 ^ 63), JNum 1)] = Raise RuntimeError.
Proof. vm_compute. reflexivity. Qed.

Lemma mapM_ext_in {A B} (f g : A -> result B) (l : list A) :
  (forall x, x ∈ l -> f x = g x) -> mapM f l = mapM g l.
Proof.
  induction l as [|x l IH]; intros Hfg; [reflexivity|].
  cbn [mapM]. rewrite (Hfg x) by left.
  rewrite IH by (intros y Hy; apply Hfg; right; exact Hy). reflexivity.
Qed.

Lemma mapM_ok_of_Forall2 {A B} (f : A -> result B) (l : list A) (ys : list B) :
  Forall2 (fun x y => f x = Ok y) l ys -> mapM f l = Ok ys.
Proof.
  induction 1 as [|x y l ys Hxy _ IH]; [reflexivity|].
  cbn [mapM]. rewrite Hxy. rsimpl. rewrite IH. reflexivity.
Qed.

Section EvaluateTwice.
Context `{PyJson}.

Lemma update_notes_other g commits :
  forall results r r' out,
    g ∉ commits ->
    update_notes r commits results = (r', out) ->
    read_note r' g = read_note r g.
Proof.
  induction commits as [|c commits IH]; intros results r r' out Hg.
  - intros [= <- _]. reflexivity.
  - destruct results as [|o results]; [intros [= <- _]; reflexivity|].
    cbn [update_notes]. apply not_elem_of_cons in Hg as [Hne Hg].
    destruct (add_note r c (json_dumps o) true) as [r1|e] eqn:Ha.
    + intros Hu. rewrite (IH _ _ _ _ Hg Hu).
      eapply add_note_other; [exact Ha|congruence].
    + intros [= <- _]. reflexivity.
Qed.

Lemma update_notes_written commits :
  forall results r r',
    NoDup commits ->
    length results = length commits ->
    update_notes r commits results = (r', Ok tt) ->
    Forall2 (fun c o => read_note r' c = Some (json_dumps o)) commits results.
Proof.
  induction commits as [|c commits IH]; intros results r r' Hnd Hl Hu.
  - destruct results; [constructor|discriminate].
  - destruct results as [|o results]; [discriminate|].
    apply NoDup_cons in Hnd as [Hc Hnd]. cbn [update_notes] in Hu.
    destruct (add_note r c (json_dumps o) true) as [r1|e] eqn:Ha;
      [|discriminate].
    constructor.
    + rewrite (update_notes_other _ _ _ _ _ _ Hc Hu).
      eapply add_note_same, Ha.
    + eapply IH; [exact Hnd| |exact Hu]. simpl in Hl. lia.
Qed.

(** X18.  The notes make a batch repeatable: when [evaluate] has gone
    through a population without forced re-evaluation, and the records it
    wrote are read back as they were written, evaluating the same
    population again returns the same fitness from the notes alone,
    whatever the evaluation command would do now. *)
Theorem evaluate_again_reads_notes (first second : EvalCommand) config r pop
    r1 fitness :
  reevaluate config = false ->
  (forall c v, c ∈ pop -> @evaluate_code _ first config r c = Ok v ->
               json_loads (json_dumps v) = Some v) ->
  @evaluate _ first config r pop = (r1, Ok fitness) ->
  snd (@evaluate _ second config r1 pop) = Ok fitness.
Proof.
  intros Hre Hround. unfold evaluate, prepare_temp_worktrees.
  destruct (mapM (add_temp_worktree r) (unique pop)) as [ws|e] eqn:Hws;
    [|discriminate].
  destruct (mapM (@evaluate_code _ first config r) (unique pop))
    as [outputs|e] eqn:Hout; [|discriminate].
  destruct (update_notes r (unique pop) outputs) as [r1' [[]|e]] eqn:Hu;
    [|discriminate].
  intros [= <- Hchain].
  pose proof (update_notes_objects _ _ _ _ _ Hu) as Hobj.
  assert (Hu0 : forall c, c ∈ unique pop -> c ∈ pop)
    by (intros c Hc; apply elem_of_remove_dups; exact Hc).
  rewrite (mapM_ext_in (add_temp_worktree r1') (add_temp_worktree r)), Hws.
  2:{ intros c _. unfold add_temp_worktree. rewrite Hobj. reflexivity. }
  assert (Hout2 : mapM (@evaluate_code _ second config r1') (unique pop)
                  = Ok outputs).
  { apply mapM_ok_of_Forall2.
    pose proof (update_notes_written _ _ _ _ (NoDup_remove_dups pop)
                  (mapM_ok_length _ _ _ Hout) Hu) as Hw.
    pose proof (mapM_ok_Forall2 _ _ _ Hout) as Hf.
    assert (Hin : Forall (fun c => c ∈ pop) (unique pop))
      by (apply Forall_forall; exact Hu0).
    clear -Hw Hf Hin Hre Hround. unfold unique in *.
    set (up := remove_dups pop) in *. clearbody up. revert Hw Hin.
    induction Hf as [|c o cs os Hco _ IH]; intros Hw Hin; [constructor|].
    apply Forall2_cons in Hw as [Hc Hw]. apply Forall_cons in Hin as [Hcp Hin].
    constructor; [|apply IH; assumption].
    eapply evaluate_code_cached; [exact Hre|exact Hc|].
    eapply Hround; eassumption. }
  rewrite Hout2.
  pose proof (update_notes_all (unique pop) outputs r1') as Hn.
  destruct (update_notes r1' (unique pop) outputs) as [r2 [[]|e]];
    cbn [snd] in *.
  - exact Hchain.
  - discriminate Hn. intros c Hc. rewrite Hobj.
    apply mapM_ok_Forall2 in Hws.
    apply list_elem_of_lookup_1 in Hc as [i Hi].
    destruct (Forall2_lookup_l _ _ _ _ _ Hws Hi) as (w & _ & Hw).
    cbv beta in Hw. unfold add_temp_worktree in Hw.
    destruct (objects r !! c); [eauto|discriminate].
Qed.
End EvaluateTwice.

Lemma evaluate_again_reads_notes_witness :
  exists r1 fitness,
    @evaluate mini_json DemoBatch.mixed Demo.config DemoMutation.store
      ["c1"; "d1"] = (r1, Ok fitness) /\
    snd (@evaluate mini_json Demo.finishing Demo.config r1 ["c1"; "d1"])
    = Ok fitness.
Proof.
  eexists _, _. split; [vm_compute; reflexivity|].
  apply (@evaluate_again_reads_notes mini_json DemoBatch.mixed Demo.finishing
           Demo.config DemoMutation.store ["c1"; "d1"]).
  - reflexivity.
  - intros c v Hc Hv.
    repeat (apply elem_of_cons in Hc as [->|Hc]);
      try (apply elem_of_nil in Hc; destruct Hc);
      vm_compute in Hv; injection Hv as <-; vm_compute; reflexivity.
  - vm_compute. reflexivity.
Defined.

(* ===================================================================== *)
(** * Crossover: the strategy and the population loop *)
(* ===================================================================== *)

Section MergeStrategy.
Context `{GitEngine} `{PyRandom}.

Lemma draw_choices_length c p k : length (fst (draw_choices c p k)) = k.
Proof.
  unfold draw_choices. pose proof (rng_choices_length (gen c) p k) as Hl.
  destruct (rng_choices (gen c) p k) as [l g]. exact Hl.
Qed.

Lemma drawn_strategy_resolves c p content :
  exists resolved,
    handle_conflict_in (fst (draw_choices c p (count_conflicts_in content))) content
    = Ok resolved.
Proof.
  pose proof (sub_from_outcome (S (String.length content))
                (fst (draw_choices c p (count_conflicts_in content))) content)
    as Ho.
  unfold handle_conflict_in.
  destruct (sub_from _ _ content) as [resolved|e]; [eauto|].
  destruct Ho as [_ Ho]. rewrite draw_choices_length in Ho.
  unfold count_conflicts_in, findall in Ho. lia.
Qed.
End MergeStrategy.

(** X19.  [git_merge] draws for a conflicted file as many choices as
    [count_conflicts] finds conflicts in it, so the resolution of the file
    does not run out of choices: once the file is read, [handle_conflict]
    gets to the point of writing the resolved text, and the pass over the
    files goes on from what the write answers. *)
Theorem merge_files_strategy_suffices `{GitEngine} `{PyRandom}
    (config : EvoGitConfig) (c : crossing) (file : string) (files : list string)
    (content : string) :
  read_in (git c) file = Ok content ->
  exists resolved,
    handle_conflict_in
      (fst (draw_choices c (accept_ours_prob config) (count_conflicts_in content)))
      content = Ok resolved /\
    merge_files config c (file :: files) =
      (s ← write_add (git c) file resolved;
       merge_files config
         (with_git (snd (draw_choices c (accept_ours_prob config)
                           (count_conflicts_in content))) s)
         files).
Proof.
  intros Hread.
  destruct (drawn_strategy_resolves c (accept_ours_prob config) content)
    as [resolved Hres].
  exists resolved. split; [exact Hres|].
  cbn [merge_files]. unfold count_conflicts. rewrite Hread. rsimpl.
  destruct (draw_choices c (accept_ours_prob config) (count_conflicts_in content))
    as [strategy c'] eqn:Hd.
  cbn [fst snd] in *. unfold handle_conflict.
  assert (Hg : git c' = git c).
  { unfold draw_choices in Hd. destruct (rng_choices _ _ _) as [l g].
    injection Hd as _ <-. reflexivity. }
  rewrite Hg, Hread. rsimpl. rewrite Hres. rsimpl. reflexivity.
Qed.

Section PopulationBounds.
Context `{GitEngine} `{PyRandom} `{TorchRandom}.

Lemma draw_pair_members t pop c1 c2 t' :
  draw_pair t pop = (Ok (c1, c2), t') -> c1 ∈ pop /\ c2 ∈ pop.
Proof.
  unfold draw_pair.
  destruct (torch_randint t (length pop)) as [i1 t1].
  destruct (torch_randint t1 (length pop)) as [i2 t2].
  destruct (pop !! i1) as [d1|] eqn:Hi1; [|discriminate].
  destruct (pop !! i2) as [d2|] eqn:Hi2; [|discriminate].
  intros [= <- <- <-].
  split; eapply list_elem_of_lookup_2; eassumption.
Qed.

Lemma redraw_members budget s pop :
  forall t commit1 commit2 retry c1 c2 retry' t',
    commit1 ∈ pop -> commit2 ∈ pop ->
    redraw budget s t pop commit1 commit2 retry = (Ok (c1, c2, retry'), t') ->
    c1 ∈ pop /\ c2 ∈ pop /\ retry <= retry' <= retry + budget.
Proof.
  induction budget as [|budget IH];
    intros t commit1 commit2 retry c1 c2 retry' t' Hm1 Hm2; cbn [redraw].
  - destruct (is_novel_merge s commit1 commit2);
      intros [= <- <- <- <-]; repeat split; auto; lia.
  - destruct (is_novel_merge s commit1 commit2).
    + intros [= <- <- <- <-]. repeat split; auto; lia.
    + destruct (draw_pair t pop) as [[[d1 d2]|e] t1] eqn:Hd; [|discriminate].
      apply draw_pair_members in Hd as [Hd1 Hd2].
      intros Hr. apply IH in Hr as (? & ? & ?); auto.
      repeat split; auto; lia.
Qed.

Lemma crossover_passes_bounds steps config pop n :
  forall st st' e,
    retry st <= max_merge_retry config ->
    Forall (fun call => parent1 call ∈ pop /\ parent2 call ∈ pop) (calls st) ->
    crossover_passes steps config pop n st = (st', e) ->
    retry st <= retry st' <= max_merge_retry config /\
    Forall (fun call => parent1 call ∈ pop /\ parent2 call ∈ pop) (calls st') /\
    length (calls st') <= length (calls st) + n /\
    length (offspring st') <= length (offspring st) + n /\
    (e = Finished -> length (offspring st') = length (offspring st) + n /\
                     length (calls st') = length (calls st) + n).
Proof.
  induction n as [|n IH]; intros st st' e Hretry Hcalls; cbn [crossover_passes].
  - intros [= <- <-]. repeat split; auto; lia.
  - destruct (draw_pair (torch st) pop) as [[[c1 c2]|err] t1] eqn:Hd.
    2:{ intros [= <- <-]. repeat split; auto; try lia; discriminate. }
    apply draw_pair_members in Hd as [Hc1 Hc2].
    destruct (redraw _ _ _ _ _ _ _) as [[[[d1 d2] retry']|err] t2] eqn:Hr.
    2:{ intros [= <- <-]. repeat split; auto; try lia; discriminate. }
    apply redraw_members in Hr as (Hd1 & Hd2 & Hlo & Hhi); auto.
    destruct (rng_randint _ _ _) as [seed g1].
    set (call := {| parent1 := d1 |}).
    assert (Hcalls' : Forall (fun call => parent1 call ∈ pop /\ parent2 call ∈ pop)
                        (calls st ++ [call])).
    { apply Forall_app. split; [exact Hcalls|].
      constructor; [split; assumption|constructor]. }
    destruct (git_crossover _ _ _ _ _ _) as [[[c new_commit]|err]|].
    + intros Hp. apply IH in Hp; cbn [retry calls offspring] in *;
        [|lia|exact Hcalls'].
      rewrite !length_app in Hp. cbn [length] in Hp.
      destruct Hp as (Hp1 & Hp2 & Hp3 & Hp4 & Hp5).
      split; [lia|]. split; [exact Hp2|]. split; [lia|]. split; [lia|].
      intros He. destruct (Hp5 He). lia.
    + intros [= <- <-]. cbn [retry calls offspring].
      rewrite length_app. cbn [length].
      repeat split; auto; try lia; discriminate.
    + intros [= <- <-]. cbn [retry calls offspring].
      rewrite length_app. cbn [length].
      repeat split; auto; try lia; discriminate.
Qed.
End PopulationBounds.

(** X20.  However the population loop of [evogit_git_crossover] ends, the
    redraws of the whole loop together are at most [max_merge_retry] (the
    counter is shared by all the individuals), both parents of every call
    of [git_crossover] are members of the population, and there are at
    most as many offspring as individuals; a loop that runs through has
    made one call and one offspring for each individual. *)
Theorem crossover_population_bounds `{GitEngine} `{PyRandom} `{TorchRandom}
    steps config pop s g t :
  retry (fst (evogit_git_crossover steps config pop s g t))
    <= max_merge_retry config /\
  Forall (fun call => parent1 call ∈ pop /\ parent2 call ∈ pop)
         (calls (fst (evogit_git_crossover steps config pop s g t))) /\
  length (offspring (fst (evogit_git_crossover steps config pop s g t)))
    <= length pop /\
  (snd (evogit_git_crossover steps config pop s g t) = Finished ->
   length (offspring (fst (evogit_git_crossover steps config pop s g t)))
     = length pop /\
   length (calls (fst (evogit_git_crossover steps config pop s g t)))
     = length pop).
Proof.
  unfold evogit_git_crossover.
  destruct (crossover_passes steps config pop (length pop) _) as [st' e] eqn:Hp.
  apply crossover_passes_bounds in Hp; cbn [retry calls offspring] in *;
    [|lia|constructor].
  cbn [fst snd length] in *. destruct Hp as (Hq1 & Hq2 & Hq3 & Hq4 & Hq5).
  split; [lia|]. split; [exact Hq2|]. split; [lia|].
  intros He. destruct (Hq5 He). lia.
Qed.

Lemma merge_files_strategy_suffices_witness :
  exists resolved,
    handle_conflict_in
      (fst (draw_choices DemoMerge.conflicted (accept_ours_prob Demo.config)
              (count_conflicts_in DemoMerge.text)))
      DemoMerge.text = Ok resolved /\
    merge_files Demo.config DemoMerge.conflicted ["main.py"] =
      (s ← write_add (git DemoMerge.conflicted) "main.py" resolved;
       merge_files Demo.config
         (with_git (snd (draw_choices DemoMerge.conflicted
                           (accept_ours_prob Demo.config)
                           (count_conflicts_in DemoMerge.text))) s)
         []).
Proof.
  apply (@merge_files_strategy_suffices DemoCrossover.single_commit toy_random
           Demo.config DemoMerge.conflicted "main.py" [] DemoMerge.text).
  vm_compute. reflexivity.
Defined.

(* ===================================================================== *)
(** * The TGI backend *)
(* ===================================================================== *)

Section Backend.
Context `{ChatClient}.

Lemma request_loop_outcome left q :
  forall k,
    match request_loop left k q with
    | Ok content =>
        exists n, n < left /\ complete q (k + n) = Some content /\
                  forall j, j < n -> complete q (k + j) = None
    | Raise e =>
        e = BackendError /\ forall j, j < left -> complete q (k + j) = None
    end.
Proof.
  induction left as [|left IH]; intros k; cbn [request_loop].
  - split; [reflexivity|]. intros j Hj. lia.
  - destruct (complete q k) as [content|] eqn:Hk.
    + exists 0. rewrite Nat.add_0_r. split; [lia|]. split; [exact Hk|].
      intros j Hj. lia.
    + specialize (IH (S k)).
      destruct (request_loop left (S k) q) as [content|e].
      * destruct IH as (n & Hn & Hok & Hfail). exists (S n).
        split; [lia|]. split.
        -- rewrite <- Hok. f_equal. lia.
        -- intros [|j] Hj; [rewrite Nat.add_0_r; exact Hk|].
           rewrite <- (Hfail j) by lia. f_equal. lia.
      * destruct IH as [-> Hfail]. split; [reflexivity|].
        intros [|j] Hj; [rewrite Nat.add_0_r; exact Hk|].
        rewrite <- (Hfail j) by lia. f_equal. lia.
Qed.

Lemma one_restful_request_raises args e :
  _one_restful_request args = Raise e -> e = BackendError.
Proof.
  destruct args as [seed q]. unfold _one_restful_request.
  pose proof (request_loop_outcome num_retry
                (if (400000 <? Z.of_nat (String.length q))%Z
                 then String.substring 0 (Z.to_nat 400000) q else q) 0) as Ho.
  destruct (request_loop _ _ _); [discriminate|].
  intros [= <-]. apply Ho.
Qed.
End Backend.

(** X21.  [_one_restful_request] answers with the content of the first
    attempt that does not raise, among [num_retry] attempts on the query
    cut to 400,000 characters; it raises only when all of them failed, and
    then it is the backend's own exception.  The seed plays no part. *)
Theorem one_restful_request_outcome `{ChatClient} (seed : Z) (q : string) :
  match _one_restful_request (seed, q) with
  | Ok content =>
      exists n, n < num_retry /\ complete (sent_query q) n = Some content /\
                forall j, j < n -> complete (sent_query q) j = None
  | Raise e =>
      e = BackendError /\
      forall j, j < num_retry -> complete (sent_query q) j = None
  end.
Proof.
  unfold _one_restful_request. fold (sent_query q).
  apply (request_loop_outcome num_retry (sent_query q) 0).
Qed.

(** X22.  [TGIBackend.query] with a seed for every query returns one
    content for each query, in order, each the answer of its own request;
    it raises when a request has used up its attempts, and only then. *)
Theorem tgi_query_answers `{ChatClient} (seeds : list Z) (queries : list string) :
  length seeds = length queries ->
  match @query tgi_backend seeds queries with
  | Ok contents =>
      length contents = length queries /\
      Forall2 (fun sq content => _one_restful_request sq = Ok content)
              (zip seeds queries) contents
  | Raise e =>
      e = BackendError /\
      Exists (fun sq => _one_restful_request sq = Raise BackendError)
             (zip seeds queries)
  end.
Proof.
  intros Hlen. cbn [query tgi_backend].
  assert (Hm : match mapM _one_restful_request (zip seeds queries) with
               | Ok contents =>
                   length contents = length queries /\
                   Forall2 (fun sq content => _one_restful_request sq = Ok content)
                           (zip seeds queries) contents
               | Raise e =>
                   e = BackendError /\
                   Exists (fun sq => _one_restful_request sq = Raise BackendError)
                          (zip seeds queries)
               end).
  { assert (Hz : length (zip seeds queries) = length queries)
      by (rewrite length_zip_with; lia).
    rewrite <- Hz. clear Hz Hlen.
    induction (zip seeds queries) as [|sq l IH]; cbn [mapM].
    - split; [reflexivity|constructor].
    - destruct (_one_restful_request sq) as [content|e] eqn:Hsq; rsimpl.
      + destruct (mapM _one_restful_request l) as [contents|e]; rsimpl.
        * destruct IH as [Hl Hall]. split; [simpl; lia|].
          constructor; assumption.
        * destruct IH as [-> Hex]. split; [reflexivity|]. right. exact Hex.
      + pose proof (one_restful_request_raises _ _ Hsq) as ->.
        split; [reflexivity|]. left. exact Hsq. }
  destruct queries as [|q queries].
  - destruct seeds; [|discriminate]. split; [reflexivity|constructor].
  - destruct (mapM _one_restful_request (zip seeds (q :: queries)))
      as [[|content contents]|e]; rsimpl.
    + destruct Hm as [Hl _]. discriminate Hl.
    + exact Hm.
    + exact Hm.
Qed.

Lemma tgi_query_answers_witness :
  @query (@tgi_backend DemoBatch.flaky) [1%Z; 2%Z] ["first"; "second"]
  = Ok ["first"; "second"].
Proof.
  pose proof (@tgi_query_answers DemoBatch.flaky [1%Z; 2%Z] ["first"; "second"]
                eq_refl) as Hq.
  destruct (@query (@tgi_backend DemoBatch.flaky) [1%Z; 2%Z] ["first"; "second"])
    as [contents|e] eqn:Hc.
  - destruct Hq as [_ Hall].
    apply Forall2_cons_inv_l in Hall as (c1 & l1 & H1 & Hall & ->).
    apply Forall2_cons_inv_l in Hall as (c2 & l2 & H2 & Hall & ->).
    apply Forall2_nil_inv_l in Hall as ->.
    vm_compute in H1, H2. congruence.
  - exfalso. destruct Hq as [_ Hex].
    apply Exists_cons in Hex as [Hex|Hex]; [vm_compute in Hex; discriminate|].
    apply Exists_cons in Hex as [Hex|Hex]; [vm_compute in Hex; discriminate|].
    inversion Hex.
Defined.

(* ===================================================================== *)
(** * The branches that track the population *)
(* ===================================================================== *)

Lemma list_branch_perm name commit l :
  list_branch name commit l ≡ₚ (name, commit) :: l.
Proof.
  induction l as [|[n c] l IH]; cbn [list_branch]; [reflexivity|].
  destruct (String.ltb name n); [reflexivity|].
  rewrite IH. apply Permutation_swap.
Qed.

Lemma assoc_list_branch_other name commit other l :
  other <> name -> assoc other (list_branch name commit l) = assoc other l.
Proof.
  intros Hne. induction l as [|[n c] l IH]; cbn [list_branch assoc].
  - destruct (String.eqb_spec name other); [congruence|reflexivity].
  - destruct (String.ltb name n); cbn [assoc].
    + destruct (String.eqb_spec name other); [congruence|reflexivity].
    + rewrite IH. reflexivity.
Qed.

Lemma assoc_list_branch_same name commit l :
  assoc name l = None -> assoc name (list_branch name commit l) = Some commit.
Proof.
  induction l as [|[n c] l IH]; cbn [list_branch assoc].
  - rewrite String.eqb_refl. reflexivity.
  - destruct (String.eqb n name) eqn:E; [discriminate|]. intros Hn.
    destruct (String.ltb name n); cbn [assoc].
    + rewrite String.eqb_refl. reflexivity.
    + rewrite E. apply IH, Hn.
Qed.

Lemma assoc_none_keys {A} (k : string) (l : list (string * A)) :
  assoc k l = None -> k ∉ map fst l.
Proof.
  intros Hn Hin. destruct (assoc_elem k l Hin) as [v Hv]. congruence.
Qed.

Lemma assoc_replace_other name commit other l :
  other <> name ->
  assoc other
    (map (fun nc : string * string =>
            if String.eqb (fst nc) name then (name, commit) else nc) l)
  = assoc other l.
Proof.
  intros Hne. induction l as [|[n c] l IH]; [reflexivity|]. cbn [map assoc fst].
  destruct (String.eqb_spec n name) as [->|Hnn]; cbn [assoc]; rewrite IH.
  - destruct (String.eqb_spec name other); [congruence|reflexivity].
  - reflexivity.
Qed.

Lemma assoc_replace_same name commit l c :
  assoc name l = Some c ->
  assoc name
    (map (fun nc : string * string =>
            if String.eqb (fst nc) name then (name, commit) else nc) l)
  = Some commit.
Proof.
  induction l as [|[n c0] l IH]; [discriminate|]. cbn [map assoc fst].
  destruct (String.eqb_spec n name) as [->|Hnn]; cbn [assoc].
  - rewrite String.eqb_refl. reflexivity.
  - destruct (String.eqb_spec n name); [contradiction|]. exact IH.
Qed.

Lemma replace_keys name commit (l : list (string * string)) :
  map fst (map (fun nc : string * string =>
                  if String.eqb (fst nc) name then (name, commit) else nc) l)
  = map fst l.
Proof.
  induction l as [|[n c] l IH]; [reflexivity|]. cbn [map fst].
  rewrite IH. destruct (String.eqb_spec n name) as [->|_]; reflexivity.
Qed.

Lemma assoc_track_same name commit l :
  assoc name (track name commit l) = Some commit.
Proof.
  unfold track. destruct (assoc name l) as [c|] eqn:Ha.
  - eapply assoc_replace_same, Ha.
  - apply assoc_list_branch_same, Ha.
Qed.

Lemma assoc_track_other name commit other l :
  other <> name -> assoc other (track name commit l) = assoc other l.
Proof.
  intros Hne. unfold track. destruct (assoc name l) as [c|].
  - apply assoc_replace_other, Hne.
  - apply assoc_list_branch_other, Hne.
Qed.

Lemma track_keys name commit l x :
  x ∈ map fst (track name commit l) <-> x = name \/ x ∈ map fst l.
Proof.
  unfold track. destruct (assoc name l) as [c|] eqn:Ha.
  - rewrite replace_keys. split; [auto|]. intros [->|Hin]; [|exact Hin].
    apply assoc_some_elem in Ha.
    apply list_elem_of_fmap. exists (name, c). split; [reflexivity|exact Ha].
  - change (map fst) with (fmap (M:=list) (@fst string string)).
    rewrite list_branch_perm. cbn [fmap list_fmap fst].
    apply elem_of_cons.
Qed.

Lemma track_NoDup name commit l :
  NoDup (map fst l) -> NoDup (map fst (track name commit l)).
Proof.
  intros Hnd. unfold track. destruct (assoc name l) as [c|] eqn:Ha.
  - rewrite replace_keys. exact Hnd.
  - change (map fst) with (fmap (M:=list) (@fst string string)).
    rewrite list_branch_perm. cbn [fmap list_fmap fst].
    apply NoDup_cons. split; [apply assoc_none_keys, Ha|exact Hnd].
Qed.

Lemma branch_name_inj hostname i j :
  branch_name hostname i = branch_name hostname j -> i = j.
Proof.
  unfold branch_name. intros Heq.
  apply String.app_inj, String.app_inj in Heq.
  apply pretty_nat_inj, Heq.
Qed.

Lemma find_occurrence p x y : find p (x +:+ p +:+ y) <> None.
Proof.
  induction x as [|c x IH].
  - rewrite app_empty, (find_here _ _ y); [discriminate|apply strip_prefix_app].
  - rewrite app_cons. cbn [find].
    destruct (strip_prefix p (String c (x +:+ p +:+ y))); [discriminate|].
    destruct (find p (x +:+ p +:+ y)) as [[a b]|]; [discriminate|contradiction].
Qed.

Lemma contains_inside p a s b :
  contains p s = true -> contains p (a +:+ s +:+ b) = true.
Proof.
  unfold contains. destruct (find p s) as [[a0 b0]|] eqn:Hf; [|discriminate].
  intros _. apply find_split in Hf. subst s.
  replace (a +:+ (a0 +:+ p +:+ b0) +:+ b) with ((a +:+ a0) +:+ p +:+ (b0 +:+ b))
    by (rewrite !str_app_assoc; reflexivity).
  pose proof (find_occurrence p (a +:+ a0) (b0 +:+ b)) as Hne.
  destruct (find p _) as [[? ?]|]; [reflexivity|contradiction].
Qed.

Section Branches.
Context `{GitRefs}.

Lemma start_branches_tracks names :
  forall commits r r' codes,
    NoDup names ->
    length names = length commits ->
    start_branches r (zip names commits) = (r', codes) ->
    forallb (fun code => code) codes = true ->
    (forall i n c, names !! i = Some n -> commits !! i = Some c ->
                   assoc n (branches r') = Some c /\ is_Some (objects r !! c)) /\
    (forall name, name ∉ names -> assoc name (branches r') = assoc name (branches r)) /\
    ((NoDup (map fst (branches r)) -> NoDup (map fst (branches r'))) /\
     (forall x, x ∈ map fst (branches r')
                <-> x ∈ names \/ x ∈ map fst (branches r))) /\
    objects r' = objects r /\ notes r' = notes r /\ tags r' = tags r /\
    remote_branches r' = remote_branches r /\ top r' = top r.
Proof.
  induction names as [|n names IH]; intros [|c commits] r r' codes Hnd Hl;
    try discriminate.
  - intros [= <- <-] _.
    split; [intros i n c Hn; inversion Hn|]. split; [reflexivity|].
    split; [split; [auto|]|repeat split].
    intros x. rewrite elem_of_nil. tauto.
  - apply NoDup_cons in Hnd as [Hn Hnd]. injection Hl as Hl.
    cbn [zip zip_with start_branches].
    destruct (git_branch_f r n c) as [r1 code] eqn:Hb.
    destruct (start_branches r1 (zip names commits)) as [r2 codes2] eqn:Hs.
    intros [= <- <-]. cbn [forallb]. intros Hall.
    apply andb_true_iff in Hall as [Hcode Hall]. subst code.
    destruct (IH _ _ _ _ Hnd Hl Hs Hall)
      as (Htr & Hother & Hperm & Ho & Hno & Hta & Hre & Hto).
    unfold git_branch_f in Hb.
    destruct (valid_branch_name r n && bool_decide (is_Some (objects r !! c)))
      eqn:Hv; [|discriminate].
    injection Hb as <-. cbn [objects notes tags remote_branches top branches
                             set_branches] in *.
    apply andb_true_iff in Hv as [_ Hc]. apply bool_decide_eq_true in Hc.
    split; [|split; [|split; [|repeat split; assumption]]].
    + intros [|i] n' c' Hn' Hc'; cbn in Hn', Hc'.
      * injection Hn' as <-. injection Hc' as <-. split; [|exact Hc].
        rewrite (Hother n Hn). apply assoc_track_same.
      * apply (Htr i n' c' Hn' Hc').
    + intros name Hname. apply not_elem_of_cons in Hname as [Hne Hname].
      rewrite (Hother name Hname). apply assoc_track_other, Hne.
    + destruct Hperm as [Hkeep Hkeys]. split.
      * intros Hold. apply Hkeep, track_NoDup, Hold.
      * intros x. rewrite Hkeys, track_keys, elem_of_cons. tauto.
Qed.

Lemma update_branches_names hostname (pop : list string) :
  NoDup (imap (fun index _ => branch_name hostname index) pop) /\
  length (imap (fun index (_ : string) => branch_name hostname index) pop)
    = length pop.
Proof.
  split; [|apply length_imap].
  apply NoDup_alt. intros i j name Hi Hj.
  apply list_lookup_imap_Some in Hi as (_ & _ & ->).
  apply list_lookup_imap_Some in Hj as (_ & _ & Heq).
  eapply branch_name_inj, Heq.
Qed.

Lemma update_branches_result config r pop r' :
  update_branches config r pop = (r', Ok tt) ->
  exists codes,
    start_branches r
      (zip (imap (fun index _ => branch_name (default "host0" (hostname config)) index)
              pop) pop) = (r', codes) /\
    forallb (fun code => code) codes = true.
Proof.
  unfold update_branches, branches_track_commits.
  destruct (start_branches r _) as [r1 codes] eqn:Hs.
  destruct (forallb (fun code => code) codes) eqn:Hall; [|discriminate].
  intros [= <-]. eauto.
Qed.

(** X26.  After an [update_branches] that went through, the branch
    [<hostname>-individual-<i>] points at the i-th individual, for every
    individual (each a commit of the repository); every other branch, and
    so a branch left by a larger population before, is where it was; and
    the objects, notes, tags and fetched branches are untouched. *)
Theorem update_branches_tracks config r pop r' :
  update_branches config r pop = (r', Ok tt) ->
  (forall i c, pop !! i = Some c ->
     assoc (branch_name (default "host0" (hostname config)) i) (branches r')
       = Some c /\
     is_Some (objects r !! c)) /\
  (forall name,
     (forall i, i < length pop ->
                name <> branch_name (default "host0" (hostname config)) i) ->
     assoc name (branches r') = assoc name (branches r)) /\
  objects r' = objects r /\ notes r' = notes r /\ tags r' = tags r /\
  remote_branches r' = remote_branches r /\ top r' = top r.
Proof.
  intros Hu. apply update_branches_result in Hu as (codes & Hs & Hall).
  destruct (update_branches_names (default "host0" (hostname config)) pop)
    as [Hnd Hl].
  destruct (start_branches_tracks _ _ _ _ _ Hnd Hl Hs Hall)
    as (Htr & Hother & _ & Hframe).
  split; [|split; [|exact Hframe]].
  - intros i c Hc. apply (Htr i); [|exact Hc].
    rewrite list_lookup_imap, Hc. reflexivity.
  - intros name Hname. apply Hother. intros Hin.
    apply elem_of_lookup_imap_1 in Hin as (i & c & -> & Hc).
    apply (Hname i); [|reflexivity].
    apply lookup_lt_Some in Hc. exact Hc.
Qed.
End Branches.

Lemma update_branches_tracks_witness :
  exists r',
    @update_branches DemoBranches.any_name Demo.config DemoMigration.fetched
      ["b2"; "a1"] = (r', Ok tt) /\
    assoc "host0-individual-0" (branches r') = Some "b2" /\
    assoc "host0-individual-1" (branches r') = Some "a1".
Proof.
  eexists. split; [vm_compute; reflexivity|].
  destruct (@update_branches_tracks DemoBranches.any_name Demo.config
              DemoMigration.fetched ["b2"; "a1"] _
              ltac:(vm_compute; reflexivity)) as (Htr & _).
  split.
  - apply (proj1 (Htr 0 "b2" eq_refl)).
  - apply (proj1 (Htr 1 "a1" eq_refl)).
Defined.

Lemma is_normal_branch_word word branch :
  word ∈ ["detached"; "master"; "main"; "HEAD"] ->
  contains word branch = true -> is_normal_branch branch = false.
Proof.
  intros Hw Hc. unfold is_normal_branch.
  repeat (apply elem_of_cons in Hw as [->|Hw]);
    [..|apply elem_of_nil in Hw; destruct Hw];
    rewrite Hc, ?orb_true_r; reflexivity.
Qed.

(** X27.  [list_branches] tells the branches of the evolution from the
    others by looking for the words [detached], [master], [main] and [HEAD]
    anywhere in the name.  So when the host name holds one of them (as
    [domain-7] holds [main]), none of the branches this host makes for its
    population is a usual branch, under any prefix: neither this host, by
    [list_branches(config)], nor another host after a fetch, by
    [list_branches(config, list_remote=True)], ever lists them. *)
Theorem hostname_hides_branches (config : EvoGitConfig) (word : string) :
  word ∈ ["detached"; "master"; "main"; "HEAD"] ->
  contains word (default "host0" (hostname config)) = true ->
  forall (r : repo) (index : nat) (remote : string),
    (branch_name (default "host0" (hostname config)) index
       ∉ list_local_branches r) /\
    (("remotes/" +:+ remote +:+
        branch_name (default "host0" (hostname config)) index)
       ∉ list_remote_branches r).
Proof.
  intros Hw Hc r index remote.
  assert (Hhidden : forall prefix,
            is_normal_branch
              (prefix +:+ branch_name (default "host0" (hostname config)) index)
            = false).
  { intros prefix. apply (is_normal_branch_word word _ Hw).
    unfold branch_name. apply contains_inside, Hc. }
  split.
  - unfold list_local_branches. intros Hin.
    apply list_elem_of_filter in Hin as [Hn _].
    pose proof (Hhidden EmptyString) as Hh. rewrite app_empty in Hh.
    rewrite Hh in Hn. exact Hn.
  - unfold list_remote_branches. intros Hin.
    apply list_elem_of_fmap in Hin as (b & Heq & Hin).
    apply String.app_inj in Heq. subst b.
    apply list_elem_of_filter in Hin as [Hn _].
    rewrite (Hhidden remote) in Hn. exact Hn.
Qed.

Lemma hostname_hides_branches_witness :
  ("domain-7-individual-3" ∉ list_local_branches DemoMigration.fetched) /\
  ("remotes/origin/domain-7-individual-3"
     ∉ list_remote_branches DemoMigration.fetched).
Proof.
  apply (hostname_hides_branches DemoBranches.domain_config "main"
           ltac:(set_solver) ltac:(vm_compute; reflexivity)
           DemoMigration.fetched 3 "origin/").
Defined.

Lemma assoc_listed {A} (k : string) (l : list (string * A)) :
  k ∈ map fst l -> is_Some (assoc k l).
Proof. intros Hk. destruct (assoc_elem k l Hk) as [v Hv]. rewrite Hv. eauto. Qed.

Lemma get_initial_branches_local r names :
  (forall b, b ∈ names -> b ∈ list_local_branches r) ->
  exists pop,
    mapM (get_commit_by_local_branch r) names = Ok pop /\
    Forall2 (fun b c => get_commit_by_local_branch r b = Ok c) names pop.
Proof.
  intros Hn.
  destruct (mapM_ok_intro (get_commit_by_local_branch r) names) as [pop Hpop].
  - intros b Hb. apply Hn in Hb. unfold list_local_branches in Hb.
    apply list_elem_of_filter in Hb as [_ Hb].
    unfold get_commit_by_local_branch.
    destruct (assoc b (tags r)); [eauto|].
    destruct (assoc_listed b (branches r) Hb) as [c Hc]. rewrite Hc. eauto.
  - exists pop. split; [exact Hpop|]. apply mapM_ok_Forall2, Hpop.
Qed.

Lemma get_initial_branches_remote r names :
  (forall b, b ∈ names -> b ∈ list_remote_branches r) ->
  exists pop,
    mapM (get_commit_by_branch r) names = Ok pop /\
    Forall2 (fun b c => get_commit_by_branch r b = Ok c) names pop.
Proof.
  intros Hn.
  destruct (mapM_ok_intro (get_commit_by_branch r) names) as [pop Hpop].
  - intros b Hb. apply Hn in Hb. unfold list_remote_branches in Hb.
    apply list_elem_of_fmap in Hb as (b0 & -> & Hb).
    apply list_elem_of_filter in Hb as [_ Hb].
    unfold get_commit_by_branch. rewrite strip_prefix_app.
    destruct (assoc_listed b0 (remote_branches r) Hb) as [c Hc].
    rewrite Hc. eauto.
  - exists pop. split; [exact Hpop|]. apply mapM_ok_Forall2, Hpop.
Qed.

Lemma elem_of_take_list {A} (x : A) n (l : list A) : x ∈ take n l -> x ∈ l.
Proof.
  intros Hx. apply elem_of_take in Hx as (i & Hi & _).
  eapply list_elem_of_lookup_2, Hi.
Qed.

(** X28.  Resuming ([clean_start] false), [get_initial_branches] does not
    raise and returns exactly [pop_size] commits: first the commits of
    the local branches of the evolution, then, when these are too few,
    the commits of fetched branches, and the current HEAD as often as it
    takes to fill the population.  With a clean start it returns
    [pop_size] times the commit of [main], and raises what the lookup
    of [main] raises when there is none. *)
Theorem get_initial_branches_fills (r : repo) (pop_size : nat) :
  (exists pop,
     get_initial_branches false r pop_size = Ok pop /\
     length pop = pop_size /\
     Forall (fun c =>
               (exists b, b ∈ list_local_branches r /\
                          get_commit_by_local_branch r b = Ok c) \/
               (exists b, b ∈ list_remote_branches r /\
                          get_commit_by_branch r b = Ok c) \/
               c = read_head_commit r) pop) /\
  match get_initial_branches true r pop_size with
  | Ok pop =>
      length pop = pop_size /\
      Forall (fun c => get_commit_by_local_branch r "main" = Ok c) pop
  | Raise e => get_commit_by_local_branch r "main" = Raise e
  end.
Proof.
  split.
  - unfold get_initial_branches.
    destruct (get_initial_branches_local r (take pop_size (list_local_branches r)))
      as (local & Hlocal & Hl2); [intros b; apply elem_of_take_list|].
    rewrite Hlocal. rsimpl.
    assert (Hll : length local <= pop_size).
    { apply Forall2_length in Hl2. rewrite <- Hl2, length_take. lia. }
    assert (Hlf : Forall (fun c =>
               (exists b, b ∈ list_local_branches r /\
                          get_commit_by_local_branch r b = Ok c) \/
               (exists b, b ∈ list_remote_branches r /\
                          get_commit_by_branch r b = Ok c) \/
               c = read_head_commit r) local).
    { apply Forall_forall. intros c Hc.
      apply list_elem_of_lookup_1 in Hc as [i Hi].
      destruct (Forall2_lookup_r _ _ _ _ _ Hl2 Hi) as (b & Hb & Hbc).
      left. exists b. split; [|exact Hbc].
      eapply elem_of_take_list, list_elem_of_lookup_2, Hb. }
    destruct (Nat.ltb_spec (length local) pop_size) as [Hlt|Hge].
    + destruct (get_initial_branches_remote r
                  (take (pop_size - length local) (list_remote_branches r)))
        as (remote & Hremote & Hr2); [intros b; apply elem_of_take_list|].
      rewrite Hremote. rsimpl. eexists. split; [reflexivity|].
      assert (Hrl : length remote <= pop_size - length local).
      { apply Forall2_length in Hr2. rewrite <- Hr2, length_take. lia. }
      split.
      * rewrite !length_app, repeat_length. lia.
      * apply Forall_app. split; [apply Forall_app; split; [exact Hlf|]|].
        -- apply Forall_forall. intros c Hc.
           apply list_elem_of_lookup_1 in Hc as [i Hi].
           destruct (Forall2_lookup_r _ _ _ _ _ Hr2 Hi) as (b & Hb & Hbc).
           right. left. exists b. split; [|exact Hbc].
           eapply elem_of_take_list, list_elem_of_lookup_2, Hb.
        -- apply Forall_forall. intros c Hc.
           apply list_elem_of_In, repeat_spec in Hc. auto.
    + rsimpl. eexists. split; [reflexivity|]. split.
      * rewrite length_app, repeat_length. lia.
      * apply Forall_app. split; [exact Hlf|].
        apply Forall_forall. intros c Hc.
        apply list_elem_of_In, repeat_spec in Hc. auto.
  - unfold get_initial_branches.
    destruct (get_commit_by_local_branch r "main") as [c|e]; rsimpl;
      [|reflexivity].
    split; [apply repeat_length|].
    apply Forall_forall. intros c' Hc.
    apply list_elem_of_In, repeat_spec in Hc. subst c'. reflexivity.
Qed.

Section Resume.
Context `{GitRefs}.

(** X29.  A run can be resumed from its branches.  In a repository
    without tags, whose local branches of the evolution are at most the
    ones this host made for a population of this size, and with a host
    name that makes usual branch names: after [update_branches] has set
    the branches of a population, [get_initial_branches] for the same
    population size returns the population itself, in the order in which
    git lists the branches (for more than ten individuals that is not the
    order of the indices). *)
Theorem resume_after_update config r pop r' :
  tags r = [] ->
  NoDup (map fst (branches r)) ->
  (forall b, b ∈ map fst (branches r) -> is_normal_branch b = true ->
     exists i, i < length pop /\
               b = branch_name (default "host0" (hostname config)) i) ->
  (forall i, i < length pop ->
     is_normal_branch (branch_name (default "host0" (hostname config)) i) = true) ->
  update_branches config r pop = (r', Ok tt) ->
  exists pop',
    get_initial_branches false r' (length pop) = Ok pop' /\ pop' ≡ₚ pop.
Proof.
  intros Htags Hdistinct Hold Hnew Hu.
  set (host := default "host0" (hostname config)) in *.
  set (names := imap (fun index (_ : string) => branch_name host index) pop).
  apply update_branches_result in Hu as (codes & Hs & Hall). fold host names in Hs.
  destruct (update_branches_names host pop) as [Hnd Hl]. fold names in Hnd, Hl.
  destruct (start_branches_tracks _ _ _ _ _ Hnd Hl Hs Hall)
    as (Htr & _ & [Hkeep Hkeys] & _ & _ & Hta & _).
  assert (Hnames : forall b, b ∈ names <->
            exists i, i < length pop /\ b = branch_name host i).
  { intros b. unfold names. rewrite elem_of_lookup_imap. split.
    - intros (i & c & -> & Hc). exists i. split; [|reflexivity].
      apply lookup_lt_Some in Hc. exact Hc.
    - intros (i & Hi & ->). apply lookup_lt_is_Some in Hi as [c Hc].
      exists i, c. auto. }
  assert (Hlist : list_local_branches r' ≡ₚ names).
  { apply NoDup_Permutation.
    - unfold list_local_branches. apply NoDup_filter, Hkeep, Hdistinct.
    - exact Hnd.
    - intros b. unfold list_local_branches.
      rewrite list_elem_of_filter, Hkeys. split.
      + intros [Hn [Hb|Hb]]; [exact Hb|].
        apply Hnames, Hold; [exact Hb|].
        destruct (is_normal_branch b); [reflexivity|contradiction].
      + intros Hb. split; [|left; exact Hb].
        apply Hnames in Hb as (i & Hi & ->). rewrite (Hnew i Hi). exact I. }
  set (commit_of := fun b => default EmptyString (assoc b (branches r'))).
  assert (Hcommit : forall b, b ∈ list_local_branches r' ->
            get_commit_by_local_branch r' b = Ok (commit_of b)).
  { intros b Hb. rewrite Hlist in Hb.
    apply list_elem_of_lookup_1 in Hb as [i Hi].
    pose proof Hi as Hi'. unfold names in Hi'.
    apply list_lookup_imap_Some in Hi' as (c & Hc & _).
    destruct (Htr i b c Hi Hc) as [Hb _].
    unfold get_commit_by_local_branch, commit_of.
    rewrite Hta, Htags, Hb. reflexivity. }
  assert (Hpop : map commit_of names = pop).
  { apply list_eq. intros i.
    change (map commit_of names) with (commit_of <$> names).
    rewrite list_lookup_fmap. unfold names. rewrite list_lookup_imap.
    destruct (pop !! i) as [c|] eqn:Hc; [|reflexivity]. cbn.
    destruct (Htr i (branch_name host i) c) as [Hb _]; [|exact Hc|].
    - unfold names. rewrite list_lookup_imap, Hc. reflexivity.
    - unfold commit_of. rewrite Hb. reflexivity. }
  assert (Hlen : length (list_local_branches r') = length pop)
    by (rewrite Hlist; exact Hl).
  exists (map commit_of (list_local_branches r')). split.
  - unfold get_initial_branches.
    rewrite take_ge by lia.
    rewrite (mapM_ok_map _ commit_of) by exact Hcommit. rsimpl.
    rewrite length_map, Hlen, Nat.ltb_irrefl. rsimpl.
    rewrite length_map, Hlen, Nat.sub_diag. cbn [repeat].
    rewrite app_nil_r. reflexivity.
  - rewrite <- Hpop. change (map commit_of) with (fmap (M:=list) commit_of).
    rewrite Hlist. reflexivity.
Qed.
End Resume.

Lemma resume_after_update_witness :
  exists r' pop',
    @update_branches DemoBranches.any_name Demo.config DemoMigration.fetched
      ["b2"; "a1"] = (r', Ok tt) /\
    get_initial_branches false r' 2 = Ok pop' /\
    pop' ≡ₚ ["b2"; "a1"].
Proof.
  exists (fst (@update_branches DemoBranches.any_name Demo.config
                 DemoMigration.fetched ["b2"; "a1"])).
  destruct (@resume_after_update DemoBranches.any_name Demo.config
              DemoMigration.fetched ["b2"; "a1"]
              (fst (@update_branches DemoBranches.any_name Demo.config
                      DemoMigration.fetched ["b2"; "a1"])))
    as (pop' & Hget & Hperm).
  - reflexivity.
  - vm_compute. apply NoDup_singleton.
  - intros b Hb _. apply list_elem_of_singleton in Hb as ->.
    exists 0. split; [simpl; lia|reflexivity].
  - intros [|[|i]] Hi; [reflexivity|reflexivity|simpl in Hi; lia].
  - vm_compute. reflexivity.
  - exists pop'. split; [vm_compute; reflexivity|]. split; assumption.
Defined.

(* ===================================================================== *)
(** * Comparing two generations *)
(* ===================================================================== *)

Lemma record_verdicts_length answers :
  forall result, length (record_verdicts result answers) = length result.
Proof.
  unfold record_verdicts.
  induction answers as [|a answers IH]; intros result; cbn [fold_left];
    [reflexivity|].
  rewrite IH. apply length_insert.
Qed.

Lemma record_verdicts_other answers i :
  forall result,
    i ∉ map fst answers ->
    record_verdicts result answers !! i = result !! i.
Proof.
  unfold record_verdicts.
  induction answers as [|a answers IH]; intros result Hi; cbn [fold_left];
    [reflexivity|].
  cbn [map] in Hi. apply not_elem_of_cons in Hi as [Hne Hi].
  rewrite (IH _ Hi). apply list_lookup_insert_ne. congruence.
Qed.

Lemma need_compare_differs prev_commits new_commits i p n :
  (i, (p, n)) ∈ need_compare prev_commits new_commits ->
  prev_commits !! i = Some p /\ new_commits !! i = Some n /\ p <> n.
Proof.
  unfold need_compare. intros Hin.
  apply list_elem_of_filter in Hin as [Hne Hin]. cbn [fst snd] in Hne.
  apply elem_of_lookup_imap_1 in Hin as (j & [p0 n0] & [= -> -> ->] & Hj).
  apply lookup_zip_with_Some in Hj as (p1 & n1 & [= -> ->] & Hp & Hn).
  repeat split; try assumption.
  intros ->. rewrite String.eqb_refl in Hne. exact Hne.
Qed.

Lemma lookup_repeat {A} (x : A) n i : i < n -> repeat x n !! i = Some x.
Proof.
  revert i. induction n as [|n IH]; intros [|i] Hi; try lia; [reflexivity|].
  cbn. apply IH. lia.
Qed.

Lemma zip_keys {A B} (l : list A) (k : list B) x :
  x ∈ map fst (zip l k) -> x ∈ l.
Proof.
  revert k. induction l as [|a l IH]; intros [|b k] Hx; cbn in Hx;
    try (inversion Hx; fail).
  apply elem_of_cons in Hx as [->|Hx]; [left|right; eapply IH, Hx].
Qed.

(** X30.  [llm_diff_compare] answers for every pair, and a pair of twice
    the same commit is good without the model being asked: its index is
    not among the ones compared, so the default [True] stays.  A verdict
    [False] is only ever given to a pair of two different commits. *)
Theorem llm_diff_compare_same_is_good `{DiffView} `{LLMBackend}
    diff_prompt_constructor r seeds prev_commits new_commits result :
  llm_diff_compare diff_prompt_constructor r seeds prev_commits new_commits
    = Ok result ->
  length result = length prev_commits /\
  length new_commits = length prev_commits /\
  (forall i commit,
     prev_commits !! i = Some commit -> new_commits !! i = Some commit ->
     result !! i = Some true) /\
  (forall i, result !! i = Some false ->
     exists p n, prev_commits !! i = Some p /\ new_commits !! i = Some n /\
                 p <> n).
Proof.
  unfold llm_diff_compare.
  destruct (Nat.eqb_spec (length prev_commits) (length new_commits))
    as [Hlen|]; [|discriminate]. cbn [negb].
  destruct (mapM _ (need_compare prev_commits new_commits)) as [prompts|e];
    [|discriminate]. rsimpl.
  destruct (query seeds prompts) as [responses|e]; [|discriminate]. rsimpl.
  intros [= <-].
  assert (Hidx : forall i,
            i ∈ map fst (zip (map fst (need_compare prev_commits new_commits))
                             responses) ->
            exists p n, prev_commits !! i = Some p /\ new_commits !! i = Some n /\
                        p <> n).
  { intros i Hi. apply zip_keys in Hi.
    apply list_elem_of_fmap in Hi as ([j [p n]] & -> & Hin).
    exists p, n. apply need_compare_differs, Hin. }
  split; [rewrite record_verdicts_length; apply repeat_length|].
  split; [congruence|]. split.
  - intros i commit Hp Hn. rewrite record_verdicts_other.
    + apply lookup_lt_Some in Hp. apply lookup_repeat, Hp.
    + intros Hi. apply Hidx in Hi as (p & n & Hp' & Hn' & Hne). congruence.
  - intros i Hfalse.
    destruct (decide (i ∈ map fst (zip (map fst (need_compare prev_commits
                                                   new_commits)) responses)))
      as [Hi|Hi]; [apply Hidx, Hi|].
    rewrite (record_verdicts_other _ _ _ Hi) in Hfalse.
    apply list_elem_of_lookup_2, list_elem_of_In, repeat_spec in Hfalse.
    discriminate.
Qed.

Lemma llm_diff_compare_same_is_good_witness :
  exists result,
    @llm_diff_compare DemoDiff.names_only DemoMutation.constant_backend
      DemoDiff.diff_only DemoMutation.store [1%Z; 2%Z] ["c1"; "c1"] ["c1"; "d1"]
    = Ok result /\
    length result = 2 /\
    result !! 0 = Some true.
Proof.
  eexists. split; [vm_compute; reflexivity|].
  destruct (@llm_diff_compare_same_is_good DemoDiff.names_only
              DemoMutation.constant_backend DemoDiff.diff_only DemoMutation.store
              [1%Z; 2%Z] ["c1"; "c1"] ["c1"; "d1"] _
              ltac:(vm_compute; reflexivity)) as (Hl & _ & Hsame & _).
  split; [exact Hl|]. apply (Hsame 0 "c1"); reflexivity.
Defined.
